(** * Velociraptor: chunker, tree builder, navigator and similarity ranker

    A shallow embedding of the core of the repository:
    - [src/processors/document_splitter.py] (chunking and tree building),
    - [src/models/document_node.py], [src/models/document_tree.py],
    - [src/navigation/tree_navigator.py],
    - [src/ai/embeddings.py] (cosine similarity and ranking).

    Python integers are [Z], Python floats are the kernel's binary64
    [float]; objects that are mutated through several references live in
    an explicit heap; exceptions and loops are explicit in [outcome]. *)

From Stdlib Require Import ZArith List String Ascii Bool Lia Floats Permutation Sorted.
From Stdlib Require Import DecimalString.
From stdpp Require Import base option list strings sorting.
Import ListNotations.
Local Open Scope string_scope.
Local Open Scope list_scope.
Local Open Scope Z_scope.

(** ** Python primitives *)

(** The exceptions the modelled code can raise. *)
Inductive exn : Type :=
| ValueError
| IndexError
| ZeroDivisionError
| BadReference   (* model only: a reference outside the heap *).

(** Result of running a piece of Python: a value, a raised exception, or
    a loop/recursion that did not finish within the fuel it was given. *)
Inductive outcome (A : Type) : Type :=
| Ret (a : A)
| Raise (e : exn)
| OutOfFuel.
Arguments Ret {A} a.
Arguments Raise {A} e.
Arguments OutOfFuel {A}.

Definition obind {A B} (m : outcome A) (k : A -> outcome B) : outcome B :=
  match m with
  | Ret a => k a
  | Raise e => Raise e
  | OutOfFuel => OutOfFuel
  end.

(** [len(l)] *)
Definition len {A} (l : list A) : Z := Z.of_nat (length l).

(** Normalisation of a slice bound against a list of length [n]:
    negative bounds count from the end, everything is clamped to [0, n]. *)
Definition py_slice_bound (n i : Z) : Z :=
  if i <? 0 then Z.max 0 (i + n) else Z.min i n.

(** [l[lo:hi]] *)
Definition py_slice {A} (l : list A) (lo hi : Z) : list A :=
  let lo' := py_slice_bound (len l) lo in
  let hi' := py_slice_bound (len l) hi in
  firstn (Z.to_nat (hi' - lo')) (skipn (Z.to_nat lo') l).

(** [l[0]] and [l[-1]] *)
Definition py_first {A} (l : list A) : outcome A :=
  match l with
  | [] => Raise IndexError
  | x :: _ => Ret x
  end.

Definition py_last {A} (l : list A) : outcome A :=
  match last l with
  | None => Raise IndexError
  | Some x => Ret x
  end.

(** [sep.join(l)] *)
Fixpoint py_join (sep : string) (l : list string) : string :=
  match l with
  | [] => EmptyString
  | [x] => x
  | x :: l' => String.append x (String.append sep (py_join sep l'))
  end.

Definition newline : ascii := ascii_of_nat 10.
(** The separator ['\n\n']. *)
Definition blank_line : string := String newline (String newline EmptyString).

(** ** The chunker: [DocumentSplitter.split_pages_into_chunks] *)

(** A page as produced by [extract_text_from_pdf]. *)
Record Page : Type := mkPage {
  page_number : Z;
  text : string;
  page_char_count : Z
}.

(** A chunk dictionary. *)
Record Chunk : Type := mkChunk {
  chunk_page_start : Z;
  chunk_page_end : Z;
  chunk_text : string;
  chunk_char_count : Z;
  chunk_page_count : Z
}.

(** [DocumentSplitter.__init__]: the three stored parameters. *)
Record DocumentSplitter : Type := mkSplitter {
  max_chunk_size : Z;
  min_chunk_size : Z;
  overlap_pages : Z
}.

(** [chunk_end = min(i + self.max_chunk_size, total_pages)] *)
Definition chunk_end_at (self : DocumentSplitter) (total_pages i : Z) : Z :=
  Z.min (i + max_chunk_size self) total_pages.

(** [max(i + 1, chunk_end - self.overlap_pages) if self.overlap_pages > 0
     else chunk_end] *)
Definition next_index (self : DocumentSplitter) (i chunk_end : Z) : Z :=
  if 0 <? overlap_pages self
  then Z.max (i + 1) (chunk_end - overlap_pages self)
  else chunk_end.

(** The chunk dictionary built from [chunk_pages = pages[i:chunk_end]]. *)
Definition make_chunk (chunk_pages : list Page) : outcome Chunk :=
  let combined_text := py_join blank_line (map text chunk_pages) in
  obind (py_first chunk_pages) (fun p0 =>
  obind (py_last chunk_pages) (fun pl =>
  Ret {| chunk_page_start := page_number p0;
         chunk_page_end := page_number pl;
         chunk_text := combined_text;
         chunk_char_count := Z.of_nat (String.length combined_text);
         chunk_page_count := len chunk_pages |})).

(** The [while i < total_pages] loop; one unit of fuel per iteration. *)
Fixpoint split_loop (self : DocumentSplitter) (pages : list Page)
    (fuel : nat) (i : Z) (chunks : list Chunk) : outcome (list Chunk) :=
  let total_pages := len pages in
  if i <? total_pages then
    match fuel with
    | O => OutOfFuel
    | S fuel' =>
        let chunk_end := chunk_end_at self total_pages i in
        let chunk_pages := py_slice pages i chunk_end in
        obind (make_chunk chunk_pages) (fun chunk =>
        split_loop self pages fuel' (next_index self i chunk_end)
                   (chunks ++ [chunk]))
    end
  else Ret chunks.

(** [split_pages_into_chunks].  The loop is given one unit of fuel per
    page; [split_pages_into_chunks_fuel] below shows that this is never
    exhausted, whatever the parameters. *)
Definition split_pages_into_chunks (self : DocumentSplitter)
    (pages : list Page) : outcome (list Chunk) :=
  match pages with
  | [] => Ret []
  | _ => split_loop self pages (length pages) 0 []
  end.

(** The page ranges [(i, chunk_end)] the scan visits from index [i], as
    the loop computes them; used to state what the chunks cover. *)
Fixpoint scan_ranges (self : DocumentSplitter) (total_pages : Z)
    (fuel : nat) (i : Z) : list (Z * Z) :=
  if i <? total_pages then
    match fuel with
    | O => []
    | S fuel' =>
        let chunk_end := chunk_end_at self total_pages i in
        (i, chunk_end) :: scan_ranges self total_pages fuel' (next_index self i chunk_end)
    end
  else [].

(** Pages built from page numbers, for examples. *)
Definition numbered_pages (n : nat) : list Page :=
  map (fun k => mkPage (Z.of_nat k) "p" 1) (seq 1 n).

Definition ranges_of_chunks (cs : list Chunk) : list (Z * Z) :=
  map (fun c => (chunk_page_start c, chunk_page_end c)) cs.


(** What it means for chunk [c] to cover the half-open index range
    [r = (i, e)] of [pages]: first and last page numbers, the joined text
    in page order, and the page count. *)
Definition chunk_covers (pages : list Page) (c : Chunk) (r : Z * Z) : Prop :=
  let chunk_pages := firstn (Z.to_nat (r.2 - r.1)) (skipn (Z.to_nat r.1) pages) in
  page_number <$> pages !! Z.to_nat r.1 = Some (chunk_page_start c) /\
  page_number <$> pages !! Z.to_nat (r.2 - 1) = Some (chunk_page_end c) /\
  chunk_text c = py_join blank_line (map text chunk_pages) /\
  chunk_page_count c = r.2 - r.1.


(** ** The node and tree model: [document_node.py], [document_tree.py] *)

Inductive NodeType : Type :=
| ROOT
| BRANCH
| LEAF.

Definition NodeType_eqb (a b : NodeType) : bool :=
  match a, b with
  | ROOT, ROOT | BRANCH, BRANCH | LEAF, LEAF => true
  | _, _ => false
  end.

(** Values stored in a node's [metadata] dictionary. *)
Inductive meta_value : Type :=
| MInt (z : Z)
| MBool (b : bool).

(** Python's [bool] is an [int]: used where metadata values are summed. *)
Definition meta_to_int (v : meta_value) : Z :=
  match v with
  | MInt z => z
  | MBool b => if b then 1 else 0
  end.

(** Insertion-ordered dictionaries with string keys: [d.get(k)] and
    [d[k] = v] (an existing key keeps its position). *)
Fixpoint dict_get {V} (k : string) (d : list (string * V)) : option V :=
  match d with
  | [] => None
  | (k', v) :: d' => if String.eqb k k' then Some v else dict_get k d'
  end.

Fixpoint dict_set {V} (k : string) (v : V) (d : list (string * V)) : list (string * V) :=
  match d with
  | [] => [(k, v)]
  | (k', v') :: d' =>
      if String.eqb k k' then (k, v) :: d' else (k', v') :: dict_set k v d'
  end.

(** The [DocumentNode] dataclass. *)
Record DocumentNode : Type := mkNode {
  id : string;
  content : string;
  summary : string;
  embedding : option (list float);
  node_type : NodeType;
  parent_id : option string;
  children_ids : list string;
  document_id : string;
  level : Z;
  page_start : option Z;
  page_end : option Z;
  metadata : list (string * meta_value)
}.

Definition with_node_type (t : NodeType) (n : DocumentNode) : DocumentNode :=
  mkNode (id n) (content n) (summary n) (embedding n) t (parent_id n)
         (children_ids n) (document_id n) (level n) (page_start n) (page_end n)
         (metadata n).

Definition with_parent_id (p : option string) (n : DocumentNode) : DocumentNode :=
  mkNode (id n) (content n) (summary n) (embedding n) (node_type n) p
         (children_ids n) (document_id n) (level n) (page_start n) (page_end n)
         (metadata n).

Definition with_children_ids (c : list string) (n : DocumentNode) : DocumentNode :=
  mkNode (id n) (content n) (summary n) (embedding n) (node_type n) (parent_id n)
         c (document_id n) (level n) (page_start n) (page_end n) (metadata n).

Definition with_level (l : Z) (n : DocumentNode) : DocumentNode :=
  mkNode (id n) (content n) (summary n) (embedding n) (node_type n) (parent_id n)
         (children_ids n) (document_id n) l (page_start n) (page_end n) (metadata n).

(** Truthiness of an optional string, an optional integer and an
    optional list, as tested by [if x:] / [if not x:]. *)
Definition truthy_str (o : option string) : bool :=
  match o with
  | Some s => negb (String.eqb s EmptyString)
  | None => false
  end.

Definition truthy_int (o : option Z) : bool :=
  match o with
  | Some z => negb (z =? 0)
  | None => false
  end.

Definition truthy_list {A} (o : option (list A)) : bool :=
  match o with
  | Some (_ :: _) => true
  | _ => false
  end.

(** [DocumentNode.is_leaf] and [DocumentNode.is_root]. *)
Definition is_leaf (n : DocumentNode) : bool := len (children_ids n) =? 0.

Definition is_root (n : DocumentNode) : bool :=
  match parent_id n with
  | None => true
  | Some _ => false
  end.

(** *** Objects and references

    Node objects are shared between the lists the builder passes around
    and the tree's dictionary, and are mutated through both, so they live
    in a heap and are named by references.  [uuid_count] counts the
    identifiers drawn from [uuid4] so far. *)
Abbreviation ref := nat (only parsing).

Record world : Type := mkWorld {
  heap : list DocumentNode;
  uuid_count : nat
}.

(** A computation over the heap that may raise. *)
Definition M (A : Type) : Type := world -> outcome (A * world).

Definition mret {A} (a : A) : M A := fun w => Ret (a, w).

Definition mbind {A B} (m : M A) (k : A -> M B) : M B :=
  fun w =>
    match m w with
    | Ret (a, w') => k a w'
    | Raise e => Raise e
    | OutOfFuel => OutOfFuel
    end.

Definition lift {A} (o : outcome A) : M A :=
  fun w =>
    match o with
    | Ret a => Ret (a, w)
    | Raise e => Raise e
    | OutOfFuel => OutOfFuel
    end.

Declare Scope heap_scope.
Delimit Scope heap_scope with heap.
Notation "x <- m ;; k" := (mbind m (fun x => k))
  (at level 100, m at next level, right associativity) : heap_scope.
Notation "m ;; k" := (mbind m (fun _ => k))
  (at level 100, right associativity) : heap_scope.
Local Open Scope heap_scope.

(** [for x in l: f(x)], collecting the results. *)
Fixpoint mmap {A B} (f : A -> M B) (l : list A) : M (list B) :=
  match l with
  | [] => mret []
  | x :: l' => y <- f x ;; ys <- mmap f l' ;; mret (y :: ys)
  end.

(** [for x in l: acc = f(acc, x)] *)
Fixpoint mfold {A S} (f : S -> A -> M S) (s : S) (l : list A) : M S :=
  match l with
  | [] => mret s
  | x :: l' => s' <- f s x ;; mfold f s' l'
  end.

(** Creating an object. *)
Definition new_node (n : DocumentNode) : M ref :=
  fun w => Ret (length (heap w), mkWorld (heap w ++ [n]) (uuid_count w)).

(** Reading an attribute of the object behind a reference.  A reference
    outside the heap has no Python counterpart; it is reported as
    [Raise BadReference] so that it can never be mistaken for a result. *)
Definition get_attr {A} (f : DocumentNode -> A) (r : ref) : M A :=
  fun w =>
    match heap w !! r with
    | Some n => Ret (f n, w)
    | None => Raise BadReference
    end.

(** Assigning an attribute. *)
Definition set_attr (upd : DocumentNode -> DocumentNode) (r : ref) : M unit :=
  fun w =>
    match heap w !! r with
    | Some n => Ret (tt, mkWorld (<[r := upd n]> (heap w)) (uuid_count w))
    | None => Raise BadReference
    end.

(** [DocumentNode.add_child] *)
Definition add_child (self child_node : ref) : M unit :=
  child_id <- get_attr id child_node ;;
  kids <- get_attr children_ids self ;;
  if bool_decide (child_id ∈ kids) then mret tt
  else
    set_attr (with_children_ids (kids ++ [child_id])) self ;;
    self_id <- get_attr id self ;;
    set_attr (with_parent_id (Some self_id)) child_node ;;
    self_level <- get_attr level self ;;
    set_attr (with_level (self_level + 1)) child_node ;;
    t <- get_attr node_type self ;;
    kids' <- get_attr children_ids self ;;
    if NodeType_eqb t LEAF && (0 <? len kids')
    then set_attr (with_node_type BRANCH) self
    else mret tt.

(** The [DocumentTree] object; [nodes] maps identifiers to node objects
    in insertion order. *)
Record DocumentTree : Type := mkTree {
  tree_document_id : string;
  document_title : string;
  nodes : list (string * ref);
  root_node_id : option string
}.

(** [DocumentTree(document_id, document_title)] *)
Definition new_tree (document_id document_title : string) : DocumentTree :=
  mkTree document_id document_title [] None.

(** [DocumentTree.add_node] *)
Definition add_node (tree : DocumentTree) (node : ref) : M DocumentTree :=
  nid <- get_attr id node ;;
  let tree1 := mkTree (tree_document_id tree) (document_title tree)
                      (dict_set nid node (nodes tree)) (root_node_id tree) in
  root <- get_attr is_root node ;;
  if match root_node_id tree1 with None => true | Some _ => false end || root
  then
    set_attr (with_node_type ROOT) node ;;
    mret (mkTree (tree_document_id tree1) (document_title tree1)
                 (nodes tree1) (Some nid))
  else mret tree1.

(** [tree.nodes.values()], read through the heap. *)
Definition tree_values (h : list DocumentNode) (tree : DocumentTree) : list DocumentNode :=
  omap (fun kv => h !! kv.2) (nodes tree).

(** [DocumentTree.get_node] *)
Definition get_node (h : list DocumentNode) (tree : DocumentTree) (node_id : string)
  : option DocumentNode :=
  r ← dict_get node_id (nodes tree); h !! r.

(** [DocumentTree.get_root_node] *)
Definition get_root_node (h : list DocumentNode) (tree : DocumentTree)
  : option DocumentNode :=
  if truthy_str (root_node_id tree)
  then rid ← root_node_id tree; get_node h tree rid
  else None.

(** ** The tree builder: [DocumentSplitter.create_leaf_nodes],
    [create_parent_nodes], [build_tree_structure] *)

(** [min(l)] and [max(l)] of a sequence of integers. *)
Definition py_min (l : list Z) : outcome Z :=
  match l with
  | [] => Raise ValueError
  | x :: l' => Ret (fold_left Z.min l' x)
  end.

Definition py_max (l : list Z) : outcome Z :=
  match l with
  | [] => Raise ValueError
  | x :: l' => Ret (fold_left Z.max l' x)
  end.

(** [range(start, stop, step)] *)
Definition py_range (start stop step : Z) : outcome (list Z) :=
  if step =? 0 then Raise ValueError
  else
    let n := if 0 <? step
             then (stop - start + step - 1) / step
             else (start - stop - step - 1) / (- step) in
    Ret (map (fun k => start + Z.of_nat k * step) (seq 0 (Z.to_nat n))).

(** [x for x in l if x]: the truthy optional integers of [l]. *)
Definition truthy_ints (l : list (option Z)) : list Z :=
  omap (fun o => if truthy_int o then o else None) l.

(** [group_size = min(5, max(2, len(child_nodes) // 3))] *)
Definition group_size_of (n : Z) : Z := Z.min 5 (Z.max 2 (n / 3)).

Section Builder.

(** The identifiers [uuid4()] returns, in the order they are drawn. *)
Variable uuid4 : nat -> string.

(** [str(uuid4())] *)
Definition fresh_uuid : M string :=
  fun w => Ret (uuid4 (uuid_count w), mkWorld (heap w) (S (uuid_count w))).

(** [create_leaf_nodes] *)
Definition create_leaf_nodes (chunks : list Chunk) (document_id : string)
  : M (list ref) :=
  mmap (fun chunk =>
          nid <- fresh_uuid ;;
          new_node {| id := nid;
                      content := chunk_text chunk;
                      summary := EmptyString;
                      embedding := None;
                      node_type := LEAF;
                      parent_id := None;
                      children_ids := [];
                      document_id := document_id;
                      level := 1;
                      page_start := Some (chunk_page_start chunk);
                      page_end := Some (chunk_page_end chunk);
                      metadata := [("char_count", MInt (chunk_char_count chunk));
                                   ("page_count", MInt (chunk_page_count chunk))] |})
       chunks.

(** The body of the [for i in range(...)] loop of [create_parent_nodes]:
    one parent for [group = child_nodes[i:i + group_size]]. *)
Definition create_parent_node (group : list ref) (document_id : string)
    (level : Z) : M ref :=
  nid <- fresh_uuid ;;
  starts <- mmap (get_attr page_start) group ;;
  pstart <- lift (py_min (truthy_ints starts)) ;;
  ends <- mmap (get_attr page_end) group ;;
  pend <- lift (py_max (truthy_ints ends)) ;;
  metas <- mmap (get_attr metadata) group ;;
  let total_pages :=
    fold_left Z.add
      (map (fun m => match dict_get "page_count" m with
                     | Some v => meta_to_int v
                     | None => 1
                     end) metas) 0 in
  parent_node <- new_node {| id := nid;
                             content := EmptyString;
                             summary := EmptyString;
                             embedding := None;
                             node_type := BRANCH;
                             parent_id := None;
                             children_ids := [];
                             document_id := document_id;
                             level := level;
                             page_start := Some pstart;
                             page_end := Some pend;
                             metadata := [("child_count", MInt (len group));
                                          ("total_pages", MInt total_pages)] |} ;;
  mmap (add_child parent_node) group ;;
  mret parent_node.

(** [create_parent_nodes] *)
Definition create_parent_nodes (child_nodes : list ref) (document_id : string)
    (level : Z) : M (list ref) :=
  if len child_nodes <=? 1 then mret child_nodes
  else
    let group_size := group_size_of (len child_nodes) in
    starts <- lift (py_range 0 (len child_nodes) group_size) ;;
    mmap (fun i => create_parent_node (py_slice child_nodes i (i + group_size))
                                      document_id level)
         starts.

(** The [while len(current_level_nodes) > 1] loop of
    [build_tree_structure]; one unit of fuel per iteration. *)
Fixpoint build_loop (fuel : nat) (document_id : string) (tree : DocumentTree)
    (current_level_nodes : list ref) (current_level : Z)
  : M (DocumentTree * list ref) :=
  if 1 <? len current_level_nodes then
    match fuel with
    | O => fun _ => OutOfFuel
    | S fuel' =>
        parent_nodes <- create_parent_nodes current_level_nodes document_id current_level ;;
        tree' <- mfold add_node tree parent_nodes ;;
        build_loop fuel' document_id tree' parent_nodes (current_level + 1)
    end
  else mret (tree, current_level_nodes).

(** [tree.root_node_id = root_node.id] *)
Definition set_root (tree : DocumentTree) (rid : string) : DocumentTree :=
  mkTree (tree_document_id tree) (document_title tree) (nodes tree) (Some rid).

(** [build_tree_structure].  The grouping loop gets one unit of fuel per
    leaf; every iteration leaves fewer nodes than it found, so this is
    never exhausted ([build_tree_structure_fuel] below). *)
Definition build_tree_structure (leaf_nodes : list ref) (document_id : string)
  : M DocumentTree :=
  match leaf_nodes with
  | [] => mret (new_tree document_id EmptyString)
  | _ =>
      tree <- mfold add_node (new_tree document_id EmptyString) leaf_nodes ;;
      grouped <- build_loop (length leaf_nodes) document_id tree leaf_nodes 1 ;;
      let tree := grouped.1 in
      let current_level_nodes := grouped.2 in
      if len current_level_nodes =? 1 then
        root_node <- lift (py_first current_level_nodes) ;;
        set_attr (with_node_type ROOT) root_node ;;
        set_attr (with_level 0) root_node ;;
        rid <- get_attr id root_node ;;
        mret (set_root tree rid)
      else
        nid <- fresh_uuid ;;
        starts <- mmap (get_attr page_start) current_level_nodes ;;
        pstart <- lift (py_min (truthy_ints starts)) ;;
        ends <- mmap (get_attr page_end) current_level_nodes ;;
        pend <- lift (py_max (truthy_ints ends)) ;;
        root_node <- new_node {| id := nid;
                                 content := EmptyString;
                                 summary := EmptyString;
                                 embedding := None;
                                 node_type := ROOT;
                                 parent_id := None;
                                 children_ids := [];
                                 document_id := document_id;
                                 level := 0;
                                 page_start := Some pstart;
                                 page_end := Some pend;
                                 metadata := [("child_count", MInt (len current_level_nodes));
                                              ("is_synthetic_root", MBool true)] |} ;;
        mmap (add_child root_node) current_level_nodes ;;
        tree <- add_node tree root_node ;;
        rid <- get_attr id root_node ;;
        mret (set_root tree rid)
  end.

(** [process_document] from the extracted pages on ([extract_text_from_pdf]
    reads the PDF and is not modelled). *)
Definition process_document (self : DocumentSplitter) (pages : list Page)
    (document_title : string) : M DocumentTree :=
  document_id <- fresh_uuid ;;
  match pages with
  | [] => mret (new_tree document_id document_title)
  | _ =>
      chunks <- lift (split_pages_into_chunks self pages) ;;
      leaf_nodes <- create_leaf_nodes chunks document_id ;;
      tree <- build_tree_structure leaf_nodes document_id ;;
      mret (mkTree (tree_document_id tree) document_title (nodes tree)
                   (root_node_id tree))
  end.

(** Leaves from chunks, then the tree: the two steps of
    [process_document] that follow chunking. *)
Definition build_from_chunks (chunks : list Chunk) (document_id : string)
  : M DocumentTree :=
  leaf_nodes <- create_leaf_nodes chunks document_id ;;
  build_tree_structure leaf_nodes document_id.

End Builder.

(** An empty heap. *)
Definition empty_world : world := mkWorld [] 0.

(** A concrete identifier source for examples: ["n0"], ["n1"], ... *)
Definition demo_uuid4 (n : nat) : string :=
  String.append "n" (NilZero.string_of_uint (Nat.to_uint n)).

(** What a test would print of a node. *)
Definition node_view (n : DocumentNode)
  : string * NodeType * Z * option string * list string :=
  (id n, node_type n, level n, parent_id n, children_ids n).

(** Is the node marked as a synthetic root in its metadata? *)
Definition is_synthetic_root (n : DocumentNode) : bool :=
  match dict_get "is_synthetic_root" (metadata n) with
  | Some (MBool true) => true
  | _ => false
  end.

(** *** Reasoning about heap computations

    The builder keeps every object it has created in a state where it is
    not a synthetic root and carries a truthy page range; [run_ok m w Q]
    says that [m] returns from [w], keeps that state, only allocates, and
    establishes [Q]. *)
Definition plain_node (n : DocumentNode) : Prop :=
  dict_get "is_synthetic_root" (metadata n) = None /\
  truthy_int (page_start n) = true /\
  truthy_int (page_end n) = true.

Definition plain_heap (w : world) : Prop := Forall plain_node (heap w).

Definition run_ok {A} (m : M A) (w : world) (Q : A -> world -> Prop) : Prop :=
  exists a w',
    m w = Ret (a, w') /\ plain_heap w' /\
    (length (heap w) <= length (heap w'))%nat /\ Q a w'.

(** A reference that names an object of the heap. *)
Definition live (w : world) (r : ref) : Prop := (r < length (heap w))%nat.

(** The scenario of the specification: 23 pages, [max_chunk_size = 10],
    [overlap_pages = 0]; and a smaller one with 11 pages (two chunks). *)
Definition scenario_23_pages : outcome (DocumentTree * world) :=
  process_document demo_uuid4 (mkSplitter 10 1 0) (numbered_pages 23) "doc" empty_world.

Definition scenario_11_pages : outcome (DocumentTree * world) :=
  process_document demo_uuid4 (mkSplitter 10 1 0) (numbered_pages 11) "doc" empty_world.

(** Two chunks with non-zero page numbers, for examples. *)
Definition two_chunks : list Chunk :=
  [mkChunk 1 10 "a" 1 10; mkChunk 11 11 "b" 1 1].

(** A computation that never runs out of fuel. *)
Definition fuel_free {A} (m : M A) : Prop := forall w, m w <> OutOfFuel.

(** ** In-memory lookups of [DocumentTree] *)

(** [DocumentTree.get_children] *)
Definition get_children (h : list DocumentNode) (tree : DocumentTree)
    (node_id : string) : list DocumentNode :=
  match get_node h tree node_id with
  | None => []
  | Some node => omap (get_node h tree) (children_ids node)
  end.

(** [DocumentTree.get_parent] *)
Definition get_parent (h : list DocumentNode) (tree : DocumentTree)
    (node_id : string) : option DocumentNode :=
  match get_node h tree node_id with
  | None => None
  | Some node =>
      if truthy_str (parent_id node)
      then pid ← parent_id node; get_node h tree pid
      else None
  end.

(** [DocumentTree.get_siblings] *)
Definition get_siblings (h : list DocumentNode) (tree : DocumentTree)
    (node_id : string) : list DocumentNode :=
  match get_node h tree node_id with
  | None => []
  | Some node =>
      if truthy_str (parent_id node) then
        match get_parent h tree node_id with
        | None => []
        | Some parent =>
            omap (get_node h tree)
                 (List.filter (fun child_id => negb (String.eqb child_id node_id))
                         (children_ids parent))
        end
      else []
  end.

(** ** The navigator: [tree_navigator.py] *)

(** [l.index(x)]: the first position of [x], or [ValueError]. *)
Fixpoint py_index (x : string) (l : list string) : outcome Z :=
  match l with
  | [] => Raise ValueError
  | y :: l' =>
      if String.eqb y x then Ret 0
      else obind (py_index x l') (fun i => Ret (i + 1))
  end.

(** [l[i]], negative [i] counting from the end, or [IndexError]. *)
Definition py_getitem {A} (l : list A) (i : Z) : outcome A :=
  let j := if i <? 0 then i + len l else i in
  if j <? 0 then Raise IndexError
  else match l !! Z.to_nat j with
       | Some x => Ret x
       | None => Raise IndexError
       end.

(** [try: body except ValueError: handler] *)
Definition except_ValueError {A} (body handler : outcome A) : outcome A :=
  match body with
  | Raise ValueError => handler
  | o => o
  end.

(** [str(z)] *)
Definition py_str_int (z : Z) : string := NilZero.string_of_int (Z.to_int z).

(** [DocumentNode.get_page_range] *)
Definition get_page_range (n : DocumentNode) : string :=
  match page_start n with
  | None => "N/A"
  | Some s =>
      match page_end n with
      | None => String.append "Page " (py_str_int s)
      | Some e =>
          if s =? e then String.append "Page " (py_str_int s)
          else String.append "Pages "
                 (String.append (py_str_int s) (String.append "-" (py_str_int e)))
      end
  end.

(** An entry of the breadcrumb path. *)
Record Crumb : Type := mkCrumb {
  crumb_id : string;
  crumb_summary : string;
  crumb_page_range : string;
  crumb_level : Z
}.

Section Navigator.

(** The lookup the navigator is given: [db_connector.get_node_by_id]. *)
Variable get_node_by_id : string -> option DocumentNode.

(** The parent of [node], when [node.parent_id] is truthy and resolves. *)
Definition parent_of (node : DocumentNode) : option DocumentNode :=
  if truthy_str (parent_id node)
  then pid ← parent_id node; get_node_by_id pid
  else None.

(** [navigate_to_parent] *)
Definition navigate_to_parent (node_id : string) : outcome (option DocumentNode) :=
  match get_node_by_id node_id with
  | None => Ret None
  | Some node => Ret (parent_of node)
  end.

(** [navigate_to_children] *)
Definition navigate_to_children (node_id : string) : outcome (list DocumentNode) :=
  match get_node_by_id node_id with
  | None => Ret []
  | Some node => Ret (omap get_node_by_id (children_ids node))
  end.

(** [navigate_to_next_sibling] *)
Definition navigate_to_next_sibling (node_id : string) : outcome (option DocumentNode) :=
  match get_node_by_id node_id with
  | None => Ret None
  | Some node =>
      if negb (truthy_str (parent_id node)) then Ret None
      else
        match parent_of node with
        | None => Ret None
        | Some parent =>
            except_ValueError
              (obind (py_index node_id (children_ids parent)) (fun current_index =>
               if current_index + 1 <? len (children_ids parent) then
                 obind (py_getitem (children_ids parent) (current_index + 1))
                       (fun next_sibling_id => Ret (get_node_by_id next_sibling_id))
               else Ret None))
              (Ret None)
        end
  end.

(** [navigate_to_previous_sibling] *)
Definition navigate_to_previous_sibling (node_id : string)
  : outcome (option DocumentNode) :=
  match get_node_by_id node_id with
  | None => Ret None
  | Some node =>
      if negb (truthy_str (parent_id node)) then Ret None
      else
        match parent_of node with
        | None => Ret None
        | Some parent =>
            except_ValueError
              (obind (py_index node_id (children_ids parent)) (fun current_index =>
               if 0 <? current_index then
                 obind (py_getitem (children_ids parent) (current_index - 1))
                       (fun prev_sibling_id => Ret (get_node_by_id prev_sibling_id))
               else Ret None))
              (Ret None)
        end
  end.

(** The [while current_node:] loop of [get_breadcrumb_path]; [path] is
    built by [append]. *)
Fixpoint breadcrumb_loop (fuel : nat) (current_node : option DocumentNode)
    (path : list Crumb) : outcome (list Crumb) :=
  match current_node with
  | None => Ret path
  | Some node =>
      match fuel with
      | O => OutOfFuel
      | S fuel' =>
          let path' :=
            path ++ [mkCrumb (id node)
                             (if String.eqb (summary node) EmptyString then "Section"
                              else summary node)
                             (get_page_range node) (level node)] in
          if truthy_str (parent_id node)
          then breadcrumb_loop fuel' (parent_of node) path'
          else Ret path'
      end
  end.

(** [get_breadcrumb_path] *)
Definition get_breadcrumb_path (fuel : nat) (node_id : string) : outcome (list Crumb) :=
  obind (breadcrumb_loop fuel (get_node_by_id node_id) []) (fun path => Ret (rev path)).

(** [_find_first_leaf_in_subtree]; one unit of fuel per call. *)
Fixpoint _find_first_leaf_in_subtree (fuel : nat) (node : DocumentNode)
  : outcome (option DocumentNode) :=
  match fuel with
  | O => OutOfFuel
  | S fuel' =>
      if is_leaf node then Ret (Some node)
      else
        match children_ids node with
        | [] => Ret None
        | _ :: _ =>
            obind (py_getitem (children_ids node) 0) (fun first_id =>
            match get_node_by_id first_id with
            | Some first_child => _find_first_leaf_in_subtree fuel' first_child
            | None => Ret None
            end)
        end
  end.

(** [_find_last_leaf_in_subtree]; one unit of fuel per call. *)
Fixpoint _find_last_leaf_in_subtree (fuel : nat) (node : DocumentNode)
  : outcome (option DocumentNode) :=
  match fuel with
  | O => OutOfFuel
  | S fuel' =>
      if is_leaf node then Ret (Some node)
      else
        match children_ids node with
        | [] => Ret None
        | _ :: _ =>
            obind (py_getitem (children_ids node) (-1)) (fun last_id =>
            match get_node_by_id last_id with
            | Some last_child => _find_last_leaf_in_subtree fuel' last_child
            | None => Ret None
            end)
        end
  end.

(** The [while current_node:] loop of [find_next_leaf_node]. *)
Fixpoint next_leaf_loop (fuel : nat) (current_node : option DocumentNode)
  : outcome (option DocumentNode) :=
  match current_node with
  | None => Ret None
  | Some current =>
      match fuel with
      | O => OutOfFuel
      | S fuel' =>
          obind (navigate_to_next_sibling (id current)) (fun next_sibling =>
          match next_sibling with
          | Some sibling => _find_first_leaf_in_subtree fuel' sibling
          | None =>
              obind (navigate_to_parent (id current)) (fun parent =>
              next_leaf_loop fuel' parent)
          end)
      end
  end.

(** [find_next_leaf_node] *)
Definition find_next_leaf_node (fuel : nat) (node_id : string)
  : outcome (option DocumentNode) :=
  match get_node_by_id node_id with
  | None => Ret None
  | Some node =>
      let climb := next_leaf_loop fuel (Some node) in
      match children_ids node with
      | [] => climb
      | _ :: _ =>
          obind (py_getitem (children_ids node) 0) (fun first_id =>
          match get_node_by_id first_id with
          | Some first_child => _find_first_leaf_in_subtree fuel first_child
          | None => climb
          end)
      end
  end.

(** [find_previous_leaf_node] *)
Definition find_previous_leaf_node (fuel : nat) (node_id : string)
  : outcome (option DocumentNode) :=
  match get_node_by_id node_id with
  | None => Ret None
  | Some node =>
      obind (navigate_to_previous_sibling node_id) (fun prev_sibling =>
      match prev_sibling with
      | Some sibling => _find_last_leaf_in_subtree fuel sibling
      | None =>
          obind (navigate_to_parent node_id) (fun parent =>
          match parent with
          | Some p => if is_leaf p then Ret (Some p) else Ret None
          | None => Ret None
          end)
      end)
  end.

(** The mirror of [find_next_leaf_node]'s climb, as the specification
    words it: walk up through the ancestors to the first ancestor-or-self
    with a previous sibling, and return the last leaf of that sibling's
    subtree. *)
Fixpoint previous_leaf_climb (fuel : nat) (current_node : option DocumentNode)
  : outcome (option DocumentNode) :=
  match current_node with
  | None => Ret None
  | Some current =>
      match fuel with
      | O => OutOfFuel
      | S fuel' =>
          obind (navigate_to_previous_sibling (id current)) (fun prev_sibling =>
          match prev_sibling with
          | Some sibling => _find_last_leaf_in_subtree fuel' sibling
          | None =>
              obind (navigate_to_parent (id current)) (fun parent =>
              previous_leaf_climb fuel' parent)
          end)
      end
  end.

Definition previous_leaf_mirror (fuel : nat) (node_id : string)
  : outcome (option DocumentNode) :=
  previous_leaf_climb fuel (get_node_by_id node_id).

End Navigator.

(** A stored document for examples: root [R] over [A] and [B]; [A] over
    the leaves [a1], [a2]; [B] over the leaves [b1], [b2]. *)
Definition demo_node (nid : string) (t : NodeType) (parent : option string)
    (kids : list string) (lvl : Z) : string * DocumentNode :=
  (nid, mkNode nid EmptyString EmptyString None t parent kids "doc" lvl (Some 1) (Some 4) []).

Definition demo_store : list (string * DocumentNode) :=
  [demo_node "R" ROOT None ["A"; "B"] 0;
   demo_node "A" BRANCH (Some "R") ["a1"; "a2"] 1;
   demo_node "B" BRANCH (Some "R") ["b1"; "b2"] 1;
   demo_node "a1" LEAF (Some "A") [] 2;
   demo_node "a2" LEAF (Some "A") [] 2;
   demo_node "b1" LEAF (Some "B") [] 2;
   demo_node "b2" LEAF (Some "B") [] 2].

Definition demo_db (node_id : string) : option DocumentNode :=
  dict_get node_id demo_store.

(** The identifier of the node an operation returned, if any. *)
Definition found_id (o : outcome (option DocumentNode)) : outcome (option string) :=
  obind o (fun r => Ret (id <$> r)).

(** ** Similarity and ranking: [embeddings.py] *)

(** What [compute_similarity] uses of numpy.  The order in which [np.dot]
    and [np.linalg.norm] accumulate is the library's own, and whether a
    floating-point division faults depends on numpy's error mode, so these
    operations are an interface; the interface fixes what is documented:
    [np.dot] of two one-dimensional arrays is defined exactly when their
    lengths agree and raises [ValueError] otherwise. *)
Class Numpy : Type := mkNumpy {
  np_dot : list float -> list float -> outcome float;
  np_norm : list float -> float;
  np_divide : float -> float -> outcome float;
  np_dot_shapes : forall a b, length a <> length b -> np_dot a b = Raise ValueError;
  np_dot_aligned : forall a b, length a = length b -> exists d, np_dot a b = Ret d
}.

(** The same numpy with another division. *)
Definition with_divide (np : Numpy) (divide : float -> float -> outcome float) : Numpy :=
  mkNumpy (@np_dot np) (@np_norm np) divide (@np_dot_shapes np) (@np_dot_aligned np).

(** [compute_similarity] *)
Definition compute_similarity {np : Numpy} (embedding1 embedding2 : option (list float))
  : outcome float :=
  if negb (truthy_list embedding1) || negb (truthy_list embedding2) then Ret 0%float
  else
    match embedding1, embedding2 with
    | Some vec1, Some vec2 =>
        obind (np_dot vec1 vec2) (fun dot_product =>
        let norm1 := np_norm vec1 in
        let norm2 := np_norm vec2 in
        if PrimFloat.eqb norm1 0 || PrimFloat.eqb norm2 0 then Ret 0%float
        else np_divide dot_product (PrimFloat.mul norm1 norm2))
    | _, _ => Ret 0%float
    end.

(** The [for node in tree.nodes.values()] loop of [find_similar_nodes]:
    the scored candidates, in enumeration order. *)
Fixpoint score_nodes {np : Numpy} (query_embedding : option (list float))
    (threshold : float) (values : list DocumentNode)
    (similarities : list (DocumentNode * float))
  : outcome (list (DocumentNode * float)) :=
  match values with
  | [] => Ret similarities
  | node :: rest =>
      if truthy_list (embedding node) then
        obind (compute_similarity query_embedding (embedding node)) (fun similarity =>
        if PrimFloat.leb threshold similarity
        then score_nodes query_embedding threshold rest (similarities ++ [(node, similarity)])
        else score_nodes query_embedding threshold rest similarities)
      else score_nodes query_embedding threshold rest similarities
  end.

(** A stable ascending sort by [lt]: an element is put in front of the
    first one that is not smaller than it. *)
Fixpoint insert_by {A} (lt : A -> A -> bool) (x : A) (l : list A) : list A :=
  match l with
  | [] => [x]
  | y :: l' => if lt y x then y :: insert_by lt x l' else x :: y :: l'
  end.

Fixpoint sort_stable {A} (lt : A -> A -> bool) (l : list A) : list A :=
  match l with
  | [] => []
  | x :: l' => insert_by lt x (sort_stable lt l')
  end.

(** [l.sort(key=key, reverse=True)] for float keys: CPython reverses the
    list, sorts it stably in ascending order comparing keys with [<], and
    reverses the result.  On keys that [<] orders totally (no NaN) every
    stable sort gives the same list. *)
Definition py_sort_reverse {A} (key : A -> float) (l : list A) : list A :=
  rev (sort_stable (fun a b => PrimFloat.ltb (key a) (key b)) (rev l)).

(** [find_similar_nodes] *)
Definition find_similar_nodes {np : Numpy} (h : list DocumentNode)
    (query_embedding : option (list float)) (tree : DocumentTree)
    (top_k : Z) (threshold : float) : outcome (list (DocumentNode * float)) :=
  if negb (truthy_list query_embedding) then Ret []
  else
    obind (score_nodes query_embedding threshold (tree_values h tree) [])
          (fun similarities =>
             Ret (py_slice (py_sort_reverse snd similarities) 0 top_k)).

(** What the scoring loop appends: the nodes with a truthy embedding
    whose similarity is at least the threshold. *)
Definition scored {np : Numpy} (query : option (list float)) (threshold : float)
    (values : list DocumentNode) (p : DocumentNode * float) : Prop :=
  PrimFloat.leb threshold p.2 = true /\
  p.1 ∈ values /\
  truthy_list (embedding p.1) = true /\
  compute_similarity query (embedding p.1) = Ret p.2.

(** When is a pair of embeddings degenerate: one is absent or empty, or
    both have the same dimension and one has a computed norm of zero. *)
Definition degenerate {np : Numpy} (embedding1 embedding2 : option (list float)) : Prop :=
  truthy_list embedding1 = false \/
  truthy_list embedding2 = false \/
  exists vec1 vec2,
    embedding1 = Some vec1 /\ embedding2 = Some vec2 /\
    length vec1 = length vec2 /\
    (PrimFloat.eqb (np_norm vec1) 0 = true \/ PrimFloat.eqb (np_norm vec2) 0 = true).

(** *** A concrete numpy for examples: left-to-right accumulation, and a
    division that does not fault (numpy's default error mode). *)
Definition dot_acc (a b : list float) : float :=
  fold_left (fun acc xy => PrimFloat.add acc (PrimFloat.mul xy.1 xy.2)) (combine a b) 0%float.

Definition demo_dot (a b : list float) : outcome float :=
  if Nat.eqb (length a) (length b) then Ret (dot_acc a b) else Raise ValueError.

Definition demo_norm (a : list float) : float := PrimFloat.sqrt (dot_acc a a).

(** The concrete numpy: the two laws of the interface hold of [demo_dot]. *)
Definition demo_numpy : Numpy.
Proof.
  refine (mkNumpy demo_dot demo_norm (fun x y => Ret (PrimFloat.div x y)) _ _).
  - intros a b Hne. unfold demo_dot.
    destruct (Nat.eqb_spec (length a) (length b)); [contradiction|reflexivity].
  - intros a b He. unfold demo_dot. rewrite He, Nat.eqb_refl. eauto.
Defined.

(** A division that faults on every call, to observe whether it is called. *)
Definition faulting_divide (x y : float) : outcome float := Raise ZeroDivisionError.

(** Nodes with embeddings for examples: [e1] and [e3] point the same way
    as the query [[1; 0]], [e2] has similarity 0.6, [e4] has no
    embedding. *)
Definition embedded_node (nid : string) (e : option (list float)) : DocumentNode :=
  mkNode nid EmptyString EmptyString e LEAF None [] "doc" 1 (Some 1) (Some 1) [].

Definition demo_heap : list DocumentNode :=
  [embedded_node "e1" (Some [1%float; 0%float]);
   embedded_node "e2" (Some [3%float; 4%float]);
   embedded_node "e3" (Some [2%float; 0%float]);
   embedded_node "e4" None].

Definition demo_tree : DocumentTree :=
  mkTree "doc" EmptyString [("e1", 0%nat); ("e2", 1%nat); ("e3", 2%nat); ("e4", 3%nat)] (Some "e1").

(** Identifiers and scores of a ranking. *)
Definition ranking_view (o : outcome (list (DocumentNode * float)))
  : outcome (list (string * float)) :=
  obind o (fun l => Ret (map (fun p => (id p.1, p.2)) l)).

From Stdlib Require DecimalNat DecimalFacts.

(** ** Further definitions

    *** Effects of [add_child] and [add_node], for stating what they do *)

(** The parent after it has adopted a child with identifier [cid]: the
    identifier is appended, and a LEAF becomes a BRANCH. *)
Definition with_child (cid : string) (n : DocumentNode) : DocumentNode :=
  let n' := with_children_ids (children_ids n ++ [cid]) n in
  if NodeType_eqb (node_type n) LEAF then with_node_type BRANCH n' else n'.

(** The child after [pn] has adopted it. *)
Definition adopted_by (pn cn : DocumentNode) : DocumentNode :=
  with_level (level pn + 1) (with_parent_id (Some (id pn)) cn).

(** Does [add_node] make the node the root: the tree has no root yet, or
    the node has no parent. *)
Definition becomes_root (tree : DocumentTree) (n : DocumentNode) : bool :=
  match root_node_id tree with None => true | Some _ => false end || is_root n.

(** *** The remaining lookups of [DocumentTree] *)

(** [DocumentTree.get_leaf_nodes] *)
Definition get_leaf_nodes (h : list DocumentNode) (tree : DocumentTree)
  : list DocumentNode :=
  List.filter is_leaf (tree_values h tree).

(** The [while current_node:] loop of [DocumentTree.get_path_to_root];
    one unit of fuel per iteration. *)
Fixpoint path_loop (h : list DocumentNode) (tree : DocumentTree) (fuel : nat)
    (current_node : option DocumentNode) (path : list DocumentNode)
  : outcome (list DocumentNode) :=
  match current_node with
  | None => Ret path
  | Some node =>
      match fuel with
      | O => OutOfFuel
      | S fuel' =>
          let path' := path ++ [node] in
          if truthy_str (parent_id node)
          then path_loop h tree fuel' (pid ← parent_id node; get_node h tree pid) path'
          else Ret path'
      end
  end.

(** [DocumentTree.get_path_to_root] *)
Definition get_path_to_root (h : list DocumentNode) (tree : DocumentTree)
    (fuel : nat) (node_id : string) : outcome (list DocumentNode) :=
  path_loop h tree fuel (get_node h tree node_id) [].

(** [DocumentTree.get_next_sibling] *)
Definition get_next_sibling (h : list DocumentNode) (tree : DocumentTree)
    (node_id : string) : outcome (option DocumentNode) :=
  match get_node h tree node_id with
  | None => Ret None
  | Some node =>
      if negb (truthy_str (parent_id node)) then Ret None
      else
        match get_parent h tree node_id with
        | None => Ret None
        | Some parent =>
            except_ValueError
              (obind (py_index node_id (children_ids parent)) (fun current_index =>
               if current_index + 1 <? len (children_ids parent) then
                 obind (py_getitem (children_ids parent) (current_index + 1))
                       (fun next_sibling_id => Ret (get_node h tree next_sibling_id))
               else Ret None))
              (Ret None)
        end
  end.

(** [DocumentTree.get_previous_sibling] *)
Definition get_previous_sibling (h : list DocumentNode) (tree : DocumentTree)
    (node_id : string) : outcome (option DocumentNode) :=
  match get_node h tree node_id with
  | None => Ret None
  | Some node =>
      if negb (truthy_str (parent_id node)) then Ret None
      else
        match get_parent h tree node_id with
        | None => Ret None
        | Some parent =>
            except_ValueError
              (obind (py_index node_id (children_ids parent)) (fun current_index =>
               if 0 <? current_index then
                 obind (py_getitem (children_ids parent) (current_index - 1))
                       (fun prev_sibling_id => Ret (get_node h tree prev_sibling_id))
               else Ret None))
              (Ret None)
        end
  end.

(** The dictionary [DocumentTree.get_tree_stats] returns. *)
Record TreeStats : Type := mkTreeStats {
  total_nodes : Z;
  leaf_nodes : Z;
  max_depth : Z;
  stats_document_id : string;
  stats_document_title : string
}.

(** [max(l, default=0)] *)
Definition py_max_default0 (l : list Z) : Z :=
  match l with
  | [] => 0
  | x :: l' => fold_left Z.max l' x
  end.

(** [DocumentTree.get_tree_stats] *)
Definition get_tree_stats (h : list DocumentNode) (tree : DocumentTree) : TreeStats :=
  let leaf_nodes := get_leaf_nodes h tree in
  let max_level := py_max_default0 (map level (tree_values h tree)) in
  mkTreeStats (len (nodes tree)) (len leaf_nodes) max_level
              (tree_document_id tree) (document_title tree).

(** *** Stores and breadcrumbs *)

(** The breadcrumb entry [get_breadcrumb_path] appends for a node. *)
Definition crumb_of (node : DocumentNode) : Crumb :=
  mkCrumb (id node)
          (if String.eqb (summary node) EmptyString then "Section" else summary node)
          (get_page_range node) (level node).

(** A store is keyed by identifier when every node is served under its
    own [id]. *)
Definition keyed_by_id (get_node_by_id : string -> option DocumentNode) : Prop :=
  forall k n, get_node_by_id k = Some n -> id n = k.

(** A store is consistent when it is keyed by identifier, no node lists a
    child twice, and every listed child that the store serves names the
    listing node as its parent. *)
Definition consistent_store (get_node_by_id : string -> option DocumentNode) : Prop :=
  keyed_by_id get_node_by_id /\
  forall k n, get_node_by_id k = Some n ->
    NoDup (children_ids n) /\
    forall cid c, cid ∈ children_ids n -> get_node_by_id cid = Some c ->
                  parent_id c = Some k.

(** The same, decided for a store given as a table of entries. *)
Definition consistent_entry (store : list (string * DocumentNode))
    (kv : string * DocumentNode) : bool :=
  String.eqb (id kv.2) kv.1
  && bool_decide (NoDup (children_ids kv.2))
  && forallb (fun cid =>
                match dict_get cid store with
                | Some c => bool_decide (parent_id c = Some kv.1)
                | None => true
                end)
             (children_ids kv.2).

Definition consistent_table (store : list (string * DocumentNode)) : bool :=
  forallb (consistent_entry store) store.

(** The stored example document as a tree over a heap: object [i] is the
    [i]-th entry of [demo_store]. *)
Definition demo_store_heap : list DocumentNode := map snd demo_store.

Definition demo_store_tree : DocumentTree :=
  mkTree "doc" EmptyString (imap (fun i kv => (kv.1, i)) demo_store) (Some "R").

(** Is every entry of the tree's dictionary filed under its node's
    identifier? *)
Definition keyed_tree (h : list DocumentNode) (tree : DocumentTree) : bool :=
  forallb (fun kv => match h !! kv.2 with
                     | Some n => String.eqb (id n) kv.1
                     | None => true
                     end)
          (nodes tree).

(** A store with a parent cycle: the only node, ["x"], names itself as
    its parent. *)
Definition cyclic_db (node_id : string) : option DocumentNode :=
  dict_get node_id [demo_node "x" BRANCH (Some "x") ["x"] 1].

(** *** Related sections and previews: [semantic_search.py] *)

(** Exceptions of the search module: those of the similarity code, and
    [OverflowError], raised when an integer too large for a float is
    converted to one. *)
Inductive search_exn : Type :=
| FromSimilarity (e : exn)
| OverflowError.

Inductive search_outcome (A : Type) : Type :=
| SRet (a : A)
| SRaise (e : search_exn)
| SOutOfFuel.
Arguments SRet {A} a.
Arguments SRaise {A} e.
Arguments SOutOfFuel {A}.

Definition sbind {A B} (m : search_outcome A) (k : A -> search_outcome B)
  : search_outcome B :=
  match m with
  | SRet a => k a
  | SRaise e => SRaise e
  | SOutOfFuel => SOutOfFuel
  end.

Definition of_outcome {A} (o : outcome A) : search_outcome A :=
  match o with
  | Ret a => SRet a
  | Raise e => SRaise (FromSimilarity e)
  | OutOfFuel => SOutOfFuel
  end.

(** [float(z)]: the nearest binary64 value, ties to even;
    [OverflowError] when that is beyond the largest finite one. *)
Definition float_of_int (z : Z) : search_outcome float :=
  match binary_normalize 53 1024 z 0 false with
  | S754_infinity _ => SRaise OverflowError
  | f => SRet (SF2Prim f)
  end.

(** [i > f] for an integer [i] and a float [f]: Python compares the two
    exactly, without rounding the integer. *)
Definition int_gt_float (i : Z) (f : float) : bool :=
  match Prim2SF f with
  | S754_zero _ => 0 <? i
  | S754_infinity s => s
  | S754_nan => false
  | S754_finite s m e =>
      let v := if s then Z.neg m else Z.pos m in
      if 0 <=? e then v * 2 ^ e <? i else v <? i * 2 ^ (- e)
  end.

(** The float literal [0.8]: the binary64 value nearest to 0.8. *)
Definition point_eight : float := 0x1.999999999999ap-1%float.

(** [s.rfind(c)] on the characters of [s]: the index of the last
    occurrence of [c], or [-1]. *)
Fixpoint rfind_from (c : ascii) (s : list ascii) (i last_seen : Z) : Z :=
  match s with
  | [] => last_seen
  | x :: s' => rfind_from c s' (i + 1) (if Ascii.eqb x c then i else last_seen)
  end.

Definition rfind (c : ascii) (s : list ascii) : Z := rfind_from c s 0 (-1).

(** [node.summary if node.summary else node.content] *)
Definition preview_text (node : DocumentNode) : string :=
  if negb (String.eqb (summary node) EmptyString) then summary node else content node.

(** [SemanticSearchEngine._generate_preview] *)
Definition _generate_preview (node : DocumentNode) (max_length : Z)
  : search_outcome string :=
  let text := preview_text node in
  let chars := list_ascii_of_string text in
  if len chars <=? max_length then SRet text
  else
    let truncated := py_slice chars 0 max_length in
    let last_space := rfind " "%char truncated in
    sbind (float_of_int max_length) (fun max_length_f =>
    if int_gt_float last_space (PrimFloat.mul max_length_f point_eight)
    then SRet (String.append (string_of_list_ascii (py_slice truncated 0 last_space)) "...")
    else SRet (String.append (string_of_list_ascii truncated) "..."))%string.

(** An entry of the result lists of the search engine. *)
Record SearchResult : Type := mkSearchResult {
  result_node : DocumentNode;
  result_similarity : float;
  result_page_range : string;
  result_preview : string
}.

(** The [for similar_node, similarity in similar_nodes] loop of
    [find_related_sections]; the preview uses the default
    [max_length = 200]. *)
Fixpoint format_related (node : DocumentNode)
    (similar_nodes : list (DocumentNode * float))
    (related_sections : list SearchResult) : search_outcome (list SearchResult) :=
  match similar_nodes with
  | [] => SRet related_sections
  | (similar_node, similarity) :: rest =>
      if negb (String.eqb (id similar_node) (id node)) then
        sbind (_generate_preview similar_node 200) (fun preview =>
        format_related node rest
          (related_sections ++
             [mkSearchResult similar_node similarity
                             (get_page_range similar_node) preview]))
      else format_related node rest related_sections
  end.

(** [SemanticSearchEngine.find_related_sections] *)
Definition find_related_sections {np : Numpy} (h : list DocumentNode)
    (node : DocumentNode) (tree : DocumentTree) (top_k : Z)
  : search_outcome (list SearchResult) :=
  if negb (truthy_list (embedding node)) then SRet []
  else
    sbind (of_outcome (find_similar_nodes h (embedding node) tree (top_k * 2) 0.5%float))
          (fun similar_nodes =>
    sbind (format_related node similar_nodes []) (fun related_sections =>
    SRet (py_slice related_sections 0 top_k))).

(** What [find_related_sections] puts into an entry for a node other than
    the reference node. *)
Definition related_entry (node : DocumentNode) (r : SearchResult) : Prop :=
  String.eqb (id (result_node r)) (id node) = false /\
  result_page_range r = get_page_range (result_node r) /\
  _generate_preview (result_node r) 200 = SRet (result_preview r).

(** Did the computation return a value? *)
Definition returned {A} (o : outcome A) : bool :=
  match o with
  | Ret _ => true
  | _ => false
  end.

(** *** Links between the nodes of a heap *)

(** What links a node to the others: its identifier, the identifier of
    its parent and the identifiers of its children. *)
Record Link : Type := mkLink {
  lid : string;
  lparent : option string;
  lkids : list string
}.

Definition link_view (n : DocumentNode) : Link :=
  mkLink (id n) (parent_id n) (children_ids n).

Definition links (w : world) : list Link := map link_view (heap w).

(** The links are coherent, for identifiers drawn from [uuid4] with
    [count] of them drawn so far: identifiers are drawn ones and differ
    between nodes; a node with a parent is listed by a node with that
    identifier; a listed child exists and names the listing node as its
    parent; no child is listed twice. *)
Record linked (uuid4 : nat -> string) (L : list Link) (count : nat) : Prop := mkLinked {
  linked_ids : forall r l, L !! r = Some l ->
                 exists k, (k < count)%nat /\ lid l = uuid4 k;
  linked_uniq : forall r1 r2 l1 l2, L !! r1 = Some l1 -> L !! r2 = Some l2 ->
                  lid l1 = lid l2 -> r1 = r2;
  linked_up : forall r l pid, L !! r = Some l -> lparent l = Some pid ->
                exists rp lp, L !! rp = Some lp /\ lid lp = pid /\ lid l ∈ lkids lp;
  linked_down : forall rp lp cid, L !! rp = Some lp -> cid ∈ lkids lp ->
                  exists r l, L !! r = Some l /\ lid l = cid /\
                              lparent l = Some (lid lp);
  linked_nodup : forall r l, L !! r = Some l -> NoDup (lkids l)
}.

(** The node behind [r] has no parent. *)
Definition orphan (L : list Link) (r : nat) : Prop :=
  exists l, L !! r = Some l /\ lparent l = None.

(** From [L] to [L']: every node is still there under its identifier,
    and only the nodes behind [changed] may have another parent. *)
Definition keeps (changed : list nat) (L L' : list Link) : Prop :=
  forall (r : nat) (l : Link), L !! r = Some l ->
    exists l' : Link, L' !! r = Some l' /\ lid l' = lid l /\
                      (r ∉ changed -> lparent l' = lparent l).

(** The tree's dictionary files objects under their identifiers, and
    holds every object below [bound]. *)
Definition filed (tree : DocumentTree) (L : list Link) : Prop :=
  forall k r, dict_get k (nodes tree) = Some r ->
              exists l, L !! r = Some l /\ lid l = k.

Definition covered (tree : DocumentTree) (L : list Link) (bound : nat) : Prop :=
  forall r l, L !! r = Some l -> (r < bound)%nat ->
              dict_get (lid l) (nodes tree) = Some r.

(** The dictionary lists the objects in the order they were created. *)
Definition in_order (tree : DocumentTree) (bound : nat) : Prop :=
  map snd (nodes tree) = seq 0 bound.

(** Partial correctness of a heap computation: if [m] returns from a
    world satisfying [P], the result and the final world satisfy [Q]. *)
Definition hoare {A} (P : world -> Prop) (m : M A) (Q : A -> world -> Prop) : Prop :=
  forall w a w', P w -> m w = Ret (a, w') -> Q a w'.

(** Every parent and child identifier of a served node resolves. *)
Definition closed_store (get_node_by_id : string -> option DocumentNode) : Prop :=
  forall k n, get_node_by_id k = Some n ->
    (forall pid, parent_id n = Some pid ->
                 exists p, get_node_by_id pid = Some p /\ k ∈ children_ids p) /\
    (forall cid, cid ∈ children_ids n -> exists c, get_node_by_id cid = Some c).

(** What a leaf carries of its chunk, and what a chunk gives to its
    leaf. *)
Definition chunk_view (n : DocumentNode) : string * option Z * option Z :=
  (content n, page_start n, page_end n).

Definition chunk_payload (c : Chunk) : string * option Z * option Z :=
  (chunk_text c, Some (chunk_page_start c), Some (chunk_page_end c)).

(** The first objects of the heap are childless and carry [V], one
    after the other; every later object has children. *)
Definition leaves_first (V : list (string * option Z * option Z)) (w : world) : Prop :=
  map chunk_view (take (length V) (heap w)) = V /\
  (length V <= length (heap w))%nat /\
  forall r n, heap w !! r = Some n ->
    ((r < length V)%nat -> children_ids n = []) /\
    ((length V <= r)%nat -> children_ids n <> []).

(** From [h] to [h'] the objects keep what they carry; those other than
    [p] keep their children, and no list of children becomes empty. *)
Definition carried (p : nat) (h h' : list DocumentNode) : Prop :=
  length h' = length h /\
  forall r n, h !! r = Some n ->
    exists n', h' !! r = Some n' /\ chunk_view n' = chunk_view n /\
               (r <> p -> children_ids n' = children_ids n) /\
               (children_ids n <> [] -> children_ids n' <> []).

(** From [h] to [h'] every object keeps its identifier, and [p] lists no
    child that it did not list before or that is not the identifier of an
    object of [group]. *)
Definition adopted_from (p : nat) (group : list nat) (h h' : list DocumentNode) : Prop :=
  length h' = length h /\
  forall r n, h !! r = Some n ->
    exists n', h' !! r = Some n' /\ id n' = id n /\
      (r = p -> forall cid, cid ∈ children_ids n' ->
                 cid ∈ children_ids n \/
                 exists rc c, rc ∈ group /\ h !! rc = Some c /\ id c = cid).

(** The page range of [p] contains the page range of [c]. *)
Definition encloses (p c : DocumentNode) : Prop :=
  exists ps pe cs ce,
    page_start p = Some ps /\ page_end p = Some pe /\
    page_start c = Some cs /\ page_end c = Some ce /\
    ps <= cs /\ ce <= pe.

(** Every object has a non-zero first and last page, and the page range
    of a node contains those of the nodes it lists as children. *)
Definition page_ranges_nest (w : world) : Prop :=
  Forall (fun n => truthy_int (page_start n) = true /\
                   truthy_int (page_end n) = true) (heap w) /\
  forall rp p rc c, heap w !! rp = Some p -> heap w !! rc = Some c ->
                    id c ∈ children_ids p -> encloses p c.

(** *** Dictionaries for storage: [to_dict] and [from_dict] *)

(** The values found in the dictionaries [to_dict] produces. *)
Inductive py_value : Type :=
| VNone
| VStr (s : string)
| VInt (z : Z)
| VFloats (l : list float)
| VStrs (l : list string)
| VMeta (m : list (string * meta_value))
| VDict (d : list (string * py_value)).

(** What loading a dictionary can raise.  Python does not check the
    types of the values it stores in a node; a dictionary whose values
    do not have the types of the dataclass fields yields a node that the
    record [DocumentNode] cannot represent, reported as [NotInModel]. *)
Inductive load_exn : Type :=
| KeyError (key : string)
| NodeTypeValueError
| NotInModel   (* model only *).

Inductive loaded (A : Type) : Type :=
| Loaded (a : A)
| LoadError (e : load_exn).
Arguments Loaded {A} a.
Arguments LoadError {A} e.

Definition lbind {A B} (m : loaded A) (k : A -> loaded B) : loaded B :=
  match m with
  | Loaded a => k a
  | LoadError e => LoadError e
  end.

(** [NodeType.value] and [NodeType(value)] *)
Definition node_type_value (t : NodeType) : string :=
  match t with
  | ROOT => "root"
  | BRANCH => "branch"
  | LEAF => "leaf"
  end.

Definition node_type_of_value (v : py_value) : loaded NodeType :=
  match v with
  | VStr s =>
      if String.eqb s "root" then Loaded ROOT
      else if String.eqb s "branch" then Loaded BRANCH
      else if String.eqb s "leaf" then Loaded LEAF
      else LoadError NodeTypeValueError
  | _ => LoadError NodeTypeValueError
  end.

(** [data[key]] *)
Definition py_item (data : list (string * py_value)) (key : string) : loaded py_value :=
  match dict_get key data with
  | Some v => Loaded v
  | None => LoadError (KeyError key)
  end.

(** [data.get(key, default)] *)
Definition py_get (data : list (string * py_value)) (key : string)
    (default : py_value) : py_value :=
  match dict_get key data with
  | Some v => v
  | None => default
  end.

(** Reading a value at the type of a field. *)
Definition as_str (v : py_value) : loaded string :=
  match v with VStr s => Loaded s | _ => LoadError NotInModel end.

Definition as_int (v : py_value) : loaded Z :=
  match v with VInt z => Loaded z | _ => LoadError NotInModel end.

Definition as_opt_str (v : py_value) : loaded (option string) :=
  match v with
  | VNone => Loaded None
  | VStr s => Loaded (Some s)
  | _ => LoadError NotInModel
  end.

Definition as_opt_int (v : py_value) : loaded (option Z) :=
  match v with
  | VNone => Loaded None
  | VInt z => Loaded (Some z)
  | _ => LoadError NotInModel
  end.

Definition as_opt_floats (v : py_value) : loaded (option (list float)) :=
  match v with
  | VNone => Loaded None
  | VFloats l => Loaded (Some l)
  | _ => LoadError NotInModel
  end.

Definition as_strs (v : py_value) : loaded (list string) :=
  match v with VStrs l => Loaded l | _ => LoadError NotInModel end.

Definition as_meta (v : py_value) : loaded (list (string * meta_value)) :=
  match v with VMeta m => Loaded m | _ => LoadError NotInModel end.

Definition of_opt_str (o : option string) : py_value :=
  match o with Some s => VStr s | None => VNone end.

Definition of_opt_int (o : option Z) : py_value :=
  match o with Some z => VInt z | None => VNone end.

Definition of_opt_floats (o : option (list float)) : py_value :=
  match o with Some l => VFloats l | None => VNone end.

(** [DocumentNode.to_dict] *)
Definition node_to_dict (self : DocumentNode) : list (string * py_value) :=
  [("id", VStr (id self));
   ("content", VStr (content self));
   ("summary", VStr (summary self));
   ("embedding", of_opt_floats (embedding self));
   ("node_type", VStr (node_type_value (node_type self)));
   ("parent_id", of_opt_str (parent_id self));
   ("children_ids", VStrs (children_ids self));
   ("document_id", VStr (document_id self));
   ("level", VInt (level self));
   ("page_start", of_opt_int (page_start self));
   ("page_end", of_opt_int (page_end self));
   ("metadata", VMeta (metadata self))].

(** [DocumentNode.from_dict]; the arguments of the constructor are
    evaluated in the order they are written. *)
Definition node_from_dict (data : list (string * py_value)) : loaded DocumentNode :=
  lbind (lbind (py_item data "id") as_str) (fun id_ =>
  lbind (lbind (py_item data "content") as_str) (fun content_ =>
  lbind (lbind (py_item data "summary") as_str) (fun summary_ =>
  lbind (as_opt_floats (py_get data "embedding" VNone)) (fun embedding_ =>
  lbind (lbind (py_item data "node_type") node_type_of_value) (fun node_type_ =>
  lbind (as_opt_str (py_get data "parent_id" VNone)) (fun parent_id_ =>
  lbind (as_strs (py_get data "children_ids" (VStrs []))) (fun children_ids_ =>
  lbind (lbind (py_item data "document_id") as_str) (fun document_id_ =>
  lbind (as_int (py_get data "level" (VInt 0))) (fun level_ =>
  lbind (as_opt_int (py_get data "page_start" VNone)) (fun page_start_ =>
  lbind (as_opt_int (py_get data "page_end" VNone)) (fun page_end_ =>
  lbind (as_meta (py_get data "metadata" (VMeta []))) (fun metadata_ =>
  Loaded (mkNode id_ content_ summary_ embedding_ node_type_ parent_id_
                 children_ids_ document_id_ level_ page_start_ page_end_
                 metadata_))))))))))))).

(** The dictionary comprehension of [DocumentTree.to_dict]: the nodes are
    read through the heap. *)
Fixpoint nodes_to_dict (h : list DocumentNode) (items : list (string * nat))
  : outcome (list (string * py_value)) :=
  match items with
  | [] => Ret []
  | (node_id, r) :: rest =>
      match h !! r with
      | Some node =>
          obind (nodes_to_dict h rest) (fun ds =>
          Ret ((node_id, VDict (node_to_dict node)) :: ds))
      | None => Raise BadReference
      end
  end.

(** [DocumentTree.to_dict] *)
Definition tree_to_dict (h : list DocumentNode) (self : DocumentTree)
  : outcome (list (string * py_value)) :=
  obind (nodes_to_dict h (nodes self)) (fun node_dicts =>
  Ret [("document_id", VStr (tree_document_id self));
       ("document_title", VStr (document_title self));
       ("root_node_id", of_opt_str (root_node_id self));
       ("nodes", VDict node_dicts)]).

(** The [for node_id, node_data in data.get("nodes", {}).items()] loop of
    [DocumentTree.from_dict]: each node is created and stored under its
    key. *)
Fixpoint load_nodes (items : list (string * py_value)) (tree : DocumentTree)
    (w : world) : loaded (DocumentTree * world) :=
  match items with
  | [] => Loaded (tree, w)
  | (node_id, node_data) :: rest =>
      match node_data with
      | VDict d =>
          lbind (node_from_dict d) (fun node =>
          load_nodes rest
            (mkTree (tree_document_id tree) (document_title tree)
                    (dict_set node_id (length (heap w)) (nodes tree))
                    (root_node_id tree))
            (mkWorld (heap w ++ [node]) (uuid_count w)))
      | _ => LoadError NotInModel
      end
  end.

(** [DocumentTree.from_dict] *)
Definition tree_from_dict (data : list (string * py_value)) (w : world)
  : loaded (DocumentTree * world) :=
  lbind (lbind (py_item data "document_id") as_str) (fun document_id_ =>
  lbind (as_str (py_get data "document_title" (VStr EmptyString))) (fun title_ =>
  lbind (as_opt_str (py_get data "root_node_id" VNone)) (fun root_ =>
  match py_get data "nodes" (VDict []) with
  | VDict items => load_nodes items (mkTree document_id_ title_ [] root_) w
  | _ => LoadError NotInModel
  end))).

(** Did loading succeed? *)
Definition is_loaded {A} (r : loaded A) : bool :=
  match r with
  | Loaded _ => true
  | LoadError _ => false
  end.

(** The keys [DocumentNode.from_dict] reads with [data[key]]. *)
Definition required_keys : list string :=
  ["id"; "content"; "summary"; "node_type"; "document_id"].

(** The keys it reads with [data.get]. *)
Definition optional_keys : list string :=
  ["embedding"; "parent_id"; "children_ids"; "level"; "page_start"; "page_end";
   "metadata"].

(** ** Facts about slices *)

Lemma py_slice_in_range {A} (l : list A) (lo hi : Z) :
  0 <= lo -> lo <= hi -> hi <= len l ->
  py_slice l lo hi = firstn (Z.to_nat (hi - lo)) (skipn (Z.to_nat lo) l).
Proof.
  intros Hlo Hhi Hlen. unfold py_slice, py_slice_bound.
  destruct (Z.ltb_spec lo 0); [lia|].
  destruct (Z.ltb_spec hi 0); [lia|].
  rewrite (Z.min_l lo), (Z.min_l hi) by lia. reflexivity.
Qed.

Lemma py_slice_prefix {A} (l : list A) (hi : Z) :
  0 <= hi -> py_slice l 0 hi = firstn (Z.to_nat hi) l.
Proof.
  intros Hhi. unfold py_slice, py_slice_bound.
  destruct (Z.ltb_spec hi 0); [lia|].
  destruct (Z.ltb_spec 0 0); [lia|].
  assert (Hlen : 0 <= len l) by (unfold len; lia).
  rewrite (Z.min_l 0) by assumption. rewrite Z.sub_0_r.
  change (skipn (Z.to_nat 0) l) with l.
  destruct (Z.min_spec hi (len l)) as [[_ ->]|[Hle ->]]; [reflexivity|].
  unfold len in *. rewrite Nat2Z.id.
  rewrite firstn_all. symmetry. apply firstn_all2. lia.
Qed.

Lemma window_length {A} (l : list A) (i n : nat) :
  (i + n <= length l)%nat -> length (firstn n (skipn i l)) = n.
Proof. intros H. rewrite length_firstn, length_skipn. lia. Qed.

Lemma window_head {A} (l : list A) (i n : nat) :
  (0 < n)%nat -> head (firstn n (skipn i l)) = l !! i.
Proof.
  intros Hn. rewrite head_lookup, lookup_take_lt by lia.
  rewrite lookup_drop. f_equal. lia.
Qed.

Lemma window_last {A} (l : list A) (i n : nat) :
  (0 < n)%nat -> (i + n <= length l)%nat ->
  last (firstn n (skipn i l)) = l !! (i + n - 1)%nat.
Proof.
  intros Hn Hlen. rewrite last_lookup.
  rewrite window_length by assumption.
  rewrite lookup_take_lt by lia.
  rewrite lookup_drop. f_equal. lia.
Qed.

Lemma make_chunk_window (pages : list Page) (i e : Z) :
  0 <= i -> i < e -> e <= len pages ->
  exists c, make_chunk (py_slice pages i e) = Ret c /\ chunk_covers pages c (i, e).
Proof.
  intros Hi Hie He. rewrite py_slice_in_range by lia.
  set (w := firstn _ _).
  assert (Hlen : length w = Z.to_nat (e - i))
    by (apply window_length; unfold len in He; lia).
  assert (Hh : head w = pages !! Z.to_nat i) by (apply window_head; lia).
  assert (Hl : last w = pages !! Z.to_nat (e - 1)).
  { unfold w. rewrite window_last by (unfold len in He; lia). f_equal. lia. }
  destruct (pages !! Z.to_nat i) as [p0|] eqn:E0.
  2:{ apply lookup_ge_None in E0. unfold len in He. lia. }
  destruct (pages !! Z.to_nat (e - 1)) as [pl|] eqn:El.
  2:{ apply lookup_ge_None in El. unfold len in He. lia. }
  unfold make_chunk, py_first, py_last. rewrite Hl.
  destruct w as [|x w'] eqn:Ew; [discriminate|]. simpl in Hh. inversion Hh; subst x.
  simpl. eexists. split; [reflexivity|].
  unfold chunk_covers; simpl. rewrite E0, El. simpl.
  repeat split; try reflexivity.
  - fold w. rewrite Ew. reflexivity.
  - unfold len. rewrite Hlen. lia.
Qed.

(** ** The scan of the chunker *)

Section ChunkerFacts.
Variable self : DocumentSplitter.
Variable pages : list Page.
Hypothesis Hmax : 0 < max_chunk_size self.

Let total := len pages.

Lemma chunk_end_bounds (i : Z) :
  0 <= i < total ->
  i < chunk_end_at self total i <= total.
Proof. unfold chunk_end_at. lia. Qed.

Lemma next_index_bounds (i : Z) :
  0 <= i < total ->
  i < next_index self i (chunk_end_at self total i) <= chunk_end_at self total i.
Proof.
  intros Hi. pose proof (chunk_end_bounds i Hi).
  unfold next_index. destruct (Z.ltb_spec 0 (overlap_pages self)); lia.
Qed.

Lemma split_loop_scan (fuel : nat) : forall (i : Z) (chunks : list Chunk),
  0 <= i -> total - i <= Z.of_nat fuel ->
  exists cs,
    split_loop self pages fuel i chunks = Ret (chunks ++ cs) /\
    Forall2 (chunk_covers pages) cs (scan_ranges self total fuel i).
Proof.
  induction fuel as [|fuel IH]; intros i chunks Hi Hfuel.
  - exists []. simpl. fold total.
    destruct (Z.ltb_spec i total); [lia|].
    rewrite app_nil_r. split; [reflexivity|constructor].
  - cbn [split_loop scan_ranges]. fold total.
    destruct (Z.ltb_spec i total) as [Hlt|Hge].
    + pose proof (chunk_end_bounds i (conj Hi Hlt)) as Hce.
      pose proof (next_index_bounds i (conj Hi Hlt)) as Hni.
      destruct (make_chunk_window pages i (chunk_end_at self total i))
        as (c & Hc & Hcov); [lia..|].
      rewrite Hc. cbn [obind].
      destruct (IH (next_index self i (chunk_end_at self total i)) (chunks ++ [c]))
        as (cs & Hcs & Hall); [lia..|].
      exists (c :: cs). rewrite Hcs, <- app_assoc. split; [reflexivity|].
      constructor; assumption.
    + exists []. rewrite app_nil_r. split; [reflexivity|constructor].
Qed.

Lemma split_loop_fuel_enough (fuel1 : nat) : forall (fuel2 : nat) (i : Z) (chunks : list Chunk),
  0 <= i -> total - i <= Z.of_nat fuel1 -> total - i <= Z.of_nat fuel2 ->
  split_loop self pages fuel1 i chunks = split_loop self pages fuel2 i chunks.
Proof.
  induction fuel1 as [|fuel1 IH]; intros fuel2 i chunks Hi H1 H2.
  - destruct fuel2; simpl; fold total;
      destruct (Z.ltb_spec i total); try reflexivity; lia.
  - destruct fuel2 as [|fuel2].
    + simpl. fold total. destruct (Z.ltb_spec i total); try reflexivity; lia.
    + cbn [split_loop]. fold total.
      destruct (Z.ltb_spec i total) as [Hlt|Hge]; [|reflexivity].
      pose proof (next_index_bounds i (conj Hi Hlt)) as Hni.
      destruct (make_chunk _) as [c| |]; cbn [obind]; try reflexivity.
      apply IH; lia.
Qed.

(** Every visited range starts inside the document and ends at
    [min(i + max_chunk_size, total)]. *)
Lemma scan_ranges_shape (fuel : nat) : forall (i0 : Z),
  0 <= i0 ->
  Forall (fun r => i0 <= r.1 < total /\ r.2 = Z.min (r.1 + max_chunk_size self) total)
         (scan_ranges self total fuel i0).
Proof.
  induction fuel as [|fuel IH]; intros i0 Hi0; simpl.
  - destruct (i0 <? total); constructor.
  - destruct (Z.ltb_spec i0 total) as [Hlt|Hge]; [|constructor].
    pose proof (next_index_bounds i0 (conj Hi0 Hlt)) as Hni.
    constructor.
    + simpl. unfold chunk_end_at. lia.
    + eapply Forall_impl; [apply IH; lia|].
      intros [a e]; simpl. lia.
Qed.

(** Consecutive ranges: the next start is [next_index], starts strictly
    increase and ends never decrease. *)
Lemma scan_ranges_consecutive (fuel : nat) : forall (i0 : Z) (k : nat) (i e i' e' : Z),
  0 <= i0 ->
  scan_ranges self total fuel i0 !! k = Some (i, e) ->
  scan_ranges self total fuel i0 !! S k = Some (i', e') ->
  i' = next_index self i e /\ i < i' /\ e <= e'.
Proof.
  induction fuel as [|fuel IH]; intros i0 k i e i' e' Hi0; simpl.
  - destruct (i0 <? total); discriminate.
  - destruct (Z.ltb_spec i0 total) as [Hlt|Hge]; [|discriminate].
    pose proof (next_index_bounds i0 (conj Hi0 Hlt)) as Hni.
    destruct k as [|k]; simpl.
    + intros [= <- <-] Hnext.
      destruct fuel as [|fuel]; simpl in Hnext.
      * destruct (_ <? total); discriminate.
      * destruct (Z.ltb_spec (next_index self i0 (chunk_end_at self total i0)) total);
          [|discriminate].
        simpl in Hnext. injection Hnext as <- <-.
        split; [reflexivity|]. unfold chunk_end_at in *.
        lia.
    + intros Hk HSk.
      apply (IH (next_index self i0 (chunk_end_at self total i0)) k);
        [lia|assumption|assumption].
Qed.

(** With enough fuel the ranges leave no gap between [i0] and the end. *)
Lemma scan_ranges_cover (fuel : nat) : forall (i0 j : Z),
  0 <= i0 -> total - i0 <= Z.of_nat fuel ->
  i0 <= j < total ->
  exists k i e, scan_ranges self total fuel i0 !! k = Some (i, e) /\ i <= j < e.
Proof.
  induction fuel as [|fuel IH]; intros i0 j Hi0 Hfuel Hj; [lia|].
  simpl. destruct (Z.ltb_spec i0 total) as [Hlt|Hge]; [|lia].
  pose proof (next_index_bounds i0 (conj Hi0 Hlt)) as Hni.
  destruct (Z.lt_ge_cases j (chunk_end_at self total i0)) as [Hin|Hout].
  - exists 0%nat, i0, (chunk_end_at self total i0). simpl. split; [reflexivity|lia].
  - destruct (IH (next_index self i0 (chunk_end_at self total i0)) j)
      as (k & i & e & Hk & Hr); [lia..|].
    exists (S k), i, e. simpl. split; assumption.
Qed.

End ChunkerFacts.

(** C5. For a non-empty page sequence, [max_chunk_size > 0] and
    [overlap_pages >= 0], [split_pages_into_chunks] returns chunks that
    correspond one to one, in order, to index ranges [(i, e)] of the page
    list such that: the first range starts at 0; every range ends at
    [e = min(i + max_chunk_size, total)]; the next start is
    [max(i + 1, e - overlap_pages)] when [overlap_pages > 0] and [e]
    otherwise, so starts strictly increase and ends never decrease (page
    order); and every page index lies in some range (coverage). *)
Theorem chunker_covers_pages_in_order (self : DocumentSplitter) (pages : list Page) :
  pages <> [] ->
  0 < max_chunk_size self ->
  0 <= overlap_pages self ->
  exists (chunks : list Chunk) (ranges : list (Z * Z)),
    split_pages_into_chunks self pages = Ret chunks /\
    Forall2 (chunk_covers pages) chunks ranges /\
    (exists e rest, ranges = (0, e) :: rest) /\
    (forall k i e, ranges !! k = Some (i, e) ->
       0 <= i < len pages /\ e = Z.min (i + max_chunk_size self) (len pages)) /\
    (forall k i e i' e',
       ranges !! k = Some (i, e) -> ranges !! S k = Some (i', e') ->
       i' = (if 0 <? overlap_pages self
             then Z.max (i + 1) (e - overlap_pages self) else e) /\
       i < i' /\ e <= e') /\
    (forall j, 0 <= j < len pages ->
       exists k i e, ranges !! k = Some (i, e) /\ i <= j < e).
Proof.
  intros Hne Hmax Hov.
  assert (Hlen : 0 < len pages) by (destruct pages; [congruence|unfold len; simpl; lia]).
  destruct (split_loop_scan self pages Hmax (length pages) 0 [])
    as (cs & Hcs & Hall); [lia|unfold len; lia|].
  exists cs, (scan_ranges self (len pages) (length pages) 0).
  split; [|split; [exact Hall|split; [|split; [|split]]]].
  - unfold split_pages_into_chunks. destruct pages; [congruence|exact Hcs].
  - destruct (length pages) eqn:E; [unfold len in Hlen; lia|].
    simpl. destruct (Z.ltb_spec 0 (len pages)); [|lia]. eauto.
  - intros k i e Hk.
    pose proof (scan_ranges_shape self pages Hmax (length pages) 0 (Z.le_refl 0)) as HF.
    rewrite Forall_lookup in HF. apply HF in Hk. simpl in Hk. lia.
  - intros k i e i' e' Hk HSk.
    apply (scan_ranges_consecutive self pages Hmax (length pages) 0 k i e i' e'); auto. lia.
  - intros j Hj.
    apply (scan_ranges_cover self pages Hmax (length pages) 0 j); unfold len in *; lia.
Qed.

Lemma chunker_covers_pages_in_order_witness :
  exists (chunks : list Chunk) (ranges : list (Z * Z)),
    split_pages_into_chunks (mkSplitter 10 1 1) (numbered_pages 23) = Ret chunks /\
    Forall2 (chunk_covers (numbered_pages 23)) chunks ranges /\
    (exists e rest, ranges = (0, e) :: rest) /\
    (forall k i e, ranges !! k = Some (i, e) ->
       0 <= i < 23 /\ e = Z.min (i + 10) 23) /\
    (forall k i e i' e',
       ranges !! k = Some (i, e) -> ranges !! S k = Some (i', e') ->
       i' = Z.max (i + 1) (e - 1) /\ i < i' /\ e <= e') /\
    (forall j, 0 <= j < 23 ->
       exists k i e, ranges !! k = Some (i, e) /\ i <= j < e).
Proof.
  apply (chunker_covers_pages_in_order (mkSplitter 10 1 1) (numbered_pages 23)).
  - discriminate.
  - simpl. lia.
  - simpl. lia.
Defined.

(** C9. For [max_chunk_size > 0] and [overlap_pages >= 0] (also when
    [overlap_pages >= max_chunk_size]) the scan index strictly increases
    on every iteration, and the loop terminates: the call returns a chunk
    list, the same for every amount of fuel of at least one unit per
    page. *)
Theorem chunker_terminates (self : DocumentSplitter) (pages : list Page) :
  0 < max_chunk_size self ->
  0 <= overlap_pages self ->
  (forall i, 0 <= i < len pages ->
     i < next_index self i (chunk_end_at self (len pages) i)) /\
  (exists chunks,
     split_pages_into_chunks self pages = Ret chunks /\
     forall fuel, (length pages <= fuel)%nat ->
       split_loop self pages fuel 0 [] = Ret chunks).
Proof.
  intros Hmax Hov. split.
  - intros i Hi. apply (next_index_bounds self pages Hmax i Hi).
  - destruct (split_loop_scan self pages Hmax (length pages) 0 [])
      as (cs & Hcs & _); [lia|unfold len; lia|].
    exists cs. simpl in Hcs. split.
    + unfold split_pages_into_chunks. destruct pages; [|exact Hcs].
      simpl in Hcs. congruence.
    + intros fuel Hfuel. rewrite <- Hcs.
      apply (split_loop_fuel_enough self pages Hmax); unfold len; lia.
Qed.

Lemma chunker_terminates_witness :
  (forall i, 0 <= i < 4 ->
     i < next_index (mkSplitter 2 1 5) i (chunk_end_at (mkSplitter 2 1 5) 4 i)) /\
  (exists chunks,
     split_pages_into_chunks (mkSplitter 2 1 5) (numbered_pages 4) = Ret chunks /\
     forall fuel, (4 <= fuel)%nat ->
       split_loop (mkSplitter 2 1 5) (numbered_pages 4) fuel 0 [] = Ret chunks).
Proof.
  apply (chunker_terminates (mkSplitter 2 1 5) (numbered_pages 4)).
  - simpl. lia.
  - simpl. lia.
Defined.

(** C10. [min_chunk_size] has no effect: replacing it by any other value
    leaves the chunk sequence unchanged; in particular, for 11 pages with
    [max_chunk_size = 10] and no overlap the trailing chunk is a single
    page whatever [min_chunk_size] is. *)
Theorem min_chunk_size_unused (self : DocumentSplitter) (m : Z) (pages : list Page) :
  split_pages_into_chunks (mkSplitter (max_chunk_size self) m (overlap_pages self)) pages
    = split_pages_into_chunks self pages /\
  exists cs c,
    split_pages_into_chunks (mkSplitter 10 m 0) (numbered_pages 11) = Ret (cs ++ [c]) /\
    chunk_page_count c = 1.
Proof.
  assert (Hgen : forall s1 s2 ps,
             max_chunk_size s1 = max_chunk_size s2 ->
             overlap_pages s1 = overlap_pages s2 ->
             split_pages_into_chunks s1 ps = split_pages_into_chunks s2 ps).
  { intros s1 s2 ps Hm Ho. unfold split_pages_into_chunks.
    destruct ps as [|p ps]; [reflexivity|].
    generalize (length (p :: ps)) (0 : Z) (@nil Chunk).
    intros fuel. induction fuel as [|fuel IH]; intros i chunks; simpl.
    - reflexivity.
    - destruct (i <? _); [|reflexivity].
      unfold chunk_end_at, next_index. rewrite Hm, Ho.
      destruct (make_chunk _); simpl; try reflexivity. apply IH. }
  split.
  - apply Hgen; reflexivity.
  - rewrite (Hgen (mkSplitter 10 m 0) (mkSplitter 10 1 0)) by reflexivity.
    eexists [_], _. split; vm_compute; reflexivity.
Qed.

(** ** The fuel of [split_pages_into_chunks] is never exhausted

    whatever the parameters: with a positive overlap or a positive chunk
    size the index grows by at least one each time round; otherwise the
    second slice at the latest is empty and [chunk_pages[0]] raises. *)


Lemma py_slice_empty {A} (l : list A) (lo hi : Z) :
  py_slice_bound (len l) hi <= py_slice_bound (len l) lo -> py_slice l lo hi = [].
Proof.
  intros H. unfold py_slice.
  replace (Z.to_nat _) with 0%nat by lia. reflexivity.
Qed.



(** ** Rules for heap computations *)

Lemma run_ok_ret {A} (a : A) (w : world) (Q : A -> world -> Prop) :
  plain_heap w -> Q a w -> run_ok (mret a) w Q.
Proof. intros Hp HQ. exists a, w. repeat split; auto. Qed.

Lemma run_ok_seq {A B} (m : M A) (k : A -> M B) (w : world)
    (P : A -> world -> Prop) (Q : B -> world -> Prop) :
  run_ok m w P ->
  (forall a w1, plain_heap w1 -> (length (heap w) <= length (heap w1))%nat ->
                P a w1 -> run_ok (k a) w1 Q) ->
  run_ok (mbind m k) w Q.
Proof.
  intros (a & w1 & Hm & Hp & Hlen & HP) Hk.
  destruct (Hk a w1 Hp Hlen HP) as (b & w2 & Hk' & Hp2 & Hlen2 & HQ).
  exists b, w2. unfold mbind. rewrite Hm. repeat split; auto. lia.
Qed.

Lemma run_ok_weaken {A} (m : M A) (w : world) (P Q : A -> world -> Prop) :
  run_ok m w P ->
  (forall a w1, plain_heap w1 -> (length (heap w) <= length (heap w1))%nat ->
                P a w1 -> Q a w1) ->
  run_ok m w Q.
Proof.
  intros (a & w1 & Hm & Hp & Hlen & HP) HPQ.
  exists a, w1. repeat split; auto.
Qed.

Lemma run_ok_lift {A} (o : outcome A) (a : A) (w : world) (Q : A -> world -> Prop) :
  o = Ret a -> plain_heap w -> Q a w -> run_ok (lift o) w Q.
Proof. intros -> Hp HQ. exists a, w. repeat split; auto. Qed.

Lemma run_ok_get_attr {A} (f : DocumentNode -> A) (r : ref) (w : world)
    (Q : A -> world -> Prop) :
  plain_heap w -> live w r ->
  (forall n, heap w !! r = Some n -> plain_node n -> Q (f n) w) ->
  run_ok (get_attr f r) w Q.
Proof.
  intros Hp Hr HQ. destruct (lookup_lt_is_Some_2 _ _ Hr) as [n Hn].
  exists (f n), w. unfold get_attr. rewrite Hn. repeat split; auto.
  apply HQ; auto. eapply Forall_lookup_1; eauto.
Qed.

Lemma run_ok_set_attr (upd : DocumentNode -> DocumentNode) (r : ref) (w : world)
    (Q : unit -> world -> Prop) :
  plain_heap w -> live w r ->
  (forall n, plain_node n -> plain_node (upd n)) ->
  (forall n, heap w !! r = Some n ->
             plain_heap (mkWorld (<[r := upd n]> (heap w)) (uuid_count w)) ->
             Q tt (mkWorld (<[r := upd n]> (heap w)) (uuid_count w))) ->
  run_ok (set_attr upd r) w Q.
Proof.
  intros Hp Hr Hupd HQ. destruct (lookup_lt_is_Some_2 _ _ Hr) as [n Hn].
  assert (Hp' : plain_heap (mkWorld (<[r := upd n]> (heap w)) (uuid_count w))).
  { unfold plain_heap; simpl. apply Forall_insert; auto.
    apply Hupd. eapply Forall_lookup_1; eauto. }
  eexists tt, _. unfold set_attr. rewrite Hn. repeat split; auto.
  simpl. rewrite length_insert. lia.
Qed.

Lemma run_ok_new_node (n : DocumentNode) (w : world) (Q : ref -> world -> Prop) :
  plain_heap w -> plain_node n ->
  (plain_heap (mkWorld (heap w ++ [n]) (uuid_count w)) ->
   Q (length (heap w)) (mkWorld (heap w ++ [n]) (uuid_count w))) ->
  run_ok (new_node n) w Q.
Proof.
  intros Hp Hn HQ.
  assert (Hp' : plain_heap (mkWorld (heap w ++ [n]) (uuid_count w))).
  { unfold plain_heap; simpl. apply Forall_app; split; auto. }
  eexists _, _. unfold new_node. repeat split; auto.
  simpl. rewrite length_app. lia.
Qed.

Lemma run_ok_fresh_uuid (uuid4 : nat -> string) (w : world)
    (Q : string -> world -> Prop) :
  plain_heap w ->
  Q (uuid4 (uuid_count w)) (mkWorld (heap w) (S (uuid_count w))) ->
  run_ok (fresh_uuid uuid4) w Q.
Proof. intros Hp HQ. eexists _, _. unfold fresh_uuid. repeat split; auto. Qed.

(** [mmap]: every call returns and [P], which may only depend on the
    size of the heap and must survive allocation, holds of every result. *)
Lemma run_ok_mmap {A B} (f : A -> M B) (P : B -> nat -> Prop) :
  (forall y n m, P y n -> (n <= m)%nat -> P y m) ->
  forall (l : list A) (w : world),
    plain_heap w ->
    (forall x w1, x ∈ l -> plain_heap w1 ->
                  (length (heap w) <= length (heap w1))%nat ->
                  run_ok (f x) w1 (fun y w2 => P y (length (heap w2)))) ->
    run_ok (mmap f l) w
           (fun ys w' => length ys = length l /\
                         Forall (fun y => P y (length (heap w'))) ys).
Proof.
  intros Hmono l. induction l as [|x l IH]; intros w Hp Hf.
  - apply run_ok_ret; auto.
  - cbn [mmap]. eapply run_ok_seq.
    + apply Hf; [left|assumption|lia].
    + intros y w1 Hp1 Hlen1 HPy. cbv beta in HPy. eapply run_ok_seq.
      * apply IH; [assumption|].
        intros x' w2 Hin Hp2 Hlen2. apply Hf; [right; assumption|assumption|lia].
      * intros ys w2 Hp2 Hlen2 [Hlen Hall]. apply run_ok_ret; [assumption|].
        split; [simpl; lia|]. constructor; [|assumption].
        eapply Hmono; eauto.
Qed.

(** [mfold] of a step that keeps an invariant [P] of the accumulator. *)
Lemma run_ok_mfold {A S} (f : S -> A -> M S) (P : S -> Prop) :
  forall (l : list A) (s : S) (w : world),
    plain_heap w -> P s ->
    (forall s1 x w1, x ∈ l -> P s1 -> plain_heap w1 ->
                     (length (heap w) <= length (heap w1))%nat ->
                     run_ok (f s1 x) w1 (fun s2 _ => P s2)) ->
    run_ok (mfold f s l) w (fun s' _ => P s').
Proof.
  induction l as [|x l IH]; intros s w Hp Hs Hf.
  - apply run_ok_ret; auto.
  - cbn [mfold]. eapply run_ok_seq.
    + apply Hf; [left|assumption|assumption|lia].
    + intros s1 w1 Hp1 Hlen1 Hs1. apply IH; [assumption|assumption|].
      intros s2 x' w2 Hin Hs2 Hp2 Hlen2.
      apply Hf; [right; assumption|assumption|assumption|lia].
Qed.

(** Proof steps for reading and for assigning an attribute when only the
    size of the heap matters afterwards. *)
Ltac read_attr w :=
  eapply run_ok_seq;
  [ apply run_ok_get_attr with (Q := fun _ w' => w' = w);
    [ assumption | unfold live in *; lia | intros; reflexivity ]
  | let w' := fresh "w" in let E := fresh "E" in
    intros ? w' _ _ E; cbv beta in E; subst w'; cbv beta ].

Ltac write_attr w0 :=
  apply run_ok_set_attr with
    (Q := fun _ w' => length (heap w') = length (heap w0));
  [ assumption | unfold live in *; lia | intros ? Hplain; exact Hplain
  | intros ? _ _; simpl; rewrite length_insert; auto ].

(** [add_child] returns and allocates nothing. *)
Lemma add_child_ok (p c : ref) (w : world) :
  plain_heap w -> live w p -> live w c ->
  run_ok (add_child p c) w (fun _ w' => length (heap w') = length (heap w)).
Proof.
  intros Hp Hlp Hlc. unfold add_child.
  read_attr w. read_attr w.
  destruct (bool_decide _); [apply run_ok_ret; auto|].
  eapply run_ok_seq; [write_attr w|].
  intros ? w1 Hp1 _ Hl1. cbv beta in Hl1.
  read_attr w1.
  eapply run_ok_seq; [write_attr w|].
  intros ? w2 Hp2 _ Hl2. cbv beta in Hl2.
  read_attr w2.
  eapply run_ok_seq; [write_attr w|].
  intros ? w3 Hp3 _ Hl3. cbv beta in Hl3.
  read_attr w3. read_attr w3.
  destruct (_ && _); [write_attr w|apply run_ok_ret; auto].
Qed.

(** [add_node] returns and allocates nothing. *)
Lemma add_node_ok (tree : DocumentTree) (r : ref) (w : world) :
  plain_heap w -> live w r ->
  run_ok (add_node tree r) w (fun _ w' => length (heap w') = length (heap w)).
Proof.
  intros Hp Hl. unfold add_node.
  read_attr w. read_attr w.
  destruct (_ || _).
  - eapply run_ok_seq; [write_attr w|].
    intros ? w1 Hp1 _ Hl1. apply run_ok_ret; auto.
  - apply run_ok_ret; auto.
Qed.

(** ** Facts about the helpers of the builder *)

Lemma fold_min_elem (l : list Z) : forall x, fold_left Z.min l x ∈ x :: l.
Proof.
  induction l as [|y l IH]; intros x; simpl; [left|].
  specialize (IH (Z.min x y)).
  apply elem_of_cons in IH as [->|IH].
  - destruct (Z.min_spec x y) as [[_ ->]|[_ ->]]; [left|right; left].
  - right; right; assumption.
Qed.

Lemma fold_max_elem (l : list Z) : forall x, fold_left Z.max l x ∈ x :: l.
Proof.
  induction l as [|y l IH]; intros x; simpl; [left|].
  specialize (IH (Z.max x y)).
  apply elem_of_cons in IH as [->|IH].
  - destruct (Z.max_spec x y) as [[_ ->]|[_ ->]]; [right; left|left].
  - right; right; assumption.
Qed.

Lemma truthy_ints_all (l : list (option Z)) :
  Forall (fun o => truthy_int o = true) l ->
  length (truthy_ints l) = length l /\ Forall (fun z => z <> 0) (truthy_ints l).
Proof.
  induction 1 as [|o l Ho Hl [IHlen IHall]]; [split; [reflexivity|constructor]|].
  cbv beta in Ho. unfold truthy_ints in *.
  destruct o as [z|]; [|discriminate]. simpl in Ho |- *.
  destruct (Z.eqb_spec z 0); [discriminate|]. simpl.
  split; [f_equal; exact IHlen|]. constructor; assumption.
Qed.

Lemma py_min_truthy (l : list (option Z)) :
  l <> [] -> Forall (fun o => truthy_int o = true) l ->
  exists z, py_min (truthy_ints l) = Ret z /\ z <> 0.
Proof.
  intros Hne Hall. destruct (truthy_ints_all l Hall) as [Hlen Hnz].
  destruct (truthy_ints l) as [|x zs] eqn:E.
  - destruct l; [congruence|discriminate].
  - exists (fold_left Z.min zs x). split; [reflexivity|].
    rewrite Forall_forall in Hnz. apply Hnz, fold_min_elem.
Qed.

Lemma py_max_truthy (l : list (option Z)) :
  l <> [] -> Forall (fun o => truthy_int o = true) l ->
  exists z, py_max (truthy_ints l) = Ret z /\ z <> 0.
Proof.
  intros Hne Hall. destruct (truthy_ints_all l Hall) as [Hlen Hnz].
  destruct (truthy_ints l) as [|x zs] eqn:E.
  - destruct l; [congruence|discriminate].
  - exists (fold_left Z.max zs x). split; [reflexivity|].
    rewrite Forall_forall in Hnz. apply Hnz, fold_max_elem.
Qed.

Lemma py_slice_elem {A} (l : list A) (lo hi : Z) (x : A) :
  x ∈ py_slice l lo hi -> x ∈ l.
Proof.
  unfold py_slice. intros H.
  apply (subseteq_drop (Z.to_nat (py_slice_bound (len l) lo)) l).
  eapply subseteq_take. exact H.
Qed.

Lemma py_slice_group_nonempty {A} (l : list A) (i g : Z) :
  0 <= i < len l -> 0 < g -> py_slice l i (i + g) <> [].
Proof.
  intros Hi Hg Hnil. apply (f_equal length) in Hnil. revert Hnil.
  unfold py_slice, py_slice_bound.
  destruct (Z.ltb_spec i 0); [lia|]. destruct (Z.ltb_spec (i + g) 0); [lia|].
  rewrite length_take, length_drop. unfold len in *. simpl. lia.
Qed.

Lemma group_size_bounds (n : Z) : 2 <= group_size_of n <= 5.
Proof. unfold group_size_of. lia. Qed.

(** The number of groups of a level with at least two nodes: at least
    one, and fewer than the nodes grouped. *)
Lemma group_count_bounds (n g : Z) :
  2 <= n -> 2 <= g ->
  1 <= (n - 0 + g - 1) / g < n.
Proof.
  intros Hn Hg. split.
  - apply Z.div_le_lower_bound; lia.
  - apply Z.div_lt_upper_bound; nia.
Qed.

Lemma py_range_groups (n g : Z) :
  0 < g ->
  py_range 0 n g =
    Ret (map (fun k => 0 + Z.of_nat k * g) (seq 0 (Z.to_nat ((n - 0 + g - 1) / g)))).
Proof.
  intros Hg. unfold py_range.
  destruct (Z.eqb_spec g 0); [lia|].
  destruct (Z.ltb_spec 0 g); [reflexivity|lia].
Qed.

Lemma group_start_in_range (n g : Z) (k : nat) :
  0 < g -> 0 < n -> (k < Z.to_nat ((n - 0 + g - 1) / g))%nat ->
  0 <= 0 + Z.of_nat k * g < n.
Proof.
  intros Hg Hn Hk. split; [nia|].
  assert (Hq : Z.of_nat k < (n - 0 + g - 1) / g) by lia.
  assert (Hk1 : Z.of_nat k + 1 <= (n - 0 + g - 1) / g) by lia.
  pose proof (Z.mul_div_le (n - 0 + g - 1) g Hg) as Hle.
  nia.
Qed.

(** ** The builder returns, and creates plain nodes only *)

Section BuilderFacts.
Variable uuid4 : nat -> string.

Lemma read_all_ok {A} (f : DocumentNode -> A) (P : A -> Prop)
    (group : list ref) (w : world) :
  plain_heap w -> Forall (live w) group ->
  (forall n, plain_node n -> P (f n)) ->
  run_ok (mmap (get_attr f) group) w
         (fun ys w' => w' = w /\ length ys = length group /\ Forall P ys).
Proof.
  intros Hp Hlive HP. revert Hlive.
  induction group as [|r group IH]; intros Hlive.
  - apply run_ok_ret; auto.
  - inversion Hlive as [|? ? Hr Hrest]; subst. cbn [mmap].
    eapply run_ok_seq.
    { apply run_ok_get_attr with (Q := fun y w' => w' = w /\ P y); auto. }
    intros y w1 _ _ [-> Hy]. eapply run_ok_seq; [apply IH; assumption|].
    intros ys w1 _ _ (-> & Hlen & Hys). apply run_ok_ret; [assumption|].
    split; [reflexivity|]. split; [simpl; lia|constructor; assumption].
Qed.

Lemma add_children_ok (p : ref) (group : list ref) (w : world) :
  plain_heap w -> live w p -> Forall (live w) group ->
  run_ok (mmap (add_child p) group) w (fun _ _ => True).
Proof.
  intros Hp Hlp Hlive.
  eapply run_ok_weaken.
  - apply (run_ok_mmap (add_child p) (fun _ _ => True)); [auto|assumption|].
    intros x w1 Hin Hp1 Hlen1. eapply run_ok_weaken.
    + apply add_child_ok; [assumption|unfold live in *; lia|].
      rewrite Forall_forall in Hlive. specialize (Hlive x Hin).
      unfold live in *; lia.
    + auto.
  - auto.
Qed.

Lemma create_parent_node_ok (group : list ref) (doc : string) (lvl : Z) (w : world) :
  plain_heap w -> group <> [] -> Forall (live w) group ->
  run_ok (create_parent_node uuid4 group doc lvl) w (fun r w' => live w' r).
Proof.
  intros Hp Hne Hlive. unfold create_parent_node.
  eapply run_ok_seq; [apply run_ok_fresh_uuid with (Q := fun _ w' => heap w' = heap w); auto|].
  intros nid w1 Hp1 _ Hh1. cbv beta in Hh1.
  assert (Hlive1 : Forall (live w1) group)
    by (unfold live; rewrite Hh1; exact Hlive).
  eapply run_ok_seq.
  { apply (read_all_ok page_start (fun o => truthy_int o = true)); auto.
    intros n Hn. apply Hn. }
  intros starts ? _ _ (-> & Hlen & Hstarts).
  destruct (py_min_truthy starts) as (pstart & Hmin & Hps); auto.
  { destruct starts; [destruct group; [congruence|discriminate]|discriminate]. }
  eapply run_ok_seq; [eapply run_ok_lift with (Q := fun z w' => w' = w1 /\ z = pstart); eauto|].
  intros ? ? _ _ [-> ->].
  eapply run_ok_seq.
  { apply (read_all_ok page_end (fun o => truthy_int o = true)); auto.
    intros n Hn. apply Hn. }
  intros ends ? _ _ (-> & Hlen' & Hends).
  destruct (py_max_truthy ends) as (pend & Hmax & Hpe); auto.
  { destruct ends; [destruct group; [congruence|discriminate]|discriminate]. }
  eapply run_ok_seq; [eapply run_ok_lift with (Q := fun z w' => w' = w1 /\ z = pend); eauto|].
  intros ? ? _ _ [-> ->].
  eapply run_ok_seq.
  { apply (read_all_ok metadata (fun _ => True)); auto. }
  intros metas ? _ _ (-> & _ & _).
  eapply run_ok_seq.
  { apply run_ok_new_node with
      (Q := fun r w' => r = length (heap w1) /\ length (heap w') = S (length (heap w1)));
      [assumption| |].
    - repeat split; simpl.
      + destruct (Z.eqb_spec pstart 0); [contradiction|reflexivity].
      + destruct (Z.eqb_spec pend 0); [contradiction|reflexivity].
    - intros _. split; [reflexivity|]. simpl. rewrite length_app. simpl. lia. }
  intros parent w2 Hp2 _ [-> Hl2].
  eapply run_ok_seq.
  { apply add_children_ok; [assumption|unfold live; lia|].
    eapply Forall_impl; [exact Hlive1|]. unfold live. intros; lia. }
  intros _ w3 Hp3 Hlen3 _. apply run_ok_ret; [assumption|].
  unfold live. lia.
Qed.

Lemma create_parent_nodes_ok (kids : list ref) (doc : string) (lvl : Z) (w : world) :
  plain_heap w -> (2 <= length kids)%nat -> Forall (live w) kids ->
  run_ok (create_parent_nodes uuid4 kids doc lvl) w
         (fun ps w' => Forall (live w') ps /\ (1 <= length ps < length kids)%nat).
Proof.
  intros Hp Hn Hlive. unfold create_parent_nodes.
  destruct (Z.leb_spec (len kids) 1) as [Hle|_]; [unfold len in Hle; lia|].
  pose proof (group_size_bounds (len kids)) as Hg.
  assert (Hlen : 2 <= len kids) by (unfold len; lia).
  pose proof (group_count_bounds (len kids) (group_size_of (len kids)) Hlen (proj1 Hg)) as Hcnt.
  eapply run_ok_seq.
  { eapply run_ok_lift with (Q := fun l w' => w' = w /\ l = _);
      [apply py_range_groups; lia|assumption|split; reflexivity]. }
  intros ? ? _ _ [-> ->].
  eapply run_ok_weaken.
  - apply (run_ok_mmap _ (fun r n => (r < n)%nat)); [intros; lia|assumption|].
    intros i w1 Hin Hp1 Hlen1.
    apply list_elem_of_In, in_map_iff in Hin as (k & <- & Hk).
    apply in_seq in Hk.
    pose proof (group_start_in_range (len kids) (group_size_of (len kids)) k) as Hi.
    apply create_parent_node_ok; [assumption| |].
    + apply py_slice_group_nonempty; lia.
    + apply Forall_forall. intros r Hr. apply py_slice_elem in Hr.
      rewrite Forall_forall in Hlive. specialize (Hlive r Hr).
      unfold live in *. lia.
  - intros ps w1 _ _ [Hlps Hall]. split; [exact Hall|].
    rewrite Hlps, length_map, length_seq. unfold len in *. lia.
Qed.

Lemma add_nodes_ok (tree : DocumentTree) (rs : list ref) (w : world) :
  plain_heap w -> Forall (live w) rs ->
  run_ok (mfold add_node tree rs) w (fun _ _ => True).
Proof.
  intros Hp Hlive.
  apply (run_ok_mfold add_node (fun _ => True)); [assumption|exact I|].
  intros s1 x w1 Hin _ Hp1 Hlen1. eapply run_ok_weaken.
  - apply add_node_ok; [assumption|].
    rewrite Forall_forall in Hlive. specialize (Hlive x Hin). unfold live in *. lia.
  - auto.
Qed.

(** The grouping loop ends with exactly one top-level node. *)
Lemma build_loop_ok (fuel : nat) :
  forall (doc : string) (tree : DocumentTree) (cur : list ref) (lvl : Z) (w : world),
    plain_heap w -> Forall (live w) cur -> (1 <= length cur <= fuel)%nat ->
    run_ok (build_loop uuid4 fuel doc tree cur lvl) w
           (fun res w' => exists r, res.2 = [r] /\ live w' r).
Proof.
  induction fuel as [|fuel IH]; intros doc tree cur lvl w Hp Hlive Hlen; [lia|].
  cbn [build_loop].
  destruct (Z.ltb_spec 1 (len cur)) as [Hgt|Hle].
  - eapply run_ok_seq.
    { apply create_parent_nodes_ok; [assumption|unfold len in Hgt; lia|assumption]. }
    intros ps w1 Hp1 Hlen1 [Hlps Hcnt].
    eapply run_ok_seq; [apply add_nodes_ok; assumption|].
    intros tree' w2 Hp2 Hlen2 _.
    apply IH; [assumption| |lia].
    eapply Forall_impl; [exact Hlps|]. unfold live. intros; lia.
  - apply run_ok_ret; [assumption|]. simpl.
    destruct cur as [|r [|r' cur]]; simpl in *; [lia| |unfold len in Hle; simpl in Hle; lia].
    exists r. split; [reflexivity|]. inversion Hlive; assumption.
Qed.

(** [build_tree_structure] on a non-empty list of leaves takes the first
    branch of its final test: the single remaining node becomes the root. *)
Lemma build_tree_structure_ok (leaves : list ref) (doc : string) (w : world) :
  plain_heap w -> leaves <> [] -> Forall (live w) leaves ->
  run_ok (build_tree_structure uuid4 leaves doc) w
         (fun tree w' =>
            exists r n, heap w' !! r = Some n /\
                        root_node_id tree = Some (id n) /\
                        level n = 0 /\ node_type n = ROOT).
Proof.
  intros Hp Hne Hlive. unfold build_tree_structure.
  destruct leaves as [|l0 leaves'] eqn:El; [congruence|]. rewrite <- El in *.
  eapply run_ok_seq; [apply add_nodes_ok; assumption|].
  intros tree w1 Hp1 Hlen1 _.
  eapply run_ok_seq.
  { apply build_loop_ok; [assumption| |rewrite El; simpl; lia].
    eapply Forall_impl; [exact Hlive|]. unfold live. intros; lia. }
  intros [tree' cur] w2 Hp2 Hlen2 (r & Hcur & Hr). simpl in Hcur. subst cur.
  cbn [fst snd len length Z.of_nat Pos.of_succ_nat Z.eqb Pos.eqb].
  eapply run_ok_seq;
    [eapply run_ok_lift with (Q := fun x w' => w' = w2 /\ x = r);
     [reflexivity|assumption|split; reflexivity]|].
  intros ? ? _ _ [-> ->].
  eapply run_ok_seq.
  { apply run_ok_set_attr with
      (Q := fun _ w' => exists n, heap w' !! r = Some n /\ node_type n = ROOT);
      [assumption|assumption|intros ? H; exact H|].
    intros n Hn _. exists (with_node_type ROOT n). split; [|reflexivity].
    simpl. apply list_lookup_insert_eq. eapply lookup_lt_Some; eauto. }
  intros ? w3 Hp3 Hlen3 (n3 & Hn3 & Ht3).
  eapply run_ok_seq.
  { apply run_ok_set_attr with
      (Q := fun _ w' => exists n, heap w' !! r = Some n /\ node_type n = ROOT /\ level n = 0);
      [assumption|eapply lookup_lt_Some; eauto|intros ? H; exact H|].
    intros n Hn _. exists (with_level 0 n).
    split; [simpl; apply list_lookup_insert_eq; eapply lookup_lt_Some; eauto|].
    split; [|reflexivity]. simpl. congruence. }
  intros ? w4 Hp4 Hlen4 (n4 & Hn4 & Ht4 & Hl4).
  eapply run_ok_seq.
  { apply run_ok_get_attr with (Q := fun x w' => w' = w4 /\ x = id n4);
      [assumption|eapply lookup_lt_Some; eauto|].
    intros n Hn _. split; [reflexivity|congruence]. }
  intros ? ? _ _ [-> ->]. apply run_ok_ret; [assumption|].
  exists r, n4. simpl. auto.
Qed.

Lemma create_leaf_nodes_ok (chunks : list Chunk) (doc : string) (w : world) :
  plain_heap w ->
  Forall (fun c => chunk_page_start c <> 0 /\ chunk_page_end c <> 0) chunks ->
  run_ok (create_leaf_nodes uuid4 chunks doc) w
         (fun ls w' => length ls = length chunks /\ Forall (live w') ls).
Proof.
  intros Hp Hchunks. unfold create_leaf_nodes.
  eapply run_ok_weaken.
  - apply (run_ok_mmap _ (fun r n => (r < n)%nat)); [intros; lia|assumption|].
    intros c w1 Hin Hp1 _.
    rewrite Forall_forall in Hchunks. destruct (Hchunks c Hin) as [Hs He].
    eapply run_ok_seq; [apply run_ok_fresh_uuid with (Q := fun _ _ => True); auto|].
    intros nid w2 Hp2 _ _.
    apply run_ok_new_node; [assumption| |].
    + repeat split; simpl.
      * destruct (Z.eqb_spec (chunk_page_start c) 0); [contradiction|reflexivity].
      * destruct (Z.eqb_spec (chunk_page_end c) 0); [contradiction|reflexivity].
    + intros _. simpl. rewrite length_app. simpl. lia.
  - intros ls w1 _ _ [Hlen Hall]. split; assumption.
Qed.

Lemma build_from_chunks_ok (chunks : list Chunk) (doc : string) :
  chunks <> [] ->
  Forall (fun c => chunk_page_start c <> 0 /\ chunk_page_end c <> 0) chunks ->
  run_ok (build_from_chunks uuid4 chunks doc) empty_world
         (fun tree w' =>
            exists r n, heap w' !! r = Some n /\
                        root_node_id tree = Some (id n) /\
                        level n = 0 /\ node_type n = ROOT).
Proof.
  intros Hne Hchunks. unfold build_from_chunks.
  eapply run_ok_seq; [apply create_leaf_nodes_ok; [constructor|exact Hchunks]|].
  intros ls w1 Hp1 _ [Hlen Hlive].
  apply build_tree_structure_ok; [assumption| |assumption].
  destruct ls; [destruct chunks; [congruence|discriminate]|discriminate].
Qed.

End BuilderFacts.

(** ** The fuel of [build_tree_structure] is never exhausted

    whatever the leaves: every step of the builder returns or raises, and
    a level of [n >= 2] nodes is grouped into fewer than [n] parents. *)

Lemma fuel_free_bind {A B} (m : M A) (k : A -> M B) :
  fuel_free m -> (forall a, fuel_free (k a)) -> fuel_free (mbind m k).
Proof.
  intros Hm Hk w. unfold mbind. specialize (Hm w).
  destruct (m w) as [[a w']| |]; [apply Hk|discriminate|contradiction].
Qed.

Lemma fuel_free_ret {A} (a : A) : fuel_free (mret a).
Proof. intros w. discriminate. Qed.

Lemma fuel_free_lift {A} (o : outcome A) : o <> OutOfFuel -> fuel_free (lift o).
Proof. intros Ho w. unfold lift. destruct o; [discriminate..|contradiction]. Qed.

Lemma fuel_free_get_attr {A} (f : DocumentNode -> A) (r : ref) : fuel_free (get_attr f r).
Proof. intros w. unfold get_attr. destruct (heap w !! r); discriminate. Qed.

Lemma fuel_free_set_attr (upd : DocumentNode -> DocumentNode) (r : ref) :
  fuel_free (set_attr upd r).
Proof. intros w. unfold set_attr. destruct (heap w !! r); discriminate. Qed.

Lemma fuel_free_new_node (n : DocumentNode) : fuel_free (new_node n).
Proof. intros w. discriminate. Qed.

Lemma fuel_free_fresh_uuid (uuid4 : nat -> string) : fuel_free (fresh_uuid uuid4).
Proof. intros w. discriminate. Qed.

Lemma fuel_free_mmap {A B} (f : A -> M B) (l : list A) :
  (forall x, fuel_free (f x)) -> fuel_free (mmap f l).
Proof.
  intros Hf. induction l as [|x l IH]; simpl; [apply fuel_free_ret|].
  apply fuel_free_bind; [apply Hf|]. intros y.
  apply fuel_free_bind; [exact IH|]. intros ys. apply fuel_free_ret.
Qed.

Lemma fuel_free_mfold {A S} (f : S -> A -> M S) (l : list A) :
  (forall s x, fuel_free (f s x)) -> forall s, fuel_free (mfold f s l).
Proof.
  intros Hf. induction l as [|x l IH]; intros s; simpl; [apply fuel_free_ret|].
  apply fuel_free_bind; [apply Hf|]. exact IH.
Qed.

Create HintDb fuel_free.
#[local] Hint Resolve fuel_free_ret fuel_free_get_attr fuel_free_set_attr
  fuel_free_new_node fuel_free_fresh_uuid : fuel_free.

Ltac fuel_free_steps :=
  repeat first
    [ apply fuel_free_bind; [|intros ?]
    | progress auto with fuel_free
    | match goal with
      | |- fuel_free (if ?b then _ else _) => destruct b
      end ].

Lemma fuel_free_add_child (p c : ref) : fuel_free (add_child p c).
Proof. unfold add_child. fuel_free_steps. Qed.

Lemma fuel_free_add_node (tree : DocumentTree) (r : ref) : fuel_free (add_node tree r).
Proof. unfold add_node. fuel_free_steps. Qed.

Lemma py_min_fuel (l : list Z) : py_min l <> OutOfFuel.
Proof. destruct l; discriminate. Qed.

Lemma py_max_fuel (l : list Z) : py_max l <> OutOfFuel.
Proof. destruct l; discriminate. Qed.

Lemma py_range_fuel (a b c : Z) : py_range a b c <> OutOfFuel.
Proof. unfold py_range. destruct (c =? 0); discriminate. Qed.

Lemma py_first_fuel {A} (l : list A) : py_first l <> OutOfFuel.
Proof. destruct l; discriminate. Qed.

Lemma mmap_length {A B} (f : A -> M B) (l : list A) :
  forall w ys w', mmap f l w = Ret (ys, w') -> length ys = length l.
Proof.
  induction l as [|x l IH]; intros w ys w' Hrun; simpl in Hrun.
  - injection Hrun as <- _. reflexivity.
  - unfold mbind in Hrun. destruct (f x w) as [[y w1]| |]; try discriminate.
    destruct (mmap f l w1) as [[ys' w2]| |] eqn:E; try discriminate.
    injection Hrun as <- _. simpl. f_equal. eapply IH; eauto.
Qed.

Section BuilderFuel.
Variable uuid4 : nat -> string.

Lemma fuel_free_create_parent_node (group : list ref) (doc : string) (lvl : Z) :
  fuel_free (create_parent_node uuid4 group doc lvl).
Proof.
  unfold create_parent_node.
  repeat first
    [ apply fuel_free_add_child
    | apply fuel_free_mmap; intros ?
    | apply fuel_free_lift; first [apply py_min_fuel|apply py_max_fuel]
    | progress auto with fuel_free
    | apply fuel_free_bind; [|intros ?] ].
Qed.

Lemma fuel_free_create_parent_nodes (kids : list ref) (doc : string) (lvl : Z) :
  fuel_free (create_parent_nodes uuid4 kids doc lvl).
Proof.
  unfold create_parent_nodes. destruct (len kids <=? 1); [apply fuel_free_ret|].
  apply fuel_free_bind; [apply fuel_free_lift, py_range_fuel|]. intros starts.
  apply fuel_free_mmap. intros i. apply fuel_free_create_parent_node.
Qed.

Lemma create_parent_nodes_fewer (kids : list ref) (doc : string) (lvl : Z)
    (w w' : world) (ps : list ref) :
  (2 <= length kids)%nat ->
  create_parent_nodes uuid4 kids doc lvl w = Ret (ps, w') ->
  (length ps < length kids)%nat.
Proof.
  intros Hn Hrun. unfold create_parent_nodes in Hrun.
  destruct (Z.leb_spec (len kids) 1) as [Hle|_]; [unfold len in Hle; lia|].
  pose proof (group_size_bounds (len kids)) as Hg.
  rewrite py_range_groups in Hrun by lia.
  unfold mbind, lift in Hrun. apply mmap_length in Hrun.
  rewrite length_map, length_seq in Hrun.
  assert (Hlen : 2 <= len kids) by (unfold len; lia).
  pose proof (group_count_bounds (len kids) (group_size_of (len kids)) Hlen (proj1 Hg)).
  unfold len in *. lia.
Qed.

Lemma build_loop_fuel (fuel : nat) :
  forall (doc : string) (tree : DocumentTree) (cur : list ref) (lvl : Z),
    (length cur <= fuel)%nat ->
    fuel_free (build_loop uuid4 fuel doc tree cur lvl).
Proof.
  induction fuel as [|fuel IH]; intros doc tree cur lvl Hlen w; simpl.
  - destruct (Z.ltb_spec 1 (len cur)) as [Hgt|_]; [unfold len in Hgt; lia|discriminate].
  - destruct (Z.ltb_spec 1 (len cur)) as [Hgt|_]; [|discriminate].
    unfold mbind at 1.
    pose proof (fuel_free_create_parent_nodes cur doc lvl w) as Hc.
    destruct (create_parent_nodes uuid4 cur doc lvl w) as [[ps w1]| |] eqn:Ec;
      [|discriminate|contradiction].
    apply create_parent_nodes_fewer in Ec; [|unfold len in Hgt; lia].
    apply fuel_free_bind.
    + apply fuel_free_mfold. intros s x. apply fuel_free_add_node.
    + intros tree'. apply IH. lia.
Qed.

Lemma build_tree_structure_fuel (leaves : list ref) (doc : string) :
  fuel_free (build_tree_structure uuid4 leaves doc).
Proof.
  unfold build_tree_structure. destruct leaves as [|l0 leaves]; [apply fuel_free_ret|].
  apply fuel_free_bind.
  { apply fuel_free_mfold. intros s x. apply fuel_free_add_node. }
  intros tree. apply fuel_free_bind; [apply build_loop_fuel; lia|].
  intros [tree' cur]. cbn [fst snd].
  destruct (len cur =? 1).
  - repeat first
      [ apply fuel_free_lift, py_first_fuel
      | progress auto with fuel_free
      | apply fuel_free_bind; [|intros ?] ].
  - repeat first
      [ apply fuel_free_add_child
      | apply fuel_free_add_node
      | apply fuel_free_mmap; intros ?
      | apply fuel_free_lift; first [apply py_min_fuel|apply py_max_fuel]
      | progress auto with fuel_free
      | apply fuel_free_bind; [|intros ?] ].
Qed.

End BuilderFuel.

(** ** The tree builder on the scenarios *)

(** What [build_tree_structure] produces for 23 pages: three leaves
    [n1..n3], two parents [n4], [n5], and one more grouping parent [n6]
    over both, which becomes the root; no synthetic root is created. *)
Lemma scenario_23_pages_run :
  exists t w,
    scenario_23_pages = Ret (t, w) /\
    root_node_id t = Some "n6" /\
    map node_view (tree_values (heap w) t) =
      [("n1", ROOT, 2, Some "n4", []);
       ("n2", ROOT, 2, Some "n4", []);
       ("n3", ROOT, 2, Some "n5", []);
       ("n4", ROOT, 3, Some "n6", ["n1"; "n2"]);
       ("n5", ROOT, 3, Some "n6", ["n3"]);
       ("n6", ROOT, 0, None, ["n4"; "n5"])] /\
    map is_synthetic_root (tree_values (heap w) t) =
      [false; false; false; false; false; false] /\
    (metadata <$> get_root_node (heap w) t) =
      Some [("child_count", MInt 2); ("total_pages", MInt 2)].
Proof.
  eexists _, _. split; [vm_compute; reflexivity|].
  repeat split; vm_compute; reflexivity.
Qed.

(** C1, as stated, fails on the scenario it names: for 23 pages the two
    parents are grouped once more by the loop, and the root over both is
    that grouping parent, not a node marked [is_synthetic_root]. *)
Lemma synthetic_root_not_created_for_23_pages :
  ~ (exists t w root,
       scenario_23_pages = Ret (t, w) /\
       get_root_node (heap w) t = Some root /\
       children_ids root = ["n4"; "n5"] /\
       is_synthetic_root root = true).
Proof.
  intros (t & w & root & Hrun & Hroot & _ & Hsyn).
  destruct scenario_23_pages_run as (t' & w' & Hrun' & _ & _ & _ & Hmeta).
  rewrite Hrun in Hrun'. injection Hrun' as <- <-.
  rewrite Hroot in Hmeta. simpl in Hmeta. injection Hmeta as Hmeta.
  unfold is_synthetic_root in Hsyn. rewrite Hmeta in Hsyn. discriminate.
Qed.

(** C1 (amended). For every non-empty chunk sequence with non-zero page
    numbers, leaf creation followed by [build_tree_structure] returns a
    tree; no node it created is marked [is_synthetic_root]; the grouping
    loop ends with a single node, which becomes the root directly (type
    ROOT, level 0).  For 23 pages, [max_chunk_size = 10] and no overlap,
    the 3 leaves group into 2 parents, and these into one further
    parent, which is the root. *)
Theorem root_is_never_synthetic (uuid4 : nat -> string) (chunks : list Chunk)
    (doc : string) :
  chunks <> [] ->
  Forall (fun c => chunk_page_start c <> 0 /\ chunk_page_end c <> 0) chunks ->
  (exists t w,
     build_from_chunks uuid4 chunks doc empty_world = Ret (t, w) /\
     (forall n, n ∈ heap w -> is_synthetic_root n = false) /\
     (exists r n, heap w !! r = Some n /\ root_node_id t = Some (id n) /\
                  level n = 0 /\ node_type n = ROOT)) /\
  (exists t w,
     scenario_23_pages = Ret (t, w) /\
     map (fun n => (id n, children_ids n, is_synthetic_root n))
         (tree_values (heap w) t) =
       [("n1", [], false); ("n2", [], false); ("n3", [], false);
        ("n4", ["n1"; "n2"], false); ("n5", ["n3"], false);
        ("n6", ["n4"; "n5"], false)] /\
     root_node_id t = Some "n6").
Proof.
  intros Hne Hchunks. split.
  - destruct (build_from_chunks_ok uuid4 chunks doc Hne Hchunks)
      as (t & w & Hrun & Hplain & _ & Hroot).
    exists t, w. split; [exact Hrun|]. split; [|exact Hroot].
    intros n Hn. unfold plain_heap in Hplain. rewrite Forall_forall in Hplain.
    destruct (Hplain n Hn) as [Hkey _]. unfold is_synthetic_root. rewrite Hkey.
    reflexivity.
  - eexists _, _. split; [vm_compute; reflexivity|].
    split; vm_compute; reflexivity.
Qed.

Lemma root_is_never_synthetic_witness :
  (exists t w,
     build_from_chunks demo_uuid4 two_chunks "doc" empty_world = Ret (t, w) /\
     (forall n, n ∈ heap w -> is_synthetic_root n = false) /\
     (exists r n, heap w !! r = Some n /\ root_node_id t = Some (id n) /\
                  level n = 0 /\ node_type n = ROOT)) /\
  (exists t w,
     scenario_23_pages = Ret (t, w) /\
     map (fun n => (id n, children_ids n, is_synthetic_root n))
         (tree_values (heap w) t) =
       [("n1", [], false); ("n2", [], false); ("n3", [], false);
        ("n4", ["n1"; "n2"], false); ("n5", ["n3"], false);
        ("n6", ["n4"; "n5"], false)] /\
     root_node_id t = Some "n6").
Proof.
  apply (root_is_never_synthetic demo_uuid4 two_chunks "doc").
  - discriminate.
  - repeat constructor; simpl; lia.
Defined.

(** C2 fails on the code: after [build_tree_structure] on two chunks (11
    pages) both chunk-derived nodes have no children and yet carry
    [node_type = ROOT], because [add_node] marks every node that has no
    parent at the time it is added. *)
Theorem leaves_are_typed_root :
  exists t w,
    scenario_11_pages = Ret (t, w) /\
    map (fun n => (id n, children_ids n, is_leaf n, node_type n))
        (tree_values (heap w) t) =
      [("n1", [], true, ROOT);
       ("n2", [], true, ROOT);
       ("n3", ["n1"; "n2"], false, ROOT)].
Proof.
  eexists _, _. split; vm_compute; reflexivity.
Qed.

(** C3 fails on the code: after [build_tree_structure] on two chunks (11
    pages) the root [n3] has level 0 while its children, the two leaves,
    have level 2: neither the root's level plus one, nor level 1. *)
Theorem leaf_levels_after_build :
  exists t w,
    scenario_11_pages = Ret (t, w) /\
    root_node_id t = Some "n3" /\
    map (fun n => (id n, parent_id n, level n)) (tree_values (heap w) t) =
      [("n1", Some "n3", 2);
       ("n2", Some "n3", 2);
       ("n3", None, 0)].
Proof.
  eexists _, _. split; [vm_compute; reflexivity|].
  split; vm_compute; reflexivity.
Qed.

(** ** The navigator *)

(** C4 fails on the code: in the stored document [R(A(a1, a2), B(b1, b2))]
    the leaf [b1] has no previous sibling, and [find_previous_leaf_node]
    then only looks at the parent [B] (which is not a leaf) and answers
    [None], whatever the fuel; the mirror of [find_next_leaf_node] climbs
    to [B], whose previous sibling is [A], and answers [a2] -- the leaf
    from which [find_next_leaf_node] reaches [b1]. *)
Theorem previous_leaf_does_not_climb :
  (forall fuel, find_previous_leaf_node demo_db fuel "b1" = Ret None) /\
  found_id (previous_leaf_mirror demo_db 10 "b1") = Ret (Some "a2") /\
  found_id (find_next_leaf_node demo_db 10 "a2") = Ret (Some "b1").
Proof.
  split; [intros fuel; reflexivity|].
  split; vm_compute; reflexivity.
Qed.

(** C8. For an identifier the lookup does not resolve, every navigation
    operation returns: parent, next and previous sibling, next and
    previous leaf return [None], children and breadcrumb return the empty
    list, for every amount of fuel; none raises. *)
Theorem navigator_unknown_id (get_node_by_id : string -> option DocumentNode)
    (node_id : string) (fuel : nat) :
  get_node_by_id node_id = None ->
  navigate_to_parent get_node_by_id node_id = Ret None /\
  navigate_to_children get_node_by_id node_id = Ret [] /\
  navigate_to_next_sibling get_node_by_id node_id = Ret None /\
  navigate_to_previous_sibling get_node_by_id node_id = Ret None /\
  get_breadcrumb_path get_node_by_id fuel node_id = Ret [] /\
  find_next_leaf_node get_node_by_id fuel node_id = Ret None /\
  find_previous_leaf_node get_node_by_id fuel node_id = Ret None.
Proof.
  intros Hnone.
  unfold navigate_to_parent, navigate_to_children, navigate_to_next_sibling,
    navigate_to_previous_sibling, get_breadcrumb_path, find_next_leaf_node,
    find_previous_leaf_node.
  rewrite Hnone. destruct fuel; repeat split; reflexivity.
Qed.

Lemma navigator_unknown_id_witness :
  navigate_to_parent demo_db "zz" = Ret None /\
  navigate_to_children demo_db "zz" = Ret [] /\
  navigate_to_next_sibling demo_db "zz" = Ret None /\
  navigate_to_previous_sibling demo_db "zz" = Ret None /\
  get_breadcrumb_path demo_db 5 "zz" = Ret [] /\
  find_next_leaf_node demo_db 5 "zz" = Ret None /\
  find_previous_leaf_node demo_db 5 "zz" = Ret None.
Proof.
  apply (navigator_unknown_id demo_db "zz" 5). reflexivity.
Defined.

(** The in-memory lookups of [DocumentTree] behave the same way. *)
Lemma tree_unknown_id (h : list DocumentNode) (tree : DocumentTree) (node_id : string) :
  get_node h tree node_id = None ->
  get_children h tree node_id = [] /\
  get_parent h tree node_id = None /\
  get_siblings h tree node_id = [].
Proof.
  intros Hnone. unfold get_children, get_parent, get_siblings.
  rewrite Hnone. auto.
Qed.

(** ** Comparison of binary64 floats

    The comparison of [SpecFloat] orders all floats but NaN; the kernel's
    [ltb], [leb] and [eqb] are specified by it. *)

Ltac sf_compare_cases :=
  repeat match goal with
  | |- context [Z.compare ?a ?b] =>
      let H := fresh in destruct (Z.compare_spec a b) as [H|H|H]
  | |- context [Pos.compare_cont Eq ?a ?b] =>
      change (Pos.compare_cont Eq a b) with (Pos.compare a b)
  | |- context [Pos.compare ?a ?b] =>
      let H := fresh in destruct (Pos.compare_spec a b) as [H|H|H]
  | H : context [Z.compare ?a ?b] |- _ =>
      let H' := fresh in destruct (Z.compare_spec a b) as [H'|H'|H']
  | H : context [Pos.compare_cont Eq ?a ?b] |- _ =>
      change (Pos.compare_cont Eq a b) with (Pos.compare a b) in H
  | H : context [Pos.compare ?a ?b] |- _ =>
      let H' := fresh in destruct (Pos.compare_spec a b) as [H'|H'|H']
  end.

Ltac sf_solve :=
  unfold SFleb, SFltb, SFeqb, SFcompare;
  repeat match goal with
  | x : spec_float |- _ => destruct x
  | s : bool |- _ => destruct s
  end;
  intros; try discriminate; try reflexivity;
  sf_compare_cases; simpl in *; subst;
  try discriminate; try reflexivity; try lia.

Lemma SFleb_trans (a b c : spec_float) :
  SFleb a b = true -> SFleb b c = true -> SFleb a c = true.
Proof. sf_solve. Qed.

Lemma SFltb_false_SFleb (t a b : spec_float) :
  SFleb t a = true -> SFleb t b = true ->
  SFltb b a = false -> SFleb a b = true.
Proof. sf_solve. Qed.

Lemma SFltb_SFleb (a b : spec_float) :
  SFltb a b = true -> SFleb a b = true.
Proof. sf_solve. Qed.

Lemma SFeqb_not_SFltb (s a b : spec_float) :
  SFeqb a s = true -> SFeqb b s = true -> SFltb b a = false.
Proof. sf_solve. Qed.

Lemma leb_trans (x y z : float) :
  PrimFloat.leb x y = true -> PrimFloat.leb y z = true -> PrimFloat.leb x z = true.
Proof. rewrite !FloatAxioms.leb_spec. apply SFleb_trans. Qed.

Lemma ltb_false_leb (t x y : float) :
  PrimFloat.leb t x = true -> PrimFloat.leb t y = true ->
  PrimFloat.ltb y x = false -> PrimFloat.leb x y = true.
Proof. rewrite !FloatAxioms.leb_spec, FloatAxioms.ltb_spec. apply SFltb_false_SFleb. Qed.

Lemma ltb_leb (x y : float) :
  PrimFloat.ltb x y = true -> PrimFloat.leb x y = true.
Proof. rewrite FloatAxioms.leb_spec, FloatAxioms.ltb_spec. apply SFltb_SFleb. Qed.

Lemma eqb_not_ltb (s x y : float) :
  PrimFloat.eqb x s = true -> PrimFloat.eqb y s = true -> PrimFloat.ltb y x = false.
Proof. rewrite !FloatAxioms.eqb_spec, FloatAxioms.ltb_spec. apply SFeqb_not_SFltb. Qed.

(** ** The stable sort *)

Section StableSort.
Context {A : Type}.
Variable lt : A -> A -> bool.
Variable le : A -> A -> bool.
(** The elements the order is total on. *)
Variable ordered : A -> Prop.
Hypothesis lt_false_le : forall x y, ordered x -> ordered y -> lt y x = false -> le x y = true.
Hypothesis lt_le : forall x y, lt x y = true -> le x y = true.
Hypothesis le_trans : forall x y z, le x y = true -> le y z = true -> le x z = true.

Lemma insert_by_perm (x : A) (l : list A) : Permutation (insert_by lt x l) (x :: l).
Proof.
  induction l as [|y l IH]; simpl; [reflexivity|].
  destruct (lt y x); [|reflexivity].
  rewrite IH. apply perm_swap.
Qed.

Lemma sort_stable_perm (l : list A) : Permutation (sort_stable lt l) l.
Proof.
  induction l as [|x l IH]; simpl; [reflexivity|].
  rewrite insert_by_perm. constructor. exact IH.
Qed.

Lemma insert_by_sorted (x : A) (l : list A) :
  ordered x -> Forall ordered l ->
  StronglySorted (fun a b => le a b = true) l ->
  StronglySorted (fun a b => le a b = true) (insert_by lt x l).
Proof.
  intros Hx Hl Hs. induction Hs as [|y l Hs IH Hy]; simpl.
  - repeat constructor.
  - inversion Hl as [|? ? Hoy Hol]; subst.
    destruct (lt y x) eqn:E.
    + constructor; [apply IH; assumption|].
      rewrite (insert_by_perm x l). constructor; [apply lt_le; exact E|exact Hy].
    + constructor; [constructor; assumption|].
      assert (Hxy : le x y = true) by (apply lt_false_le; assumption).
      constructor; [exact Hxy|].
      eapply Forall_impl; [exact Hy|]. intros z Hz. eapply le_trans; eauto.
Qed.

Lemma sort_stable_sorted (l : list A) :
  Forall ordered l ->
  StronglySorted (fun a b => le a b = true) (sort_stable lt l).
Proof.
  induction 1 as [|x l Hx Hl IH]; simpl; [constructor|].
  apply insert_by_sorted; [assumption| |assumption].
  rewrite (sort_stable_perm l). exact Hl.
Qed.

(** Stability: the elements of a class [P] within which no element is
    smaller than another keep their order. *)
Lemma insert_by_filter (P : A -> bool) (x : A) (l : list A) :
  (forall a b, P a = true -> P b = true -> lt b a = false) ->
  List.filter P (insert_by lt x l) = List.filter P (x :: l).
Proof.
  intros HP. induction l as [|y l IH]; [reflexivity|].
  cbn [insert_by]. destruct (lt y x) eqn:E; [|reflexivity].
  cbn [List.filter] in *. rewrite IH.
  destruct (P x) eqn:Ex, (P y) eqn:Ey; try reflexivity.
  rewrite (HP x y Ex Ey) in E. discriminate.
Qed.

Lemma sort_stable_filter (P : A -> bool) (l : list A) :
  (forall a b, P a = true -> P b = true -> lt b a = false) ->
  List.filter P (sort_stable lt l) = List.filter P l.
Proof.
  intros HP. induction l as [|x l IH]; [reflexivity|].
  cbn [sort_stable]. rewrite insert_by_filter by assumption.
  cbn [List.filter]. rewrite IH. reflexivity.
Qed.

End StableSort.

Lemma StronglySorted_rev_flip {A} (R : A -> A -> Prop) (l : list A) :
  StronglySorted R l -> StronglySorted (fun a b => R b a) (rev l).
Proof.
  induction 1 as [|x l Hs IH Hx]; simpl; [constructor|].
  apply StronglySorted_app_2; [|exact IH|repeat constructor].
  intros a b Ha Hb. apply list_elem_of_singleton in Hb as ->.
  rewrite Forall_forall in Hx. apply Hx.
  apply list_elem_of_In, in_rev, list_elem_of_In. exact Ha.
Qed.

(** ** [list.sort(key, reverse=True)] on scores that are not NaN *)

Section ReverseSort.
Context {A : Type}.
Variable key : A -> float.
Variable threshold : float.

Lemma py_sort_reverse_perm (l : list A) : Permutation (py_sort_reverse key l) l.
Proof.
  unfold py_sort_reverse.
  rewrite <- Permutation_rev, sort_stable_perm, <- Permutation_rev. reflexivity.
Qed.

Lemma py_sort_reverse_sorted (l : list A) :
  Forall (fun a => PrimFloat.leb threshold (key a) = true) l ->
  StronglySorted (fun a b => PrimFloat.leb (key b) (key a) = true)
                 (py_sort_reverse key l).
Proof.
  intros Hl. unfold py_sort_reverse.
  apply (StronglySorted_rev_flip (fun a b => PrimFloat.leb (key a) (key b) = true)).
  apply (sort_stable_sorted _ (fun a b => PrimFloat.leb (key a) (key b))
           (fun a => PrimFloat.leb threshold (key a) = true)).
  - intros x y Hx Hy Hlt. eapply ltb_false_leb; eauto.
  - intros x y. apply ltb_leb.
  - intros x y z. apply leb_trans.
  - rewrite Forall_forall in *. intros a Ha. apply Hl.
    apply list_elem_of_In, in_rev, list_elem_of_In in Ha. exact Ha.
Qed.

Lemma py_sort_reverse_stable (s : float) (l : list A) :
  List.filter (fun a => PrimFloat.eqb (key a) s) (py_sort_reverse key l) =
  List.filter (fun a => PrimFloat.eqb (key a) s) l.
Proof.
  unfold py_sort_reverse.
  rewrite List.filter_rev, sort_stable_filter, List.filter_rev, rev_involutive;
    [reflexivity|].
  intros a b Ha Hb. eapply eqb_not_ltb; eauto.
Qed.

End ReverseSort.

(** ** [compute_similarity] and [find_similar_nodes] *)

Section Ranking.
Context {np : Numpy}.

Lemma compute_similarity_falsy (e1 e2 : option (list float)) :
  truthy_list e1 = false \/ truthy_list e2 = false ->
  compute_similarity e1 e2 = Ret 0%float.
Proof.
  intros [H|H]; unfold compute_similarity; rewrite H; simpl;
    [reflexivity|apply orb_true_r || (destruct (truthy_list e1); reflexivity)].
Qed.

Lemma compute_similarity_zero_norm (vec1 vec2 : list float) :
  length vec1 = length vec2 ->
  PrimFloat.eqb (np_norm vec1) 0 = true \/ PrimFloat.eqb (np_norm vec2) 0 = true ->
  compute_similarity (Some vec1) (Some vec2) = Ret 0%float.
Proof.
  intros Hlen Hzero. unfold compute_similarity.
  destruct (negb (truthy_list (Some vec1)) || negb (truthy_list (Some vec2)));
    [reflexivity|].
  destruct (np_dot_aligned vec1 vec2 Hlen) as [d ->]. simpl.
  destruct Hzero as [-> | ->]; [reflexivity|].
  rewrite orb_true_r. reflexivity.
Qed.

Lemma score_nodes_spec (query : option (list float)) (threshold : float)
    (values : list DocumentNode) :
  forall acc sims,
    score_nodes query threshold values acc = Ret sims ->
    exists new,
      sims = acc ++ new /\
      Forall (scored query threshold values) new /\
      map fst new `sublist_of` values.
Proof.
  induction values as [|node rest IH]; intros acc sims Hrun; simpl in Hrun.
  - injection Hrun as <-. exists []. rewrite app_nil_r.
    repeat split; constructor.
  - assert (Hweak : forall new,
               Forall (scored query threshold rest) new ->
               Forall (scored query threshold (node :: rest)) new).
    { intros new Hn. eapply Forall_impl; [exact Hn|]. intros p (H1 & H2 & H3 & H4).
      repeat split; auto. right. exact H2. }
    destruct (truthy_list (embedding node)) eqn:Et.
    + destruct (compute_similarity query (embedding node)) as [s| |] eqn:Es;
        simpl in Hrun; try discriminate.
      destruct (PrimFloat.leb threshold s) eqn:El.
      * destruct (IH _ _ Hrun) as (new & -> & Hnew & Hsub).
        exists ((node, s) :: new). rewrite <- app_assoc. split; [reflexivity|].
        split.
        -- constructor; [|apply Hweak; exact Hnew].
           repeat split; auto. left.
        -- simpl. apply sublist_skip. exact Hsub.
      * destruct (IH _ _ Hrun) as (new & -> & Hnew & Hsub).
        exists new. split; [reflexivity|]. split; [apply Hweak; exact Hnew|].
        apply sublist_cons. exact Hsub.
    + destruct (IH _ _ Hrun) as (new & -> & Hnew & Hsub).
      exists new. split; [reflexivity|]. split; [apply Hweak; exact Hnew|].
      apply sublist_cons. exact Hsub.
Qed.

Lemma score_nodes_returns (query : option (list float)) (threshold : float)
    (values : list DocumentNode) :
  (forall n, n ∈ values -> truthy_list (embedding n) = true ->
             exists s, compute_similarity query (embedding n) = Ret s) ->
  forall acc, exists sims, score_nodes query threshold values acc = Ret sims.
Proof.
  induction values as [|node rest IH]; intros Hall acc; simpl; [eauto|].
  assert (Hrest : forall n, n ∈ rest -> truthy_list (embedding n) = true ->
                            exists s, compute_similarity query (embedding n) = Ret s)
    by (intros n Hn; apply Hall; right; exact Hn).
  destruct (truthy_list (embedding node)) eqn:Et; [|apply IH; exact Hrest].
  destruct (Hall node (list_elem_of_here _ _) Et) as [s ->]. simpl.
  destruct (PrimFloat.leb threshold s); apply IH; exact Hrest.
Qed.

(** [find_similar_nodes] returns whenever every similarity it needs is
    defined. *)
Lemma find_similar_nodes_returns (h : list DocumentNode)
    (query : option (list float)) (tree : DocumentTree) (top_k : Z) (threshold : float) :
  (forall n, n ∈ tree_values h tree -> truthy_list (embedding n) = true ->
             exists s, compute_similarity query (embedding n) = Ret s) ->
  exists result, find_similar_nodes h query tree top_k threshold = Ret result.
Proof.
  intros Hall. unfold find_similar_nodes.
  destruct (negb (truthy_list query)); [eauto|].
  destruct (score_nodes_returns query threshold _ Hall []) as [sims ->].
  simpl. eauto.
Qed.

Lemma filter_take_prefix {A} (P : A -> bool) (k : nat) (l : list A) :
  List.filter P (take k l) `prefix_of` List.filter P l.
Proof.
  exists (List.filter P (drop k l)).
  rewrite <- List.filter_app, take_drop. reflexivity.
Qed.

Lemma py_slice_is_take {A} (l : list A) (hi : Z) :
  exists k, py_slice l 0 hi = take k l.
Proof.
  unfold py_slice, py_slice_bound.
  destruct (Z.ltb_spec 0 0); [lia|].
  assert (Hlen : 0 <= len l) by (unfold len; lia).
  rewrite (Z.min_l 0) by assumption. eexists. reflexivity.
Qed.

End Ranking.

(** ** The claims about similarity and ranking *)

(** C7, as stated, fails: the pair [[0; 0]], [[1]] has a vector of zero
    magnitude, and [compute_similarity] does not return [0.0] on it:
    [np.dot] runs before the norms are looked at and raises [ValueError]
    because the dimensions differ. *)
Lemma zero_vector_of_other_dimension_raises :
  PrimFloat.eqb (@np_norm demo_numpy [0%float; 0%float]) 0 = true /\
  @compute_similarity demo_numpy (Some [0%float; 0%float]) (Some [1%float])
    = Raise ValueError.
Proof. split; vm_compute; reflexivity. Qed.

(** C7 (amended). When either embedding is absent or empty, or both have
    the same dimension and one has a norm of zero, [compute_similarity]
    returns exactly [0.0]; it does so with every division, also one that
    faults on every call, so the division is not executed. *)
Theorem compute_similarity_degenerate (np : Numpy)
    (embedding1 embedding2 : option (list float)) :
  @degenerate np embedding1 embedding2 ->
  @compute_similarity np embedding1 embedding2 = Ret 0%float /\
  forall divide,
    @compute_similarity (with_divide np divide) embedding1 embedding2 = Ret 0%float.
Proof.
  assert (Hany : forall np' : Numpy,
             @degenerate np' embedding1 embedding2 ->
             @compute_similarity np' embedding1 embedding2 = Ret 0%float).
  { intros np' [H|[H|(vec1 & vec2 & -> & -> & Hlen & Hzero)]].
    - apply compute_similarity_falsy. left; exact H.
    - apply compute_similarity_falsy. right; exact H.
    - apply compute_similarity_zero_norm; assumption. }
  intros Hdeg. split; [apply Hany; exact Hdeg|].
  intros divide. apply Hany.
  destruct Hdeg as [H|[H|(vec1 & vec2 & -> & -> & Hlen & Hzero)]].
  - left; exact H.
  - right; left; exact H.
  - right; right. exists vec1, vec2. repeat split; assumption.
Qed.

Lemma compute_similarity_degenerate_witness :
  @compute_similarity demo_numpy (Some [0%float; 0%float]) (Some [1%float; 2%float])
    = Ret 0%float /\
  forall divide,
    @compute_similarity (with_divide demo_numpy divide)
       (Some [0%float; 0%float]) (Some [1%float; 2%float]) = Ret 0%float.
Proof.
  apply (compute_similarity_degenerate demo_numpy
           (Some [0%float; 0%float]) (Some [1%float; 2%float])).
  right; right. exists [0%float; 0%float], [1%float; 2%float].
  repeat split; try reflexivity. left. vm_compute. reflexivity.
Defined.

(** C6, as stated, fails for a negative [top_k]: [similarities[:-1]]
    drops the last entry, so with three candidates above the threshold
    two results are returned, more than [top_k = -1]. *)
Lemma negative_top_k_exceeds_bound :
  exists result,
    @find_similar_nodes demo_numpy demo_heap (Some [1%float; 0%float]) demo_tree
       (-1) 0.5%float = Ret result /\
    map (fun p => id p.1) result = ["e1"; "e3"] /\
    ~ (len result <= -1).
Proof.
  eexists. split; [vm_compute; reflexivity|].
  split; [reflexivity|]. unfold len. simpl. lia.
Qed.

(** C6 (amended). The list [find_similar_nodes] returns is sorted by
    descending similarity; its length does not exceed [top_k] when
    [top_k >= 0]; every result has a similarity of at least the threshold
    and is a node of the tree with a non-empty embedding, scored by
    [compute_similarity]; and among results of equal similarity the order
    of the candidate enumeration is kept: the results with a given score
    are an initial segment of the candidates with that score, and the
    candidates follow [tree.nodes.values()]. *)
Theorem find_similar_nodes_ranking (np : Numpy) (h : list DocumentNode)
    (query : option (list float)) (tree : DocumentTree) (top_k : Z)
    (threshold : float) (result : list (DocumentNode * float)) :
  @find_similar_nodes np h query tree top_k threshold = Ret result ->
  StronglySorted (fun a b => PrimFloat.leb b.2 a.2 = true) result /\
  (0 <= top_k -> len result <= top_k) /\
  Forall (fun p =>
            PrimFloat.leb threshold p.2 = true /\
            p.1 ∈ tree_values h tree /\
            truthy_list (embedding p.1) = true /\
            @compute_similarity np query (embedding p.1) = Ret p.2) result /\
  exists candidates,
    map fst candidates `sublist_of` tree_values h tree /\
    result `prefix_of` @py_sort_reverse (DocumentNode * float) snd candidates /\
    forall s,
      List.filter (fun p => PrimFloat.eqb p.2 s) result `prefix_of`
      List.filter (fun p => PrimFloat.eqb p.2 s) candidates.
Proof.
  unfold find_similar_nodes. intros Hrun.
  destruct (negb (truthy_list query)).
  { injection Hrun as <-. split; [constructor|]. split; [unfold len; simpl; lia|].
    split; [constructor|]. exists []. split; [apply sublist_nil_l|].
    split; [reflexivity|]. intros s. reflexivity. }
  destruct (score_nodes query threshold (tree_values h tree) []) as [sims| |] eqn:Es;
    simpl in Hrun; try discriminate.
  injection Hrun as <-.
  destruct (score_nodes_spec query threshold _ _ _ Es) as (new & Hsims & Hnew & Hsub).
  simpl in Hsims. subst new.
  assert (Hthr : Forall (fun p => PrimFloat.leb threshold p.2 = true) sims)
    by (eapply Forall_impl; [exact Hnew|]; intros p Hp; apply Hp).
  destruct (py_slice_is_take (py_sort_reverse snd sims) top_k) as [k Hk].
  split; [|split; [|split]].
  - rewrite Hk.
    pose proof (py_sort_reverse_sorted snd threshold sims Hthr) as Hsorted.
    rewrite <- (take_drop k (py_sort_reverse snd sims)) in Hsorted.
    apply StronglySorted_app_1_l in Hsorted. exact Hsorted.
  - intros Hk0. rewrite py_slice_prefix by assumption.
    unfold len. rewrite length_take. lia.
  - apply Forall_forall. intros p Hp. apply py_slice_elem in Hp.
    rewrite (py_sort_reverse_perm snd sims) in Hp.
    rewrite Forall_forall in Hnew. apply (Hnew p Hp).
  - exists sims. split; [exact Hsub|]. split.
    + rewrite Hk. apply prefix_take.
    + intros s. rewrite Hk.
      rewrite <- (py_sort_reverse_stable snd s sims).
      apply filter_take_prefix.
Qed.

Lemma find_similar_nodes_ranking_witness :
  exists result,
    @find_similar_nodes demo_numpy demo_heap (Some [1%float; 0%float]) demo_tree
       2 0.5%float = Ret result /\
    map (fun p => id p.1) result = ["e1"; "e3"] /\
    StronglySorted (fun a b => PrimFloat.leb b.2 a.2 = true) result /\
    (0 <= 2 -> len result <= 2).
Proof.
  eexists. split; [vm_compute; reflexivity|]. split; [reflexivity|].
  match goal with
  | |- StronglySorted _ ?r /\ _ =>
      pose proof (find_similar_nodes_ranking demo_numpy demo_heap
                    (Some [1%float; 0%float]) demo_tree 2 0.5%float r) as H
  end.
  destruct H as (Hsorted & Hlen & _); [vm_compute; reflexivity|].
  split; assumption.
Defined.

(** * Further properties of the code

    ** The chunker beyond its intended parameters *)



Lemma nonpositive_size_never_returns (self : DocumentSplitter) (pages : list Page) :
  max_chunk_size self <= 0 ->
  forall (fuel : nat) (i : Z) (chunks cs : list Chunk),
    i < len pages -> (0 < overlap_pages self -> 0 <= i) ->
    split_loop self pages fuel i chunks <> Ret cs.
Proof.
  intros Hmax fuel. induction fuel as [|fuel IH]; intros i chunks cs Hi Hpos; simpl.
  - destruct (Z.ltb_spec i (len pages)); [discriminate|lia].
  - destruct (Z.ltb_spec i (len pages)) as [_|Hge]; [|lia].
    destruct (make_chunk _) as [c|e'|] eqn:Ec; simpl; try discriminate.
    unfold next_index. destruct (Z.ltb_spec 0 (overlap_pages self)) as [Hov|Hov].
    + specialize (Hpos Hov).
      assert (Hce : chunk_end_at self (len pages) i <= i) by (unfold chunk_end_at; lia).
      rewrite Z.max_l by lia.
      destruct (Z.lt_ge_cases (i + 1) (len pages)) as [Hlt|Hlast].
      * apply IH; lia.
      * exfalso. rewrite py_slice_empty in Ec; [discriminate|].
        unfold py_slice_bound.
        destruct (Z.ltb_spec i 0); [lia|].
        destruct (Z.ltb_spec (chunk_end_at self (len pages) i) 0); lia.
    + apply IH; [unfold chunk_end_at; lia|lia].
Qed.



(** ** Sizes of the chunks *)

(** What a returning call has computed: the chunks cover the scanned
    ranges, and the chunk size was positive. *)
Lemma returned_chunks_cover (self : DocumentSplitter) (pages : list Page)
    (chunks : list Chunk) :
  pages <> [] ->
  split_pages_into_chunks self pages = Ret chunks ->
  0 < max_chunk_size self /\
  Forall2 (chunk_covers pages) chunks
          (scan_ranges self (len pages) (length pages) 0).
Proof.
  intros Hne Hrun.
  destruct (Z.lt_ge_cases 0 (max_chunk_size self)) as [Hmax|Hmax].
  - split; [exact Hmax|].
    destruct (split_loop_scan self pages Hmax (length pages) 0 [])
      as (cs & Hcs & Hall); [lia|unfold len; lia|].
    unfold split_pages_into_chunks in Hrun. destruct pages; [congruence|].
    rewrite Hcs in Hrun. simpl in Hrun. injection Hrun as <-. exact Hall.
  - exfalso. unfold split_pages_into_chunks in Hrun.
    destruct pages as [|p pages]; [congruence|].
    eapply (nonpositive_size_never_returns self (p :: pages)); eauto; [|lia].
    unfold len; simpl; lia.
Qed.

(** X2. Every chunk [split_pages_into_chunks] returns holds at least one
    page and at most [max_chunk_size] pages. *)
Theorem chunk_page_counts_bounded (self : DocumentSplitter) (pages : list Page)
    (chunks : list Chunk) :
  split_pages_into_chunks self pages = Ret chunks ->
  Forall (fun c => 1 <= chunk_page_count c <= max_chunk_size self) chunks.
Proof.
  intros Hrun.
  assert (Hcases : pages = [] \/ pages <> []) by (destruct pages; [left|right]; congruence).
  destruct Hcases as [-> | Hne].
  { injection Hrun as <-. constructor. }
  destruct (returned_chunks_cover self pages chunks Hne Hrun) as [Hmax Hcov].
  pose proof (scan_ranges_shape self pages Hmax (length pages) 0 (Z.le_refl 0)) as Hshape.
  clear Hrun. revert Hshape.
  induction Hcov as [|c r cs rs Hc Hcs IH]; intros Hshape; [constructor|].
  inversion Hshape as [|? ? Hr Hrs]; subst.
  constructor; [|apply IH; exact Hrs].
  destruct Hc as (_ & _ & _ & Hcount). rewrite Hcount. lia.
Qed.

Lemma chunk_page_counts_bounded_witness :
  exists chunks,
    split_pages_into_chunks (mkSplitter 10 1 3) (numbered_pages 23) = Ret chunks /\
    Forall (fun c => 1 <= chunk_page_count c <= 10) chunks.
Proof.
  eexists. split; [vm_compute; reflexivity|].
  apply (chunk_page_counts_bounded (mkSplitter 10 1 3) (numbered_pages 23)).
  vm_compute. reflexivity.
Defined.

(** ** Chunks without overlap tile the pages *)

Lemma string_append_assoc (a b c : string) :
  String.append (String.append a b) c = String.append a (String.append b c).
Proof.
  induction a as [|x a IH]; [reflexivity|].
  change (String x (String.append (String.append a b) c) =
          String x (String.append a (String.append b c))).
  f_equal. exact IH.
Qed.

Lemma py_join_cons2 (sep x y : string) (l : list string) :
  py_join sep (x :: y :: l) = String.append x (String.append sep (py_join sep (y :: l))).
Proof. reflexivity. Qed.

Lemma py_join_app (sep : string) (l1 l2 : list string) :
  l1 <> [] -> l2 <> [] ->
  py_join sep (l1 ++ l2) =
    String.append (py_join sep l1) (String.append sep (py_join sep l2)).
Proof.
  intros H1 H2. induction l1 as [|x l1 IH]; [congruence|].
  destruct l1 as [|y l1].
  - destruct l2 as [|z l2]; [congruence|]. reflexivity.
  - change ((x :: y :: l1) ++ l2) with (x :: y :: (l1 ++ l2)).
    rewrite !py_join_cons2.
    change (y :: l1 ++ l2) with ((y :: l1) ++ l2).
    rewrite IH by discriminate.
    rewrite !string_append_assoc. reflexivity.
Qed.

Section Tiling.
Variable self : DocumentSplitter.
Variable pages : list Page.
Hypothesis Hmax : 0 < max_chunk_size self.
Hypothesis Hov : overlap_pages self <= 0.

Lemma scan_ranges_done (fuel : nat) (i : Z) :
  len pages <= i -> scan_ranges self (len pages) fuel i = [].
Proof.
  intros Hi. destruct fuel; simpl; destruct (Z.ltb_spec i (len pages)); lia || reflexivity.
Qed.

Lemma tiling_from (fuel : nat) :
  forall (i : Z) (cs : list Chunk),
    0 <= i <= len pages -> len pages - i <= Z.of_nat fuel ->
    Forall2 (chunk_covers pages) cs (scan_ranges self (len pages) fuel i) ->
    fold_right Z.add 0 (map chunk_page_count cs) = len pages - i /\
    len cs = (len pages - i + max_chunk_size self - 1) / max_chunk_size self /\
    py_join blank_line (map chunk_text cs) =
      py_join blank_line (map text (drop (Z.to_nat i) pages)).
Proof.
  induction fuel as [|fuel IH]; intros i cs Hi Hfuel Hcov.
  - assert (i = len pages) as -> by lia.
    rewrite scan_ranges_done in Hcov by lia. inversion Hcov; subst.
    rewrite drop_ge by (unfold len; lia).
    repeat split; simpl; try lia.
    unfold len. simpl. rewrite Z.sub_diag, Z.add_0_l.
    symmetry. apply Z.div_small. lia.
  - destruct (Z.eq_dec i (len pages)) as [->|Hne].
    { rewrite scan_ranges_done in Hcov by lia. inversion Hcov; subst.
      rewrite drop_ge by (unfold len; lia).
      repeat split; simpl; try lia.
      unfold len. simpl. rewrite Z.sub_diag, Z.add_0_l.
      symmetry. apply Z.div_small. lia. }
    cbn [scan_ranges] in Hcov.
    destruct (Z.ltb_spec i (len pages)) as [Hlt|Hge]; [|lia].
    assert (Hnext : forall e, next_index self i e = e).
    { intros e. unfold next_index.
      destruct (Z.ltb_spec 0 (overlap_pages self)); [lia|reflexivity]. }
    rewrite Hnext in Hcov.
    set (e := chunk_end_at self (len pages) i) in *.
    assert (He : i < e <= len pages /\ e = Z.min (i + max_chunk_size self) (len pages))
      by (unfold e, chunk_end_at; lia).
    inversion Hcov as [|c r cs' rs Hc Hcs']; subst.
    destruct (IH e cs') as (Hsum & Hcount & Htext); [lia|lia|assumption|].
    destruct Hc as (_ & _ & Hctext & Hccount). simpl in Hctext, Hccount.
    split; [|split].
    + simpl. rewrite Hsum, Hccount. lia.
    + unfold len in *. simpl length. rewrite Nat2Z.inj_succ, Hcount.
      set (m := max_chunk_size self) in *.
      set (n := Z.of_nat (length pages)) in *.
      replace (n - i + m - 1) with ((n - i - 1) + 1 * m) by lia.
      rewrite Z.div_add by lia.
      destruct (Z.le_gt_cases (i + m) n) as [Hfull|Hpart].
      * replace (n - e + m - 1) with (n - i - 1) by lia. lia.
      * rewrite (Z.div_small (n - e + m - 1)) by lia.
        rewrite (Z.div_small (n - i - 1)) by lia. lia.
    + assert (Hseg : drop (Z.to_nat i) pages =
                     take (Z.to_nat (e - i)) (drop (Z.to_nat i) pages) ++
                     drop (Z.to_nat e) pages).
      { rewrite <- (take_drop (Z.to_nat (e - i)) (drop (Z.to_nat i) pages)) at 1.
        rewrite drop_drop. do 2 f_equal. lia. }
      destruct (Z.eq_dec e (len pages)) as [Hend|Hmore].
      * rewrite scan_ranges_done in Hcs' by lia. inversion Hcs'; subst cs'.
        rewrite Hseg.
        rewrite (drop_ge pages (Z.to_nat e)) by (unfold len in *; lia).
        rewrite app_nil_r. cbn [map py_join]. exact Hctext.
      * destruct cs' as [|c' cs'].
        { exfalso. destruct fuel; [lia|]. simpl in Hcs'.
          destruct (Z.ltb_spec e (len pages)); [inversion Hcs'|lia]. }
        rewrite Hseg. cbn [map]. rewrite py_join_cons2.
        cbn [map] in Htext. rewrite Htext, Hctext.
        rewrite map_app, py_join_app; [reflexivity| |].
        -- intros Hnil. apply (f_equal length) in Hnil.
           rewrite length_map, length_take, length_drop in Hnil.
           unfold len in *. simpl in Hnil. lia.
        -- intros Hnil. apply (f_equal length) in Hnil.
           rewrite length_map, length_drop in Hnil.
           unfold len in *. simpl in Hnil. lia.
Qed.

End Tiling.

(** X3. Without overlap ([overlap_pages <= 0]) the chunks tile the page
    list: their page counts add up to the number of pages, there are
    [ceil(total / max_chunk_size)] of them, and joining the chunk texts
    with a blank line gives the blank-line join of all page texts. *)
Theorem chunks_without_overlap_tile (self : DocumentSplitter) (pages : list Page)
    (chunks : list Chunk) :
  0 < max_chunk_size self ->
  overlap_pages self <= 0 ->
  split_pages_into_chunks self pages = Ret chunks ->
  fold_right Z.add 0 (map chunk_page_count chunks) = len pages /\
  len chunks = (len pages + max_chunk_size self - 1) / max_chunk_size self /\
  py_join blank_line (map chunk_text chunks) = py_join blank_line (map text pages).
Proof.
  intros Hmax Hov Hrun.
  assert (Hcases : pages = [] \/ pages <> []) by (destruct pages; [left|right]; congruence).
  destruct Hcases as [-> | Hne].
  { injection Hrun as <-. unfold len. simpl. repeat split.
    symmetry. apply Z.div_small. lia. }
  destruct (returned_chunks_cover self pages chunks Hne Hrun) as [_ Hcov].
  destruct (tiling_from self pages Hmax Hov (length pages) 0 chunks)
    as (Hsum & Hcount & Htext); [unfold len; lia|unfold len; lia|exact Hcov|].
  rewrite Z.sub_0_r in *. simpl in Htext. auto.
Qed.

Lemma chunks_without_overlap_tile_witness :
  exists chunks,
    split_pages_into_chunks (mkSplitter 10 1 0) (numbered_pages 23) = Ret chunks /\
    fold_right Z.add 0 (map chunk_page_count chunks) = 23 /\
    len chunks = (23 + 10 - 1) / 10 /\
    py_join blank_line (map chunk_text chunks) =
      py_join blank_line (map text (numbered_pages 23)).
Proof.
  eexists. split; [vm_compute; reflexivity|].
  apply (chunks_without_overlap_tile (mkSplitter 10 1 0) (numbered_pages 23)).
  - simpl. lia.
  - simpl. lia.
  - vm_compute. reflexivity.
Defined.

(** ** The tail of an overlapping scan *)

Section OverlapTail.
Variable self : DocumentSplitter.
Variable pages : list Page.
Hypothesis Hmax : 0 < max_chunk_size self.
Hypothesis Hov : 0 < overlap_pages self.

Lemma overlap_next (i : Z) :
  next_index self i (chunk_end_at self (len pages) i) =
    Z.max (i + 1) (chunk_end_at self (len pages) i - overlap_pages self).
Proof. unfold next_index. destruct (Z.ltb_spec 0 (overlap_pages self)); [reflexivity|lia]. Qed.

Lemma scan_last_page (fuel : nat) (i : Z) :
  i = len pages - 1 -> 0 <= i -> (0 < fuel)%nat ->
  scan_ranges self (len pages) fuel i = [(len pages - 1, len pages)].
Proof.
  intros -> Hi Hfuel. destruct fuel as [|fuel]; [lia|]. cbn [scan_ranges].
  destruct (Z.ltb_spec (len pages - 1) (len pages)); [|lia].
  rewrite overlap_next.
  assert (Hce : chunk_end_at self (len pages) (len pages - 1) = len pages)
    by (unfold chunk_end_at; lia).
  rewrite Hce, scan_ranges_done by lia. reflexivity.
Qed.

Lemma overlap_tail (fuel : nat) :
  forall i : Z,
    0 <= i < len pages -> len pages - i <= Z.of_nat fuel ->
    exists front,
      scan_ranges self (len pages) fuel i = front ++ [(len pages - 1, len pages)] /\
      (2 <= max_chunk_size self -> i < len pages - 1 ->
       exists front' i', front = front' ++ [(i', len pages)] /\ i' < len pages - 1).
Proof.
  induction fuel as [|fuel IH]; intros i Hi Hfuel; [lia|].
  destruct (Z.eq_dec i (len pages - 1)) as [Hlast|Hnot].
  { exists []. split; [apply scan_last_page; lia|]. lia. }
  cbn [scan_ranges]. destruct (Z.ltb_spec i (len pages)); [|lia].
  rewrite overlap_next.
  set (e := chunk_end_at self (len pages) i).
  assert (He : i < e <= len pages /\ e = Z.min (i + max_chunk_size self) (len pages))
    by (unfold e, chunk_end_at; lia).
  set (n := Z.max (i + 1) (e - overlap_pages self)).
  assert (Hn : i < n < len pages) by lia.
  destruct (IH n) as (front & Hfront & Hprev); [lia|lia|].
  exists ((i, e) :: front). split; [rewrite Hfront; reflexivity|].
  intros Hmax2 _.
  destruct (Z.eq_dec n (len pages - 1)) as [Hn1|Hn1].
  - rewrite scan_last_page in Hfront by lia.
    assert (front = []) as ->.
    { destruct front as [|x front]; [reflexivity|].
      apply (f_equal length) in Hfront. rewrite length_app in Hfront.
      simpl in Hfront. lia. }
    exists [], i. split; [|lia]. simpl. do 2 f_equal. lia.
  - destruct Hprev as (front' & i' & -> & Hi'); [assumption|lia|].
    exists ((i, e) :: front'), i'. split; [reflexivity|assumption].
Qed.

End OverlapTail.

(** X4. With a positive overlap the scan always ends with a chunk that
    holds the last page alone; when [max_chunk_size >= 2] and there are
    at least two pages, the chunk before it already ends on that page,
    so the last page is chunked twice. *)
Theorem overlap_ends_with_single_page_chunk (self : DocumentSplitter)
    (pages : list Page) (chunks : list Chunk) :
  pages <> [] ->
  0 < overlap_pages self ->
  split_pages_into_chunks self pages = Ret chunks ->
  exists front c,
    chunks = front ++ [c] /\
    chunk_page_count c = 1 /\
    Some (chunk_page_start c) = page_number <$> last pages /\
    chunk_page_end c = chunk_page_start c /\
    (2 <= max_chunk_size self -> 2 <= len pages ->
     exists front' c', front = front' ++ [c'] /\
                       chunk_page_end c' = chunk_page_end c /\
                       1 < chunk_page_count c').
Proof.
  intros Hne Hov Hrun.
  destruct (returned_chunks_cover self pages chunks Hne Hrun) as [Hmax Hcov].
  assert (Hlen : 0 < len pages) by (destruct pages; [congruence|unfold len; simpl; lia]).
  destruct (overlap_tail self pages Hmax Hov (length pages) 0)
    as (rfront & Hscan & Hprev); [lia|unfold len; lia|].
  rewrite Hscan in Hcov.
  apply Forall2_app_inv_r in Hcov as (front & tail & Hfront & Htail & ->).
  inversion Htail as [|c r cs rs Hc Hnil]; subst. inversion Hnil; subst.
  destruct Hc as (Hstart & Hend & _ & Hcount). simpl in Hstart, Hend, Hcount.
  replace (len pages - 1 - 1 + 1) with (len pages - 1) in * by lia.
  assert (Hlast : pages !! Z.to_nat (len pages - 1) = last pages).
  { rewrite last_lookup. f_equal. unfold len. lia. }
  exists front, c. split; [reflexivity|].
  split; [lia|]. split; [rewrite <- Hlast, Hstart; reflexivity|].
  split; [rewrite Hstart in Hend; congruence|].
  intros Hmax2 Hlen2.
  destruct Hprev as (rfront' & i' & -> & Hi'); [assumption|lia|].
  apply Forall2_app_inv_r in Hfront as (front' & tail' & Hfront' & Htail' & ->).
  inversion Htail' as [|c' r' cs' rs' Hc' Hnil']; subst. inversion Hnil'; subst.
  destruct Hc' as (_ & Hend' & _ & Hcount'). simpl in Hend', Hcount'.
  exists front', c'. split; [reflexivity|]. split; [congruence|].
  pose proof (scan_ranges_shape self pages Hmax (length pages) 0 (Z.le_refl 0)) as Hshape.
  rewrite Hscan in Hshape. rewrite !Forall_app in Hshape.
  destruct Hshape as [[_ Hi0] _]. inversion Hi0 as [|? ? [Hb _] _]; subst.
  simpl in Hb. lia.
Qed.

Lemma overlap_ends_with_single_page_chunk_witness :
  exists chunks front c,
    split_pages_into_chunks (mkSplitter 10 1 1) (numbered_pages 23) = Ret chunks /\
    chunks = front ++ [c] /\
    chunk_page_count c = 1 /\
    Some (chunk_page_start c) = page_number <$> last (numbered_pages 23) /\
    chunk_page_end c = chunk_page_start c /\
    (2 <= 10 -> 2 <= 23 ->
     exists front' c', front = front' ++ [c'] /\
                       chunk_page_end c' = chunk_page_end c /\
                       1 < chunk_page_count c').
Proof.
  assert (Hrun : exists chunks,
             split_pages_into_chunks (mkSplitter 10 1 1) (numbered_pages 23) = Ret chunks)
    by (eexists; vm_compute; reflexivity).
  destruct Hrun as [chunks Hrun].
  destruct (overlap_ends_with_single_page_chunk
              (mkSplitter 10 1 1) (numbered_pages 23) chunks)
    as (front & c & H); [discriminate|simpl; lia|exact Hrun|].
  exists chunks, front, c. split; [exact Hrun|exact H].
Defined.

(** ** [DocumentNode.add_child] and [DocumentTree.add_node] *)

Lemma dict_get_set_eq {V} (k : string) (v : V) (d : list (string * V)) :
  dict_get k (dict_set k v d) = Some v.
Proof.
  induction d as [|[k' v'] d IH]; simpl.
  - rewrite String.eqb_refl. reflexivity.
  - destruct (String.eqb_spec k k'); simpl.
    + rewrite String.eqb_refl. reflexivity.
    + destruct (String.eqb_spec k k'); [contradiction|exact IH].
Qed.

Lemma dict_get_set_ne {V} (k k0 : string) (v : V) (d : list (string * V)) :
  k0 <> k -> dict_get k0 (dict_set k v d) = dict_get k0 d.
Proof.
  intros Hne. induction d as [|[k' v'] d IH]; simpl.
  - destruct (String.eqb_spec k0 k); [contradiction|reflexivity].
  - destruct (String.eqb_spec k k'); simpl.
    + subst k'. destruct (String.eqb_spec k0 k); [contradiction|reflexivity].
    + destruct (String.eqb_spec k0 k'); [reflexivity|exact IH].
Qed.

Lemma dict_set_keys {V} (k : string) (v : V) (d : list (string * V)) :
  map fst (dict_set k v d) =
    if decide (k ∈ map fst d) then map fst d else map fst d ++ [k].
Proof.
  induction d as [|[k' v'] d IH]; simpl.
  - destruct (decide (k ∈ [])) as [H|_]; [inversion H|reflexivity].
  - destruct (String.eqb_spec k k') as [->|Hne]; simpl.
    + destruct (decide (k' ∈ k' :: map fst d)) as [_|H]; [reflexivity|].
      exfalso. apply H. left.
    + rewrite IH. destruct (decide (k ∈ map fst d)) as [Hin|Hout].
      * destruct (decide (k ∈ k' :: map fst d)) as [_|H]; [reflexivity|].
        exfalso. apply H. right. exact Hin.
      * destruct (decide (k ∈ k' :: map fst d)) as [H|_]; [|reflexivity].
        exfalso. apply elem_of_cons in H as [H|H]; [congruence|contradiction].
Qed.

Lemma dict_set_fresh {V} (k : string) (v : V) (d : list (string * V)) :
  k ∉ map fst d -> dict_set k v d = d ++ [(k, v)].
Proof.
  induction d as [|[k' v'] d IH]; intros Hk; cbn [dict_set app]; [reflexivity|].
  destruct (String.eqb_spec k k') as [->|Hne].
  - exfalso. apply Hk. left.
  - rewrite IH; [reflexivity|]. intros Hin. apply Hk. right. exact Hin.
Qed.

Lemma add_child_present (p c : ref) (w : world) (pn cn : DocumentNode) :
  heap w !! p = Some pn ->
  heap w !! c = Some cn ->
  id cn ∈ children_ids pn ->
  add_child p c w = Ret (tt, w).
Proof.
  intros Hp Hc Hin. unfold add_child, mbind, get_attr.
  rewrite Hc, Hp. rewrite bool_decide_true by exact Hin. reflexivity.
Qed.

Lemma add_child_absent (p c : ref) (w : world) (pn cn : DocumentNode) :
  heap w !! p = Some pn ->
  heap w !! c = Some cn ->
  p <> c ->
  id cn ∉ children_ids pn ->
  add_child p c w =
    Ret (tt, mkWorld (<[c := adopted_by pn cn]> (<[p := with_child (id cn) pn]> (heap w)))
                     (uuid_count w)).
Proof.
  intros Hp Hc Hne Hnot. unfold add_child, mbind, get_attr, set_attr.
  rewrite Hc, Hp. rewrite bool_decide_false by exact Hnot.
  assert (Hlp : (p < length (heap w))%nat) by (eapply lookup_lt_Some; eauto).
  assert (Hlc : (c < length (heap w))%nat) by (eapply lookup_lt_Some; eauto).
  assert (Hlen : (0 <? len (children_ids pn ++ [id cn])) = true).
  { unfold len. rewrite length_app. simpl. apply Z.ltb_lt. lia. }
  simpl.
  repeat (first [ rewrite list_lookup_insert_eq by (rewrite ?length_insert; assumption)
                | rewrite list_lookup_insert_ne by congruence
                | rewrite Hp | rewrite Hc
                | rewrite Hlen ];
          simpl).
  rewrite ?andb_true_r. unfold with_child, adopted_by.
  destruct (NodeType_eqb (node_type pn) LEAF); simpl.
  - repeat (first [ rewrite list_lookup_insert_eq by (rewrite ?length_insert; assumption)
                  | rewrite list_lookup_insert_ne by congruence ];
            simpl).
    rewrite list_insert_insert_eq.
    rewrite (list_insert_insert_ne _ p c) by congruence.
    rewrite list_insert_insert_eq. reflexivity.
  - rewrite list_insert_insert_eq. reflexivity.
Qed.



(** X6. [add_child] is idempotent: adopting the same child a second time
    changes nothing. *)
Theorem add_child_twice (p c : ref) (w : world) :
  p <> c ->
  mbind (add_child p c) (fun _ => add_child p c) w = add_child p c w.
Proof.
  intros Hne. unfold mbind at 1.
  destruct (heap w !! p) as [pn|] eqn:Hp;
    [destruct (heap w !! c) as [cn|] eqn:Hc|].
  - assert (Hlp : (p < length (heap w))%nat) by (eapply lookup_lt_Some; eauto).
    assert (Hlc : (c < length (heap w))%nat) by (eapply lookup_lt_Some; eauto).
    destruct (decide (id cn ∈ children_ids pn)) as [Hin|Hnot].
    + rewrite (add_child_present p c w pn cn Hp Hc Hin).
      apply (add_child_present p c w pn cn Hp Hc Hin).
    + rewrite (add_child_absent p c w pn cn Hp Hc Hne Hnot).
      eapply add_child_present.
      * cbn [heap]. rewrite list_lookup_insert_ne by congruence.
        apply list_lookup_insert_eq. assumption.
      * cbn [heap]. apply list_lookup_insert_eq. rewrite length_insert. assumption.
      * unfold with_child, adopted_by.
        destruct (NodeType_eqb (node_type pn) LEAF); simpl;
          apply elem_of_app; right; left.
  - unfold add_child, mbind, get_attr. rewrite Hc. reflexivity.
  - unfold add_child, mbind, get_attr.
    destruct (heap w !! c); [rewrite Hp|]; reflexivity.
Qed.

Lemma add_child_twice_witness :
  mbind (add_child 0%nat 1%nat) (fun _ => add_child 0%nat 1%nat) (mkWorld demo_heap 0)
    = add_child 0%nat 1%nat (mkWorld demo_heap 0).
Proof. apply (add_child_twice 0%nat 1%nat (mkWorld demo_heap 0)). lia. Defined.

Lemma add_node_run (tree : DocumentTree) (r : ref) (w : world) (n : DocumentNode) :
  heap w !! r = Some n ->
  add_node tree r w =
    Ret (mkTree (tree_document_id tree) (document_title tree)
                (dict_set (id n) r (nodes tree))
                (if becomes_root tree n then Some (id n) else root_node_id tree),
         if becomes_root tree n
         then mkWorld (<[r := with_node_type ROOT n]> (heap w)) (uuid_count w)
         else w).
Proof.
  intros Hr. unfold add_node, mbind, get_attr, set_attr, mret, becomes_root.
  rewrite Hr. cbn [root_node_id tree_document_id document_title nodes].
  rewrite Hr.
  destruct (match root_node_id tree with None => true | Some _ => false end || is_root n);
    [rewrite Hr|]; reflexivity.
Qed.

(** X7. A node added with [add_node] is found again under its identifier
    by [get_node], typed ROOT when the tree had no root or the node has
    no parent and unchanged otherwise; the other keys keep their objects
    and no other object is touched. *)
Theorem add_node_then_get_node (tree : DocumentTree) (r : ref) (w : world)
    (n : DocumentNode) :
  heap w !! r = Some n ->
  exists tree' w',
    add_node tree r w = Ret (tree', w') /\
    get_node (heap w') tree' (id n) =
      Some (if becomes_root tree n then with_node_type ROOT n else n) /\
    (forall k, k <> id n -> dict_get k (nodes tree') = dict_get k (nodes tree)) /\
    (forall r', r' <> r -> heap w' !! r' = heap w !! r').
Proof.
  intros Hr. eexists _, _. split; [apply (add_node_run tree r w n Hr)|].
  assert (Hlt : (r < length (heap w))%nat) by (eapply lookup_lt_Some; eauto).
  unfold get_node. cbn [nodes]. rewrite dict_get_set_eq. cbn.
  repeat split.
  - destruct (becomes_root tree n); cbn [heap].
    + apply list_lookup_insert_eq. exact Hlt.
    + exact Hr.
  - intros k Hk. apply dict_get_set_ne. exact Hk.
  - intros r' Hr'. destruct (becomes_root tree n); cbn [heap]; [|reflexivity].
    apply list_lookup_insert_ne. congruence.
Qed.

Lemma add_node_then_get_node_witness :
  exists tree' w',
    add_node demo_tree 1%nat (mkWorld demo_heap 0) = Ret (tree', w') /\
    get_node (heap w') tree' "e2" =
      Some (with_node_type ROOT (embedded_node "e2" (Some [3%float; 4%float]))) /\
    (forall k, k <> "e2" -> dict_get k (nodes tree') = dict_get k (nodes demo_tree)) /\
    (forall r', r' <> 1%nat -> heap w' !! r' = demo_heap !! r').
Proof.
  apply (add_node_then_get_node demo_tree 1%nat (mkWorld demo_heap 0)
           (embedded_node "e2" (Some [3%float; 4%float]))).
  reflexivity.
Defined.

(** X8. A node without a parent takes over as root whatever root the
    tree had: after [add_node], [root_node_id] is its identifier, and
    [get_root_node] returns it typed ROOT, unless its identifier is the
    empty string, in which case [get_root_node] finds no root. *)
Theorem parentless_node_becomes_root (tree : DocumentTree) (r : ref) (w : world)
    (n : DocumentNode) :
  heap w !! r = Some n ->
  parent_id n = None ->
  exists tree' w',
    add_node tree r w = Ret (tree', w') /\
    root_node_id tree' = Some (id n) /\
    get_root_node (heap w') tree' =
      (if String.eqb (id n) EmptyString then None
       else Some (with_node_type ROOT n)).
Proof.
  intros Hr Hp. eexists _, _. split; [apply (add_node_run tree r w n Hr)|].
  assert (Hlt : (r < length (heap w))%nat) by (eapply lookup_lt_Some; eauto).
  assert (Hb : becomes_root tree n = true).
  { unfold becomes_root, is_root. rewrite Hp. apply orb_true_r. }
  rewrite Hb. cbn [root_node_id]. split; [reflexivity|].
  unfold get_root_node. cbn [root_node_id truthy_str].
  destruct (String.eqb (id n) EmptyString); cbn [negb]; [reflexivity|].
  change (get_node (<[r:=with_node_type ROOT n]> (heap w))
            (mkTree (tree_document_id tree) (document_title tree)
                    (dict_set (id n) r (nodes tree)) (Some (id n))) (id n)
          = Some (with_node_type ROOT n)).
  unfold get_node. cbn [nodes]. rewrite dict_get_set_eq.
  change (<[r:=with_node_type ROOT n]> (heap w) !! r = Some (with_node_type ROOT n)).
  apply list_lookup_insert_eq. exact Hlt.
Qed.

Lemma parentless_node_becomes_root_witness :
  exists tree' w',
    add_node demo_tree 1%nat (mkWorld demo_heap 0) = Ret (tree', w') /\
    root_node_id tree' = Some "e2" /\
    get_root_node (heap w') tree' =
      Some (with_node_type ROOT (embedded_node "e2" (Some [3%float; 4%float]))).
Proof.
  apply (parentless_node_becomes_root demo_tree 1%nat (mkWorld demo_heap 0)
           (embedded_node "e2" (Some [3%float; 4%float])));
    reflexivity.
Defined.

(** ** [DocumentTree] lookups and the navigator over the same nodes *)

(** X9. A [TreeNavigator] whose store serves the nodes of a tree answers
    as the tree's own methods do: parent, children, next and previous
    sibling coincide with [get_parent], [get_children],
    [get_next_sibling] and [get_previous_sibling]. *)
Theorem navigator_agrees_with_tree (h : list DocumentNode) (tree : DocumentTree)
    (node_id : string) :
  navigate_to_parent (get_node h tree) node_id = Ret (get_parent h tree node_id) /\
  navigate_to_children (get_node h tree) node_id = Ret (get_children h tree node_id) /\
  navigate_to_next_sibling (get_node h tree) node_id
    = get_next_sibling h tree node_id /\
  navigate_to_previous_sibling (get_node h tree) node_id
    = get_previous_sibling h tree node_id.
Proof.
  unfold navigate_to_parent, navigate_to_children, navigate_to_next_sibling,
    navigate_to_previous_sibling, get_next_sibling, get_previous_sibling,
    get_parent, get_children, parent_of.
  destruct (get_node h tree node_id) as [node|]; [|repeat split; reflexivity].
  destruct (truthy_str (parent_id node)); repeat split; reflexivity.
Qed.

Lemma breadcrumb_loop_path_loop (h : list DocumentNode) (tree : DocumentTree)
    (fuel : nat) :
  forall current_node path,
    breadcrumb_loop (get_node h tree) fuel current_node (map crumb_of path)
    = obind (path_loop h tree fuel current_node path)
            (fun p => Ret (map crumb_of p)).
Proof.
  induction fuel as [|fuel IH]; intros [node|] path; try reflexivity.
  cbn [breadcrumb_loop path_loop].
  change (mkCrumb (id node)
            (if String.eqb (summary node) EmptyString then "Section" else summary node)
            (get_page_range node) (level node)) with (crumb_of node).
  replace (map crumb_of path ++ [crumb_of node]) with (map crumb_of (path ++ [node]))
    by (rewrite map_app; reflexivity).
  unfold parent_of.
  destruct (truthy_str (parent_id node)); [apply IH|reflexivity].
Qed.

(** X10. Over the nodes of a tree, the breadcrumb path is the tree's
    path to the root, reversed, with each node shown as its breadcrumb
    entry; the two loops take the same number of iterations. *)
Theorem breadcrumb_is_reversed_path (h : list DocumentNode) (tree : DocumentTree)
    (fuel : nat) (node_id : string) :
  get_breadcrumb_path (get_node h tree) fuel node_id
  = obind (get_path_to_root h tree fuel node_id)
          (fun path => Ret (rev (map crumb_of path))).
Proof.
  unfold get_breadcrumb_path, get_path_to_root.
  rewrite (breadcrumb_loop_path_loop h tree fuel _ []).
  destruct (path_loop h tree fuel (get_node h tree node_id) []); reflexivity.
Qed.

Lemma omap_filter_sublist {A B} (f : A -> option B) (p : A -> bool) (l : list A) :
  sublist (omap f (List.filter p l)) (omap f l).
Proof.
  induction l as [|x l IH]; [constructor|].
  cbn [List.filter]. destruct (p x); cbn [omap list_omap].
  - destruct (f x); [constructor|]; exact IH.
  - destruct (f x); [constructor|]; exact IH.
Qed.

Lemma elem_of_omap_filter {A B} (f : A -> option B) (p : A -> bool) (l : list A) (y : B) :
  y ∈ omap f (List.filter p l) -> exists x, p x = true /\ f x = Some y.
Proof.
  induction l as [|x l IH]; cbn [List.filter]; [intros H; inversion H|].
  destruct (p x) eqn:Ep; [|exact IH].
  cbn [omap list_omap]. destruct (f x) eqn:Ef; [|exact IH].
  intros [->|H]%elem_of_cons; [exists x; auto|exact (IH H)].
Qed.

(** X11. [get_siblings] returns an order-preserving selection of the
    parent's children, and nothing when the node is unknown, has no
    parent or its parent is unknown; no returned sibling is stored under
    the node's own identifier, so in a tree keyed by [id] the node is
    never among its siblings. *)
Theorem siblings_are_other_children (h : list DocumentNode) (tree : DocumentTree)
    (node_id : string) :
  match get_parent h tree node_id with
  | Some parent =>
      sublist (get_siblings h tree node_id)
              (omap (get_node h tree) (children_ids parent))
  | None => get_siblings h tree node_id = []
  end /\
  (keyed_by_id (get_node h tree) ->
   forall s, s ∈ get_siblings h tree node_id -> id s <> node_id).
Proof.
  split.
  - unfold get_siblings.
    destruct (get_parent h tree node_id) as [parent|] eqn:Hp.
    + destruct (get_node h tree node_id) as [node|]; [|apply sublist_nil_l].
      destruct (truthy_str (parent_id node)); [|apply sublist_nil_l].
      apply omap_filter_sublist.
    + destruct (get_node h tree node_id) as [node|]; [|reflexivity].
      destruct (truthy_str (parent_id node)); reflexivity.
  - intros Hkeyed s Hs. unfold get_siblings in Hs.
    destruct (get_node h tree node_id) as [node|]; [|inversion Hs].
    destruct (truthy_str (parent_id node)); [|inversion Hs].
    destruct (get_parent h tree node_id) as [parent|]; [|inversion Hs].
    apply elem_of_omap_filter in Hs as (k & Hk & Hget).
    rewrite (Hkeyed k s Hget).
    destruct (String.eqb_spec k node_id); [discriminate|assumption].
Qed.

Lemma fold_left_max_ge (l : list Z) (x : Z) :
  x <= fold_left Z.max l x /\ Forall (fun y => y <= fold_left Z.max l x) l.
Proof.
  revert x. induction l as [|y l IH]; intros x; cbn [fold_left].
  - split; [lia|constructor].
  - destruct (IH (Z.max x y)) as [H1 H2]. split; [lia|].
    constructor; [lia|exact H2].
Qed.

Lemma length_list_omap {A B} (f : A -> option B) (l : list A) :
  (length (omap f l) <= length l)%nat.
Proof.
  induction l as [|x l IH]; [reflexivity|].
  cbn [omap list_omap]. destruct (f x); cbn [length]; lia.
Qed.

(** X12. The statistics of a tree are consistent: there are at most as
    many leaf nodes as nodes, every node's level is at most [max_depth],
    and [max_depth] is the level of some node, or 0 for a tree without
    nodes. *)
Theorem tree_stats_consistent (h : list DocumentNode) (tree : DocumentTree) :
  let stats := get_tree_stats h tree in
  0 <= leaf_nodes stats <= total_nodes stats /\
  (forall n, n ∈ tree_values h tree -> level n <= max_depth stats) /\
  (tree_values h tree = [] /\ max_depth stats = 0 \/
   exists n, n ∈ tree_values h tree /\ level n = max_depth stats).
Proof.
  cbn. unfold get_leaf_nodes, len. repeat split.
  - lia.
  - pose proof (filter_length_le is_leaf (tree_values h tree)) as H1.
    assert (H2 : (length (tree_values h tree) <= length (nodes tree))%nat)
      by apply length_list_omap.
    lia.
  - intros n Hn. destruct (tree_values h tree) as [|x l]; [inversion Hn|].
    cbn [map py_max_default0].
    destruct (fold_left_max_ge (map level l) (level x)) as [H1 H2].
    apply elem_of_cons in Hn as [->|Hn]; [exact H1|].
    rewrite Forall_forall in H2. apply H2.
    apply list_elem_of_In, in_map. apply list_elem_of_In. exact Hn.
  - destruct (tree_values h tree) as [|x l]; [left; split; reflexivity|right].
    cbn [map py_max_default0].
    pose proof (fold_max_elem (map level l) (level x)) as H.
    apply elem_of_cons in H as [H|H].
    + exists x. split; [left|symmetry; exact H].
    + apply list_elem_of_In, in_map_iff in H as (n & Hn & Hin).
      exists n. split; [right; apply list_elem_of_In; exact Hin|exact Hn].
Qed.

Lemma dict_get_In_nodes {V} (k : string) (v : V) (d : list (string * V)) :
  dict_get k d = Some v -> In (k, v) d.
Proof.
  induction d as [|[k' v'] d IH]; cbn [dict_get]; [discriminate|].
  destruct (String.eqb_spec k k') as [->|_].
  - intros [= ->]. left. reflexivity.
  - intros H. right. exact (IH H).
Qed.

Lemma keyed_tree_sound (h : list DocumentNode) (tree : DocumentTree) :
  keyed_tree h tree = true -> keyed_by_id (get_node h tree).
Proof.
  unfold keyed_tree. rewrite forallb_forall. intros Hall k n.
  unfold get_node. destruct (dict_get k (nodes tree)) as [r|] eqn:Hk; [|discriminate].
  cbn. intros Hn. specialize (Hall (k, r) (dict_get_In_nodes _ _ _ Hk)).
  cbn [fst snd] in Hall. rewrite Hn in Hall. apply String.eqb_eq. exact Hall.
Qed.

Lemma siblings_are_other_children_witness :
  sublist (get_siblings demo_store_heap demo_store_tree "a1")
          (omap (get_node demo_store_heap demo_store_tree) ["a1"; "a2"]) /\
  forall s, s ∈ get_siblings demo_store_heap demo_store_tree "a1" -> id s <> "a1".
Proof.
  destruct (siblings_are_other_children demo_store_heap demo_store_tree "a1")
    as [H1 H2].
  split; [exact H1|].
  apply H2, keyed_tree_sound. vm_compute. reflexivity.
Defined.

(** ** The navigator over a store *)

Lemma consistent_table_sound (store : list (string * DocumentNode)) :
  consistent_table store = true ->
  consistent_store (fun k => dict_get k store).
Proof.
  unfold consistent_table. rewrite forallb_forall. intros Hall.
  assert (Hentry : forall k n, dict_get k store = Some n ->
                               consistent_entry store (k, n) = true).
  { intros k n H. apply Hall, dict_get_In_nodes, H. }
  split.
  - intros k n H. apply Hentry in H. unfold consistent_entry in H.
    apply andb_prop in H as [H _]. apply andb_prop in H as [H _].
    apply String.eqb_eq in H. exact H.
  - intros k n H. apply Hentry in H. unfold consistent_entry in H.
    apply andb_prop in H as [H Hkids]. apply andb_prop in H as [_ Hnodup].
    split; [apply bool_decide_eq_true in Hnodup; exact Hnodup|].
    intros cid c Hin Hc. rewrite forallb_forall in Hkids.
    specialize (Hkids cid (proj1 (list_elem_of_In _ _) Hin)).
    cbn [snd fst] in Hkids. rewrite Hc in Hkids.
    apply bool_decide_eq_true in Hkids. exact Hkids.
Qed.

Lemma demo_db_consistent : consistent_store demo_db.
Proof. apply (consistent_table_sound demo_store). vm_compute. reflexivity. Qed.

(** *** [list.index] and indexing *)

Lemma py_index_cases (x : string) (l : list string) :
  (exists i : nat, py_index x l = Ret (Z.of_nat i) /\ l !! i = Some x /\
                   forall j, (j < i)%nat -> l !! j <> Some x) \/
  (py_index x l = Raise ValueError /\ x ∉ l).
Proof.
  induction l as [|y l IH]; cbn [py_index].
  - right. split; [reflexivity|]. intros H. inversion H.
  - destruct (String.eqb_spec y x) as [->|Hne].
    + left. exists 0%nat. repeat split. intros j Hj. lia.
    + destruct IH as [(i & Hi & Hl & Hfirst)|[Hr Hnot]].
      * left. exists (S i). rewrite Hi. cbn [obind]. repeat split.
        -- f_equal. lia.
        -- exact Hl.
        -- intros [|j] Hj; cbn; [congruence|]. apply Hfirst. lia.
      * right. rewrite Hr. split; [reflexivity|].
        intros [H|H]%elem_of_cons; [congruence|contradiction].
Qed.

Lemma py_index_NoDup (x : string) (l : list string) (i : nat) :
  NoDup l -> l !! i = Some x -> py_index x l = Ret (Z.of_nat i).
Proof.
  intros Hnd Hi.
  destruct (py_index_cases x l) as [(j & Hj & Hl & _)|[_ Hnot]].
  - rewrite Hj. f_equal. f_equal. eapply NoDup_lookup; eauto.
  - exfalso. apply Hnot. eapply list_elem_of_lookup_2. exact Hi.
Qed.

Lemma py_getitem_lookup {A} (l : list A) (i : nat) (x : A) :
  l !! i = Some x -> py_getitem l (Z.of_nat i) = Ret x.
Proof.
  intros H. unfold py_getitem.
  destruct (Z.of_nat i <? 0) eqn:E; [apply Z.ltb_lt in E; lia|].
  rewrite E, Nat2Z.id, H. reflexivity.
Qed.

Lemma py_getitem_Ret {A} (l : list A) (i : nat) (x : A) :
  py_getitem l (Z.of_nat i) = Ret x -> l !! i = Some x.
Proof.
  unfold py_getitem.
  destruct (Z.of_nat i <? 0) eqn:E; [apply Z.ltb_lt in E; lia|].
  rewrite E, Nat2Z.id. destruct (l !! i); [intros [= ->]; reflexivity|discriminate].
Qed.

(** The two sibling steps in terms of the parent's list of children. *)
Lemma next_sibling_inv (db : string -> option DocumentNode) (a : string)
    (nb : DocumentNode) :
  navigate_to_next_sibling db a = Ret (Some nb) ->
  exists na pid p (i : nat) bid,
    db a = Some na /\ truthy_str (parent_id na) = true /\ parent_id na = Some pid /\
    db pid = Some p /\ py_index a (children_ids p) = Ret (Z.of_nat i) /\
    children_ids p !! i = Some a /\
    children_ids p !! S i = Some bid /\ db bid = Some nb.
Proof.
  unfold navigate_to_next_sibling, parent_of.
  destruct (db a) as [na|]; [|discriminate].
  destruct (truthy_str (parent_id na)) eqn:Ht; cbn [negb]; [|discriminate].
  destruct (parent_id na) as [pid|] eqn:Hpid; [|discriminate]. cbn.
  destruct (db pid) as [p|] eqn:Hp; [|discriminate].
  destruct (py_index_cases a (children_ids p)) as [(i & Hi & Hl & _)|[Hr _]];
    [|rewrite Hr; discriminate].
  rewrite Hi. cbn [obind].
  destruct (Z.of_nat i + 1 <? len (children_ids p)); [|discriminate].
  replace (Z.of_nat i + 1) with (Z.of_nat (S i)) by lia.
  destruct (py_getitem (children_ids p) (Z.of_nat (S i))) as [bid| |] eqn:Hg;
    cbn [obind except_ValueError]; try discriminate.
  - intros [= Hb]. exists na, pid, p, i, bid.
    repeat split; rewrite ?Hpid; auto. apply py_getitem_Ret. exact Hg.
  - destruct e; discriminate.
Qed.

Lemma previous_sibling_inv (db : string -> option DocumentNode) (a : string)
    (nb : DocumentNode) :
  navigate_to_previous_sibling db a = Ret (Some nb) ->
  exists na pid p (i : nat) bid,
    db a = Some na /\ truthy_str (parent_id na) = true /\ parent_id na = Some pid /\
    db pid = Some p /\ py_index a (children_ids p) = Ret (Z.of_nat (S i)) /\
    children_ids p !! S i = Some a /\
    children_ids p !! i = Some bid /\ db bid = Some nb.
Proof.
  unfold navigate_to_previous_sibling, parent_of.
  destruct (db a) as [na|]; [|discriminate].
  destruct (truthy_str (parent_id na)) eqn:Ht; cbn [negb]; [|discriminate].
  destruct (parent_id na) as [pid|] eqn:Hpid; [|discriminate]. cbn.
  destruct (db pid) as [p|] eqn:Hp; [|discriminate].
  destruct (py_index_cases a (children_ids p)) as [(i & Hi & Hl & _)|[Hr _]];
    [|rewrite Hr; discriminate].
  rewrite Hi. cbn [obind].
  destruct i as [|i]; [cbn; discriminate|].
  destruct (0 <? Z.of_nat (S i)); [|discriminate].
  replace (Z.of_nat (S i) - 1) with (Z.of_nat i) by lia.
  destruct (py_getitem (children_ids p) (Z.of_nat i)) as [bid| |] eqn:Hg;
    cbn [obind except_ValueError]; try discriminate.
  - intros [= Hb]. exists na, pid, p, i, bid.
    repeat split; rewrite ?Hpid; auto. apply py_getitem_Ret. exact Hg.
  - destruct e; discriminate.
Qed.

Lemma sibling_step_from (db : string -> option DocumentNode) (b : string)
    (nb p : DocumentNode) (pid : string) (j : nat) :
  db b = Some nb -> truthy_str (Some pid) = true -> parent_id nb = Some pid ->
  db pid = Some p -> NoDup (children_ids p) -> children_ids p !! j = Some b ->
  navigate_to_next_sibling db b
    = Ret (match children_ids p !! S j with Some c => db c | None => None end) /\
  navigate_to_previous_sibling db b
    = Ret (match j with
           | O => None
           | S i => match children_ids p !! i with Some c => db c | None => None end
           end).
Proof.
  intros Hb Ht Hpid Hp Hnd Hj.
  unfold navigate_to_next_sibling, navigate_to_previous_sibling, parent_of.
  rewrite Hb, Hpid, Ht. cbn [negb]. cbn. rewrite Hp.
  rewrite (py_index_NoDup b (children_ids p) j Hnd Hj). cbn [obind].
  split.
  - replace (Z.of_nat j + 1) with (Z.of_nat (S j)) by lia.
    destruct (children_ids p !! S j) as [c|] eqn:Hc.
    + assert (Hlt : (S j < length (children_ids p))%nat)
        by (eapply lookup_lt_Some; eauto).
      replace (Z.of_nat (S j) <? len (children_ids p)) with true
        by (symmetry; apply Z.ltb_lt; unfold len; lia).
      rewrite (py_getitem_lookup _ _ _ Hc). reflexivity.
    + apply lookup_ge_None in Hc.
      replace (Z.of_nat (S j) <? len (children_ids p)) with false
        by (symmetry; apply Z.ltb_ge; unfold len; lia).
      reflexivity.
  - destruct j as [|i]; [reflexivity|].
    replace (0 <? Z.of_nat (S i)) with true by (symmetry; apply Z.ltb_lt; lia).
    replace (Z.of_nat (S i) - 1) with (Z.of_nat i) by lia.
    assert (Hlt : (i < length (children_ids p))%nat).
    { apply lookup_lt_Some in Hj. lia. }
    destruct (lookup_lt_is_Some_2 _ _ Hlt) as [c Hc].
    rewrite Hc, (py_getitem_lookup _ _ _ Hc). reflexivity.
Qed.

(** X13. In a consistent store the sibling steps undo each other: from
    the next sibling of a node, the previous-sibling step leads back to
    the node, and from the previous sibling the next-sibling step does. *)
Theorem sibling_steps_are_inverse (db : string -> option DocumentNode)
    (a : string) (nb : DocumentNode) :
  consistent_store db ->
  (navigate_to_next_sibling db a = Ret (Some nb) ->
   navigate_to_previous_sibling db (id nb) = Ret (db a)) /\
  (navigate_to_previous_sibling db a = Ret (Some nb) ->
   navigate_to_next_sibling db (id nb) = Ret (db a)).
Proof.
  intros [Hkey Hcons]. split.
  - intros (na & pid & p & i & bid & Ha & Ht & Hpid & Hp & _ & Hia & Hib & Hb)
      %next_sibling_inv.
    destruct (Hcons pid p Hp) as [Hnd Hkids].
    rewrite (Hkey bid nb Hb).
    assert (Hpb : parent_id nb = Some pid).
    { apply (Hkids bid nb); [eapply list_elem_of_lookup_2; eauto|exact Hb]. }
    rewrite Hpid in Ht.
    destruct (sibling_step_from db bid nb p pid (S i) Hb Ht Hpb Hp Hnd Hib) as [_ ->].
    rewrite Hia. reflexivity.
  - intros (na & pid & p & i & bid & Ha & Ht & Hpid & Hp & _ & Hia & Hib & Hb)
      %previous_sibling_inv.
    destruct (Hcons pid p Hp) as [Hnd Hkids].
    rewrite (Hkey bid nb Hb).
    assert (Hpb : parent_id nb = Some pid).
    { apply (Hkids bid nb); [eapply list_elem_of_lookup_2; eauto|exact Hb]. }
    rewrite Hpid in Ht.
    destruct (sibling_step_from db bid nb p pid i Hb Ht Hpb Hp Hnd Hib) as [-> _].
    rewrite Hia. reflexivity.
Qed.

Lemma sibling_steps_are_inverse_witness :
  navigate_to_previous_sibling demo_db "a2" = Ret (demo_db "a1") /\
  navigate_to_next_sibling demo_db "A" = Ret (demo_db "B").
Proof.
  split.
  - apply (sibling_steps_are_inverse demo_db "a1" (demo_node "a2" LEAF (Some "A") [] 2).2
             demo_db_consistent).
    reflexivity.
  - apply (sibling_steps_are_inverse demo_db "B"
             (demo_node "A" BRANCH (Some "R") ["a1"; "a2"] 1).2 demo_db_consistent).
    reflexivity.
Defined.

(** *** Leaf search *)

Lemma first_leaf_result (db : string -> option DocumentNode) (fuel : nat) :
  forall node n,
    _find_first_leaf_in_subtree db fuel node = Ret (Some n) ->
    is_leaf n = true /\ (n = node \/ exists k, db k = Some n).
Proof.
  induction fuel as [|fuel IH]; intros node n; cbn [_find_first_leaf_in_subtree];
    [discriminate|].
  destruct (is_leaf node) eqn:Hleaf.
  - intros [= <-]. auto.
  - destruct (children_ids node) as [|c kids]; [discriminate|].
    destruct (py_getitem (c :: kids) 0) as [first_id| |]; cbn [obind]; try discriminate.
    destruct (db first_id) as [first_child|] eqn:Hc; [|discriminate].
    intros H. destruct (IH _ _ H) as [Hl [->|Hs]]; eauto.
Qed.

Lemma last_leaf_result (db : string -> option DocumentNode) (fuel : nat) :
  forall node n,
    _find_last_leaf_in_subtree db fuel node = Ret (Some n) ->
    is_leaf n = true /\ (n = node \/ exists k, db k = Some n).
Proof.
  induction fuel as [|fuel IH]; intros node n; cbn [_find_last_leaf_in_subtree];
    [discriminate|].
  destruct (is_leaf node) eqn:Hleaf.
  - intros [= <-]. auto.
  - destruct (children_ids node) as [|c kids]; [discriminate|].
    destruct (py_getitem (c :: kids) (-1)) as [last_id| |]; cbn [obind]; try discriminate.
    destruct (db last_id) as [last_child|] eqn:Hc; [|discriminate].
    intros H. destruct (IH _ _ H) as [Hl [->|Hs]]; eauto.
Qed.

Lemma next_sibling_served (db : string -> option DocumentNode) (a : string)
    (nb : DocumentNode) :
  navigate_to_next_sibling db a = Ret (Some nb) -> exists k, db k = Some nb.
Proof.
  intros (na & pid & p & i & bid & _ & _ & _ & _ & _ & _ & _ & Hb)%next_sibling_inv.
  eauto.
Qed.

Lemma previous_sibling_served (db : string -> option DocumentNode) (a : string)
    (nb : DocumentNode) :
  navigate_to_previous_sibling db a = Ret (Some nb) -> exists k, db k = Some nb.
Proof.
  intros (na & pid & p & i & bid & _ & _ & _ & _ & _ & _ & _ & Hb)%previous_sibling_inv.
  eauto.
Qed.

Lemma parent_served (db : string -> option DocumentNode) (a : string)
    (p : DocumentNode) :
  navigate_to_parent db a = Ret (Some p) -> exists k, db k = Some p.
Proof.
  unfold navigate_to_parent, parent_of.
  destruct (db a) as [na|]; [|discriminate].
  destruct (truthy_str (parent_id na)); [|discriminate].
  destruct (parent_id na) as [pid|]; [|discriminate]. cbn.
  intros [= H]. eauto.
Qed.

Lemma next_leaf_loop_result (db : string -> option DocumentNode) (fuel : nat) :
  forall current n,
    next_leaf_loop db fuel current = Ret (Some n) ->
    is_leaf n = true /\ exists k, db k = Some n.
Proof.
  induction fuel as [|fuel IH]; intros [current|] n; cbn [next_leaf_loop];
    try discriminate.
  destruct (navigate_to_next_sibling db (id current)) as [[sibling|]| |] eqn:Hs;
    cbn [obind]; try discriminate.
  - intros H. destruct (first_leaf_result _ _ _ _ H) as [Hl [->|Hserved]]; [|auto].
    split; [exact Hl|]. eapply next_sibling_served. exact Hs.
  - destruct (navigate_to_parent db (id current)) as [parent| |]; cbn [obind];
      try discriminate.
    apply IH.
Qed.

(** X14. What [find_next_leaf_node] and [find_previous_leaf_node] return,
    if they return a node, is a leaf (a node without children) that the
    store serves; they never return an inner node. *)
Theorem leaf_search_returns_leaves (db : string -> option DocumentNode)
    (fuel : nat) (node_id : string) (n : DocumentNode) :
  find_next_leaf_node db fuel node_id = Ret (Some n) \/
  find_previous_leaf_node db fuel node_id = Ret (Some n) ->
  is_leaf n = true /\ exists k, db k = Some n.
Proof.
  intros [H|H].
  - unfold find_next_leaf_node in H.
    destruct (db node_id) as [node|] eqn:Hn; [|discriminate].
    destruct (children_ids node) as [|c kids];
      [exact (next_leaf_loop_result _ _ _ _ H)|].
    destruct (py_getitem (c :: kids) 0) as [first_id| |]; cbn [obind] in H;
      try discriminate.
    destruct (db first_id) as [first_child|] eqn:Hc;
      [|exact (next_leaf_loop_result _ _ _ _ H)].
    destruct (first_leaf_result _ _ _ _ H) as [Hl [->|Hs]]; eauto.
  - unfold find_previous_leaf_node in H.
    destruct (db node_id) as [node|] eqn:Hn; [|discriminate].
    destruct (navigate_to_previous_sibling db node_id) as [[sibling|]| |] eqn:Hs;
      cbn [obind] in H; try discriminate.
    + destruct (last_leaf_result _ _ _ _ H) as [Hl [->|Hserved]]; [|auto].
      split; [exact Hl|]. eapply previous_sibling_served. exact Hs.
    + destruct (navigate_to_parent db node_id) as [[p|]| |] eqn:Hp; cbn [obind] in H;
        try discriminate.
      destruct (is_leaf p) eqn:Hl; [|discriminate].
      injection H as <-. split; [exact Hl|]. eapply parent_served. exact Hp.
Qed.

Lemma leaf_search_returns_leaves_witness :
  is_leaf (demo_node "b1" LEAF (Some "B") [] 2).2 = true /\
  exists k, demo_db k = Some (demo_node "b1" LEAF (Some "B") [] 2).2.
Proof.
  apply (leaf_search_returns_leaves demo_db 10 "a2").
  left. reflexivity.
Defined.

(** *** Breadcrumbs *)

Lemma breadcrumb_loop_acc (db : string -> option DocumentNode) (fuel : nat) :
  forall current acc,
    breadcrumb_loop db fuel current acc
    = obind (breadcrumb_loop db fuel current []) (fun p => Ret (acc ++ p)).
Proof.
  induction fuel as [|fuel IH]; intros [node|] acc; cbn [breadcrumb_loop obind];
    try reflexivity; try (rewrite app_nil_r; reflexivity).
  fold (crumb_of node). cbn [app].
  destruct (truthy_str (parent_id node)).
  - rewrite (IH _ (acc ++ [crumb_of node])), (IH _ [crumb_of node]).
    destruct (breadcrumb_loop db fuel (parent_of db node) []); cbn [obind];
      [rewrite <- app_assoc|..]; reflexivity.
  - reflexivity.
Qed.

(** X15. The breadcrumb path of a node is the breadcrumb path of its
    parent followed by the node's own entry; for a node without (truthy)
    [parent_id] it is that entry alone.  So a path ends with the node
    itself and starts at the topmost ancestor that can be reached. *)
Theorem breadcrumb_extends_parent (db : string -> option DocumentNode)
    (fuel : nat) (node_id : string) (node : DocumentNode) :
  db node_id = Some node ->
  get_breadcrumb_path db (S fuel) node_id =
    match parent_id node with
    | Some pid =>
        if truthy_str (parent_id node)
        then obind (get_breadcrumb_path db fuel pid)
                   (fun path => Ret (path ++ [crumb_of node]))
        else Ret [crumb_of node]
    | None => Ret [crumb_of node]
    end.
Proof.
  intros Hn. unfold get_breadcrumb_path. rewrite Hn.
  cbn [breadcrumb_loop]. fold (crumb_of node). cbn [app].
  unfold parent_of.
  destruct (parent_id node) as [pid|] eqn:Hpid; [|reflexivity].
  destruct (truthy_str (Some pid)); [|reflexivity].
  cbn. rewrite breadcrumb_loop_acc.
  destruct (breadcrumb_loop db fuel (db pid) []); cbn [obind]; [|reflexivity..].
  rewrite rev_app_distr. reflexivity.
Qed.

Lemma breadcrumb_extends_parent_witness :
  get_breadcrumb_path demo_db 3 "a1" =
    obind (get_breadcrumb_path demo_db 2 "A")
          (fun path => Ret (path ++ [crumb_of (demo_node "a1" LEAF (Some "A") [] 2).2])).
Proof.
  apply (breadcrumb_extends_parent demo_db 2 "a1" (demo_node "a1" LEAF (Some "A") [] 2).2).
  reflexivity.
Defined.

Lemma breadcrumb_loop_diverges (db : string -> option DocumentNode)
    (S : DocumentNode -> Prop) :
  (forall n, S n -> truthy_str (parent_id n) = true /\
                    exists p, parent_of db n = Some p /\ S p) ->
  forall fuel n acc, S n -> breadcrumb_loop db fuel (Some n) acc = OutOfFuel.
Proof.
  intros Hclosed. induction fuel as [|fuel IH]; intros n acc Hn; [reflexivity|].
  cbn [breadcrumb_loop]. destruct (Hclosed n Hn) as [-> (p & -> & Hp)].
  apply IH. exact Hp.
Qed.

(** X16. [get_breadcrumb_path] has no guard against parent cycles: from a
    node whose chain of parents never reaches a node without parent (all
    of them resolve in the store) the loop does not end, whatever number
    of iterations it is given. *)
Theorem breadcrumb_loops_on_parent_cycle (db : string -> option DocumentNode)
    (S : DocumentNode -> Prop) (node_id : string) (node : DocumentNode) (fuel : nat) :
  (forall n, S n -> truthy_str (parent_id n) = true /\
                    exists p, parent_of db n = Some p /\ S p) ->
  db node_id = Some node -> S node ->
  get_breadcrumb_path db fuel node_id = OutOfFuel.
Proof.
  intros Hclosed Hn Hs. unfold get_breadcrumb_path. rewrite Hn.
  rewrite (breadcrumb_loop_diverges db S Hclosed fuel node [] Hs). reflexivity.
Qed.

Lemma breadcrumb_loops_on_parent_cycle_witness :
  get_breadcrumb_path cyclic_db 1000 "x" = OutOfFuel.
Proof.
  apply (breadcrumb_loops_on_parent_cycle cyclic_db
           (fun n => n = (demo_node "x" BRANCH (Some "x") ["x"] 1).2)
           "x" (demo_node "x" BRANCH (Some "x") ["x"] 1).2 1000).
  - intros n ->. split; [reflexivity|]. eexists. split; reflexivity.
  - reflexivity.
  - reflexivity.
Defined.

Lemma breadcrumb_loop_returns (db : string -> option DocumentNode)
    (rank : DocumentNode -> nat) :
  (forall k n p, db k = Some n -> parent_of db n = Some p ->
                 (rank p < rank n)%nat) ->
  forall fuel k n, db k = Some n -> (rank n < fuel)%nat ->
    exists path, breadcrumb_loop db fuel (Some n) [] = Ret (crumb_of n :: path) /\
                 (length path <= rank n)%nat.
Proof.
  intros Hrank. induction fuel as [|fuel IH]; intros k n Hn Hlt; [lia|].
  cbn [breadcrumb_loop]. fold (crumb_of n). cbn [app].
  destruct (truthy_str (parent_id n)) eqn:Ht;
    [|exists []; split; [reflexivity|cbn; lia]].
  rewrite breadcrumb_loop_acc.
  destruct (parent_of db n) as [p|] eqn:Hp.
  - pose proof (Hrank k n p Hn Hp) as Hlt'.
    assert (Hserved : exists kp, db kp = Some p).
    { unfold parent_of in Hp. rewrite Ht in Hp.
      destruct (parent_id n) as [pid|]; [|discriminate]. eauto. }
    destruct Hserved as [kp Hkp].
    destruct (IH kp p Hkp ltac:(lia)) as (path & -> & Hlen).
    cbn [obind app]. eexists. split; [reflexivity|]. cbn [length]. lia.
  - destruct fuel; cbn [breadcrumb_loop obind app];
      (exists []; split; [reflexivity|cbn; lia]).
Qed.

(** X17. When the parent of every stored node ranks strictly below the
    node (for some measure [rank], such as a level that grows downwards),
    [get_breadcrumb_path] returns within [rank + 1] iterations: the path
    has at least one and at most [rank + 1] entries, and its last entry is
    the node's own. *)
Theorem breadcrumb_returns_on_ranked_store (db : string -> option DocumentNode)
    (rank : DocumentNode -> nat) (node_id : string) (node : DocumentNode) :
  (forall k n p, db k = Some n -> parent_of db n = Some p ->
                 (rank p < rank n)%nat) ->
  db node_id = Some node ->
  exists path,
    get_breadcrumb_path db (S (rank node)) node_id = Ret path /\
    (1 <= length path <= S (rank node))%nat /\
    last path = Some (crumb_of node).
Proof.
  intros Hrank Hn. unfold get_breadcrumb_path. rewrite Hn.
  destruct (breadcrumb_loop_returns db rank Hrank (S (rank node)) node_id node Hn
              ltac:(lia)) as (path & -> & Hlen).
  cbn [obind]. eexists. split; [reflexivity|]. split.
  - rewrite length_rev. cbn [length]. lia.
  - cbn [rev]. apply last_snoc.
Qed.

Lemma breadcrumb_returns_on_ranked_store_witness :
  exists path,
    get_breadcrumb_path demo_db 3 "b2" = Ret path /\
    (1 <= length path <= 3)%nat /\
    last path = Some (crumb_of (demo_node "b2" LEAF (Some "B") [] 2).2).
Proof.
  apply (breadcrumb_returns_on_ranked_store demo_db (fun n => Z.to_nat (level n))
           "b2" (demo_node "b2" LEAF (Some "B") [] 2).2).
  - intros k n p Hk Hp. apply dict_get_In_nodes in Hk. cbn in Hk.
    repeat (destruct Hk as [Hk|Hk];
            [injection Hk as <- <-; vm_compute in Hp;
             first [discriminate|injection Hp as <-; vm_compute; lia]|]).
    destruct Hk.
  - reflexivity.
Defined.

(** ** Ranking and related sections *)

Section RankingExtra.
Context {np : Numpy}.

Lemma py_slice_take_nonneg {A} (l : list A) (k : Z) :
  0 <= k -> py_slice l 0 k = take (Z.to_nat k) l.
Proof.
  intros Hk. unfold py_slice, py_slice_bound.
  destruct (Z.ltb_spec 0 0); [lia|].
  destruct (Z.ltb_spec k 0); [lia|].
  assert (Hlen : 0 <= len l) by (unfold len; lia).
  rewrite (Z.min_l 0) by assumption. rewrite Z.sub_0_r. cbn [Z.to_nat skipn].
  change (take (Z.to_nat (Z.min k (len l))) l = take (Z.to_nat k) l).
  destruct (Z.le_ge_cases k (len l)) as [Hle|Hge].
  - rewrite Z.min_l by assumption. reflexivity.
  - rewrite Z.min_r by lia.
    rewrite (take_ge l (Z.to_nat (len l))) by (unfold len; lia).
    rewrite (take_ge l (Z.to_nat k)) by (unfold len in Hge; lia).
    reflexivity.
Qed.

(** X18. Asking [find_similar_nodes] for more results only extends the
    list: for [0 <= top_k <= top_k'], whenever the search with [top_k]
    returns, the search with [top_k'] returns too and the first is an
    initial segment of the second; with [top_k = 0] nothing is returned. *)
Theorem top_k_results_are_a_prefix (h : list DocumentNode)
    (query : option (list float)) (tree : DocumentTree) (top_k top_k' : Z)
    (threshold : float) (result : list (DocumentNode * float)) :
  0 <= top_k <= top_k' ->
  find_similar_nodes h query tree top_k threshold = Ret result ->
  exists result',
    find_similar_nodes h query tree top_k' threshold = Ret result' /\
    result `prefix_of` result' /\
    (top_k = 0 -> result = []).
Proof.
  intros Hk. unfold find_similar_nodes.
  destruct (negb (truthy_list query)).
  - intros [= <-]. exists []. repeat split; reflexivity.
  - destruct (score_nodes query threshold (tree_values h tree) []) as [sims| |];
      cbn [obind]; try discriminate.
    intros [= <-]. eexists. split; [reflexivity|].
    rewrite !py_slice_take_nonneg by lia. split.
    + replace (Z.to_nat top_k) with (Z.to_nat top_k `min` Z.to_nat top_k')%nat by lia.
      rewrite <- take_take. apply prefix_take.
    + intros ->. reflexivity.
Qed.

End RankingExtra.

Lemma top_k_results_are_a_prefix_witness :
  exists result',
    @find_similar_nodes demo_numpy demo_heap (Some [1%float; 0%float]) demo_tree
       2 0.5%float = Ret result' /\
    (map (fun p : DocumentNode * float => (id p.1, p.2))
         [(embedded_node "e1" (Some [1%float; 0%float]), 1%float)])
      `prefix_of` map (fun p => (id p.1, p.2)) result'.
Proof.
  destruct (@top_k_results_are_a_prefix demo_numpy demo_heap (Some [1%float; 0%float])
              demo_tree 1 2 0.5%float
              [(embedded_node "e1" (Some [1%float; 0%float]), 1%float)])
    as (result' & Hrun & [rest ->] & _).
  - lia.
  - vm_compute. reflexivity.
  - exists ([(embedded_node "e1" (Some [1%float; 0%float]), 1%float)] ++ rest).
    split; [exact Hrun|]. rewrite map_app. eexists. reflexivity.
Defined.

Section SearchFailure.
Context {np : Numpy}.

Lemma score_nodes_mismatch (q v : list float) (threshold : float) (n : DocumentNode)
    (values : list DocumentNode) :
  q <> [] -> v <> [] -> length q <> length v ->
  n ∈ values -> embedding n = Some v ->
  forall acc, returned (score_nodes (Some q) threshold values acc) = false.
Proof.
  intros Hq Hv Hlen Hin He.
  induction values as [|node rest IH]; intros acc; [inversion Hin|].
  cbn [score_nodes].
  assert (Hstep : node = n \/ n ∈ rest).
  { apply elem_of_cons in Hin as [->|Hin]; auto. }
  destruct Hstep as [->|Hrest].
  - rewrite He. destruct v as [|x v]; [congruence|]. cbn [truthy_list].
    unfold compute_similarity. destruct q as [|y q]; [congruence|].
    cbn [truthy_list negb orb].
    rewrite (np_dot_shapes (y :: q) (x :: v) Hlen). reflexivity.
  - destruct (truthy_list (embedding node)); [|apply IH; exact Hrest].
    destruct (compute_similarity (Some q) (embedding node)) as [s| |]; cbn [obind];
      try reflexivity.
    destruct (PrimFloat.leb threshold s); apply IH; exact Hrest.
Qed.

(** X19. One embedding of another dimension breaks the whole search: if
    some node of the tree carries a non-empty embedding whose length
    differs from the (non-empty) query's, [find_similar_nodes] returns no
    result list at all, whatever the other nodes, [top_k] and threshold
    are -- [np.dot] raises and nothing catches it. *)
Theorem mismatched_embedding_fails_search (h : list DocumentNode)
    (q v : list float) (tree : DocumentTree) (top_k : Z) (threshold : float)
    (n : DocumentNode) :
  q <> [] -> v <> [] -> length q <> length v ->
  n ∈ tree_values h tree -> embedding n = Some v ->
  returned (find_similar_nodes h (Some q) tree top_k threshold) = false.
Proof.
  intros Hq Hv Hlen Hin He. unfold find_similar_nodes.
  destruct q as [|y q]; [congruence|]. cbn [truthy_list negb].
  pose proof (score_nodes_mismatch (y :: q) v threshold n (tree_values h tree)
                Hq Hv Hlen Hin He []) as Hs.
  destruct (score_nodes (Some (y :: q)) threshold (tree_values h tree) []);
    [discriminate|reflexivity..].
Qed.

End SearchFailure.

Lemma mismatched_embedding_fails_search_witness :
  returned (@find_similar_nodes demo_numpy demo_heap
              (Some [1%float; 0%float; 0%float]) demo_tree 2 0.5%float) = false.
Proof.
  apply (@mismatched_embedding_fails_search demo_numpy demo_heap
           [1%float; 0%float; 0%float] [3%float; 4%float] demo_tree 2 0.5%float
           (embedded_node "e2" (Some [3%float; 4%float]))).
  - discriminate.
  - discriminate.
  - cbn. lia.
  - right. left.
  - reflexivity.
Defined.

(** *** Previews *)

Lemma rfind_from_spec (c : ascii) (s : list ascii) :
  forall i last_seen,
    rfind_from c s i last_seen = last_seen \/
    (i <= rfind_from c s i last_seen < i + len s /\
     s !! Z.to_nat (rfind_from c s i last_seen - i) = Some c).
Proof.
  induction s as [|x s IH]; intros i last_seen; cbn [rfind_from]; [left; reflexivity|].
  assert (Hl : len (x :: s) = len s + 1) by (unfold len; cbn [length]; lia).
  assert (Hl0 : 0 <= len s) by (unfold len; lia).
  destruct (IH (i + 1) (if Ascii.eqb x c then i else last_seen)) as [Hr|[Hr Hs]].
  - rewrite Hr. destruct (Ascii.eqb_spec x c) as [->|_]; [right|left; reflexivity].
    split; [lia|]. rewrite Z.sub_diag. reflexivity.
  - right. split; [lia|].
    replace (Z.to_nat (rfind_from c s (i + 1) (if Ascii.eqb x c then i else last_seen) - i))
      with (S (Z.to_nat (rfind_from c s (i + 1)
                           (if Ascii.eqb x c then i else last_seen) - (i + 1))))
      by lia.
    exact Hs.
Qed.

Lemma rfind_spec (c : ascii) (s : list ascii) :
  rfind c s = -1 \/ (0 <= rfind c s < len s /\ s !! Z.to_nat (rfind c s) = Some c).
Proof.
  unfold rfind. destruct (rfind_from_spec c s 0 (-1)) as [H|[H1 H2]]; [left; exact H|].
  right. rewrite Z.sub_0_r in H2. split; [lia|exact H2].
Qed.

Lemma list_ascii_of_string_app (a b : string) :
  list_ascii_of_string (String.append a b)
  = list_ascii_of_string a ++ list_ascii_of_string b.
Proof.
  induction a as [|x a IH]; [reflexivity|].
  change (x :: list_ascii_of_string (String.append a b)
          = x :: (list_ascii_of_string a ++ list_ascii_of_string b)).
  rewrite IH. reflexivity.
Qed.

Lemma py_slice_prefix_of {A} (l : list A) (hi : Z) : py_slice l 0 hi `prefix_of` l.
Proof.
  unfold py_slice, py_slice_bound.
  destruct (Z.ltb_spec 0 0); [lia|].
  assert (Hlen : 0 <= len l) by (unfold len; lia).
  rewrite (Z.min_l 0) by assumption. cbn [Z.to_nat skipn]. apply prefix_take.
Qed.

Lemma py_slice_len_le {A} (l : list A) (hi : Z) :
  0 <= hi -> len (py_slice l 0 hi) <= hi.
Proof.
  intros H. rewrite py_slice_take_nonneg by assumption.
  unfold len. rewrite length_take. lia.
Qed.

(** X20. A preview is the node's text (its summary, or its content when
    the summary is empty) when that has at most [max_length] characters;
    otherwise it is an initial part of the text followed by three dots,
    and for [max_length >= 0] that part has at most [max_length]
    characters. *)
Theorem preview_is_text_or_cut (node : DocumentNode) (max_length : Z) (p : string) :
  _generate_preview node max_length = SRet p ->
  let chars := list_ascii_of_string (preview_text node) in
  if len chars <=? max_length then p = preview_text node
  else exists cut,
      cut `prefix_of` chars /\
      list_ascii_of_string p = cut ++ list_ascii_of_string "..." /\
      (0 <= max_length -> len cut <= max_length).
Proof.
  unfold _generate_preview. cbv zeta.
  destruct (len (list_ascii_of_string (preview_text node)) <=? max_length);
    [intros [= <-]; reflexivity|].
  destruct (float_of_int max_length) as [f| |]; cbn [sbind]; try discriminate.
  set (chars := list_ascii_of_string (preview_text node)).
  set (truncated := py_slice chars 0 max_length).
  destruct (int_gt_float _ _); intros [= <-].
  - exists (py_slice truncated 0 (rfind " "%char truncated)).
    rewrite list_ascii_of_string_app, list_ascii_of_string_of_list_ascii.
    split; [|split; [reflexivity|]].
    + etransitivity; apply py_slice_prefix_of.
    + intros H. pose proof (py_slice_len_le chars max_length H) as H1.
      pose proof (prefix_length _ _ (py_slice_prefix_of truncated (rfind " "%char truncated))).
      fold truncated in H1. unfold len in *. lia.
  - exists truncated.
    rewrite list_ascii_of_string_app, list_ascii_of_string_of_list_ascii.
    split; [apply py_slice_prefix_of|]. split; [reflexivity|].
    apply py_slice_len_le.
Qed.

Lemma preview_is_text_or_cut_witness :
  exists cut,
    cut `prefix_of` list_ascii_of_string "one two three" /\
    list_ascii_of_string "one two..." = cut ++ list_ascii_of_string "..." /\
    (0 <= 8 -> len cut <= 8).
Proof.
  apply (preview_is_text_or_cut
           (mkNode "n" "body" "one two three" None LEAF None [] "doc" 1 None None [])
           8 "one two...").
  vm_compute. reflexivity.
Defined.

Lemma float_of_int_200 : float_of_int 200 = SRet 200%float.
Proof. vm_compute. reflexivity. Qed.

Lemma default_bound : PrimFloat.mul 200 point_eight = 160%float.
Proof. vm_compute. reflexivity. Qed.

Lemma int_gt_float_160 (i : Z) : int_gt_float i 160 = (160 <? i).
Proof.
  unfold int_gt_float.
  replace (Prim2SF 160) with (S754_finite false 5629499534213120 (-45))
    by (vm_compute; reflexivity).
  cbn [Z.leb Z.compare Z.opp]. change (2 ^ 45) with 35184372088832.
  destruct (Z.ltb_spec 5629499534213120 (i * 35184372088832));
    destruct (Z.ltb_spec 160 i); try reflexivity; lia.
Qed.

(** X21. With the default [max_length = 200], which is what every caller
    uses, [_generate_preview] always returns: the text itself when it has
    at most 200 characters, and otherwise between 161 and 200 leading
    characters of the text followed by three dots; when fewer than 200
    are kept, the text was cut just before a space. *)
Theorem default_preview_bounds (node : DocumentNode) :
  exists p,
    _generate_preview node 200 = SRet p /\
    let chars := list_ascii_of_string (preview_text node) in
    if len chars <=? 200 then p = preview_text node
    else exists cut,
        cut `prefix_of` chars /\
        list_ascii_of_string p = cut ++ list_ascii_of_string "..." /\
        160 < len cut <= 200 /\
        (len cut < 200 -> chars !! length cut = Some " "%char).
Proof.
  unfold _generate_preview. cbv zeta.
  destruct (Z.leb_spec (len (list_ascii_of_string (preview_text node))) 200)
    as [Hle|Hgt]; [eexists; split; reflexivity|].
  rewrite float_of_int_200. cbn [sbind]. rewrite default_bound, int_gt_float_160.
  set (chars := list_ascii_of_string (preview_text node)) in *.
  set (truncated := py_slice chars 0 200).
  assert (Htr : truncated = take 200 chars)
    by (unfold truncated; rewrite py_slice_take_nonneg by lia; reflexivity).
  assert (Hlen : length truncated = 200%nat).
  { rewrite Htr, length_take. unfold len in Hgt. lia. }
  destruct (Z.ltb_spec 160 (rfind " "%char truncated)) as [Hsp|Hno].
  - eexists. split; [reflexivity|].
    exists (py_slice truncated 0 (rfind " "%char truncated)).
    rewrite list_ascii_of_string_app, list_ascii_of_string_of_list_ascii.
    destruct (rfind_spec " "%char truncated) as [Hm|[Hr Hget]]; [lia|].
    rewrite py_slice_take_nonneg by lia.
    assert (Hcut : length (take (Z.to_nat (rfind " "%char truncated)) truncated)
                   = Z.to_nat (rfind " "%char truncated)).
    { rewrite length_take. unfold len in Hr. lia. }
    split; [|split; [reflexivity|split]].
    + etransitivity; [apply prefix_take|]. rewrite Htr. apply prefix_take.
    + unfold len. rewrite Hcut. unfold len in Hr. lia.
    + intros _. rewrite Hcut.
      rewrite <- (lookup_take_lt chars 200) by (unfold len in Hr; lia).
      rewrite <- Htr. exact Hget.
  - eexists. split; [reflexivity|]. exists truncated.
    rewrite list_ascii_of_string_app, list_ascii_of_string_of_list_ascii.
    split; [rewrite Htr; apply prefix_take|]. split; [reflexivity|].
    unfold len. rewrite Hlen. split; lia.
Qed.

Section Related.
Context {np : Numpy}.

Lemma format_related_spec (node : DocumentNode)
    (similar_nodes : list (DocumentNode * float)) :
  forall acc, exists new,
    format_related node similar_nodes acc = SRet (acc ++ new) /\
    Forall (related_entry node) new /\
    map (fun r => (result_node r, result_similarity r)) new `sublist_of` similar_nodes.
Proof.
  induction similar_nodes as [|[similar_node similarity] rest IH]; intros acc.
  - exists []. rewrite app_nil_r. repeat split; constructor.
  - cbn [format_related].
    destruct (String.eqb (id similar_node) (id node)) eqn:Eid; cbn [negb].
    + destruct (IH acc) as (new & -> & Hnew & Hsub).
      exists new. repeat split; auto. apply sublist_cons. exact Hsub.
    + destruct (default_preview_bounds similar_node) as (p & Hp & _).
      rewrite Hp. cbn [sbind].
      destruct (IH (acc ++ [mkSearchResult similar_node similarity
                              (get_page_range similar_node) p]))
        as (new & -> & Hnew & Hsub).
      exists (mkSearchResult similar_node similarity (get_page_range similar_node) p
                :: new).
      rewrite <- app_assoc. split; [reflexivity|]. split.
      * constructor; [|exact Hnew]. repeat split; assumption.
      * cbn [map]. apply sublist_skip. exact Hsub.
Qed.

(** X22. [find_related_sections] returns whenever the similarity search
    it starts from does (with [2 * top_k] and threshold 0.5): the result
    never contains a node with the identifier of the reference node, it
    keeps the order and the similarities of the search results, each
    entry carries its node's page range and default preview, and for
    [top_k >= 0] there are at most [top_k] entries. *)
Theorem related_sections_exclude_the_node (h : list DocumentNode)
    (node : DocumentNode) (tree : DocumentTree) (top_k : Z)
    (similar_nodes : list (DocumentNode * float)) :
  find_similar_nodes h (embedding node) tree (top_k * 2) 0.5%float
    = Ret similar_nodes ->
  exists related,
    find_related_sections h node tree top_k = SRet related /\
    Forall (related_entry node) related /\
    map (fun r => (result_node r, result_similarity r)) related
      `sublist_of` similar_nodes /\
    (0 <= top_k -> len related <= top_k).
Proof.
  intros Hsim. unfold find_related_sections.
  destruct (truthy_list (embedding node)) eqn:Et; cbn [negb].
  - rewrite Hsim. cbn [of_outcome sbind].
    destruct (format_related_spec node similar_nodes []) as (new & -> & Hnew & Hsub).
    cbn [sbind app]. eexists. split; [reflexivity|].
    pose proof (py_slice_prefix_of new top_k) as [rest Hrest].
    split; [|split].
    + rewrite Hrest in Hnew. apply Forall_app in Hnew as [Hnew _]. exact Hnew.
    + etransitivity; [|exact Hsub]. rewrite Hrest at 2. rewrite map_app.
      apply sublist_inserts_r. reflexivity.
    + apply py_slice_len_le.
  - exists []. repeat split; [constructor|apply sublist_nil_l|unfold len; cbn; lia].
Qed.

End Related.

Lemma related_sections_exclude_the_node_witness :
  exists related,
    @find_related_sections demo_numpy demo_heap
       (embedded_node "e1" (Some [1%float; 0%float])) demo_tree 1 = SRet related /\
    Forall (related_entry (embedded_node "e1" (Some [1%float; 0%float]))) related /\
    map (fun r => (result_node r, result_similarity r)) related
      `sublist_of` [(embedded_node "e1" (Some [1%float; 0%float]), 1%float);
                    (embedded_node "e3" (Some [2%float; 0%float]), 1%float)] /\
    (0 <= 1 -> len related <= 1).
Proof.
  apply (@related_sections_exclude_the_node demo_numpy demo_heap
           (embedded_node "e1" (Some [1%float; 0%float])) demo_tree 1).
  vm_compute. reflexivity.
Defined.

(** ** The links the builder creates *)

(** *** Rules for partial correctness *)

Lemma hoare_ret {A} (a : A) (P : world -> Prop) (Q : A -> world -> Prop) :
  (forall w, P w -> Q a w) -> hoare P (mret a) Q.
Proof. intros H w a' w' HP [= <- <-]. apply H, HP. Qed.

Lemma hoare_bind {A B} (m : M A) (k : A -> M B) (P : world -> Prop)
    (R : A -> world -> Prop) (Q : B -> world -> Prop) :
  hoare P m R -> (forall a, hoare (R a) (k a) Q) -> hoare P (mbind m k) Q.
Proof.
  intros Hm Hk w b w' HP. unfold mbind.
  destruct (m w) as [[a w1]| |] eqn:E; try discriminate.
  intros Hrun. exact (Hk a w1 b w' (Hm w a w1 HP E) Hrun).
Qed.

Lemma hoare_conseq {A} (m : M A) (P P' : world -> Prop) (Q Q' : A -> world -> Prop) :
  hoare P' m Q' -> (forall w, P w -> P' w) -> (forall a w, Q' a w -> Q a w) ->
  hoare P m Q.
Proof. intros H HP HQ w a w' Hw Hrun. apply HQ, (H w a w'); auto. Qed.

Lemma hoare_lift {A} (o : outcome A) (P : world -> Prop) :
  hoare P (lift o) (fun a w => P w /\ o = Ret a).
Proof.
  intros w a w' HP. unfold lift. destruct o; try discriminate.
  intros [= <- <-]. auto.
Qed.

Lemma hoare_get_attr {A} (f : DocumentNode -> A) (r : ref) (P : world -> Prop) :
  hoare P (get_attr f r)
        (fun a w => P w /\ exists n, heap w !! r = Some n /\ a = f n).
Proof.
  intros w a w' HP. unfold get_attr. destruct (heap w !! r) as [n|] eqn:E;
    [|discriminate].
  intros [= <- <-]. eauto.
Qed.

Lemma hoare_set_attr (upd : DocumentNode -> DocumentNode) (r : ref)
    (P : world -> Prop) :
  hoare P (set_attr upd r)
        (fun _ w' => exists w n, P w /\ heap w !! r = Some n /\
                                 w' = mkWorld (<[r := upd n]> (heap w)) (uuid_count w)).
Proof.
  intros w a w' HP. unfold set_attr. destruct (heap w !! r) as [n|] eqn:E;
    [|discriminate].
  intros [= <- <-]. eauto.
Qed.

Lemma hoare_new_node (n : DocumentNode) (P : world -> Prop) :
  hoare P (new_node n)
        (fun r w' => exists w, P w /\ r = length (heap w) /\
                               w' = mkWorld (heap w ++ [n]) (uuid_count w)).
Proof. intros w a w' HP [= <- <-]. eauto. Qed.

Lemma hoare_fresh_uuid (uuid4 : nat -> string) (P : world -> Prop) :
  hoare P (fresh_uuid uuid4)
        (fun nid w' => exists w, P w /\ nid = uuid4 (uuid_count w) /\
                                 w' = mkWorld (heap w) (S (uuid_count w))).
Proof. intros w a w' HP [= <- <-]. eauto. Qed.

(** A loop that only reads leaves the world as it was. *)
Lemma hoare_read_all {A} (f : DocumentNode -> A) (group : list ref)
    (P : world -> Prop) :
  hoare P (mmap (get_attr f) group) (fun _ w => P w).
Proof.
  induction group as [|r group IH]; cbn [mmap].
  - apply hoare_ret. auto.
  - eapply hoare_bind; [apply hoare_get_attr|]. intros a. cbv beta.
    eapply hoare_bind.
    + eapply hoare_conseq; [apply IH| |intros ? ? H; exact H].
      intros w [H _]. exact H.
    + intros ys. apply hoare_ret. auto.
Qed.

(** [mmap] with an invariant over what is left to do and the results so
    far. *)
Lemma hoare_mmap {A B} (f : A -> M B) (I : list A -> list B -> world -> Prop) :
  (forall x rest ys, hoare (I (x :: rest) ys) (f x) (fun y w' => I rest (ys ++ [y]) w')) ->
  forall l acc, hoare (I l acc) (mmap f l) (fun ys w' => I [] (acc ++ ys) w').
Proof.
  intros Hf. induction l as [|x l IH]; intros acc; cbn [mmap].
  - apply hoare_ret. intros w H. rewrite app_nil_r. exact H.
  - eapply hoare_bind; [apply Hf|]. intros y. cbv beta.
    eapply hoare_bind; [apply IH|]. intros ys. cbv beta.
    apply hoare_ret. intros w H. rewrite <- app_assoc in H. exact H.
Qed.

(** [mfold] with an invariant over the accumulator and what is left. *)
Lemma hoare_mfold {A S} (f : S -> A -> M S) (I : S -> list A -> world -> Prop) :
  (forall s x rest, hoare (I s (x :: rest)) (f s x) (fun s' w' => I s' rest w')) ->
  forall l s, hoare (I s l) (mfold f s l) (fun s' w' => I s' [] w').
Proof.
  intros Hf. induction l as [|x l IH]; intros s; cbn [mfold].
  - apply hoare_ret. auto.
  - eapply hoare_bind; [apply Hf|]. intros s'. apply IH.
Qed.

(** *** Steps that keep the links coherent *)

Section Links.
Variable uuid4 : nat -> string.
Hypothesis uuid4_inj : forall a b, uuid4 a = uuid4 b -> a = b.

Lemma linked_nil (count : nat) : linked uuid4 [] count.
Proof. split; intros; discriminate. Qed.

Lemma linked_append (L : list Link) (count : nat) :
  linked uuid4 L count ->
  linked uuid4 (L ++ [mkLink (uuid4 count) None []]) (S count).
Proof.
  intros [Hids Huniq Hup Hdown Hnodup].
  assert (Hcases : forall r l, (L ++ [mkLink (uuid4 count) None []]) !! r = Some l ->
            L !! r = Some l \/ (r = length L /\ l = mkLink (uuid4 count) None [])).
  { intros r l H. apply lookup_app_Some in H as [H|[Hge H]]; [left; exact H|right].
    destruct (r - length L)%nat as [|k] eqn:E; [|discriminate].
    injection H as <-. split; [lia|reflexivity]. }
  assert (Hold : forall r l, L !! r = Some l ->
                             (L ++ [mkLink (uuid4 count) None []]) !! r = Some l).
  { intros r l H. apply lookup_app_l_Some. exact H. }
  split.
  - intros r l H. destruct (Hcases r l H) as [Ho|[_ ->]].
    + destruct (Hids r l Ho) as (k & Hk & Hid). exists k. split; [lia|exact Hid].
    + exists count. split; [lia|reflexivity].
  - intros r1 r2 l1 l2 H1 H2 Hid.
    destruct (Hcases r1 l1 H1) as [Ho1|[-> ->]];
      destruct (Hcases r2 l2 H2) as [Ho2|[-> ->]].
    + eapply Huniq; eauto.
    + destruct (Hids r1 l1 Ho1) as (k & Hk & Hid1). cbn in Hid.
      rewrite Hid1 in Hid. apply uuid4_inj in Hid. lia.
    + destruct (Hids r2 l2 Ho2) as (k & Hk & Hid2). cbn in Hid.
      rewrite Hid2 in Hid. apply uuid4_inj in Hid. lia.
    + reflexivity.
  - intros r l pid H Hp. destruct (Hcases r l H) as [Ho|[_ ->]]; [|discriminate].
    destruct (Hup r l pid Ho Hp) as (rp & lp & H1 & H2 & H3).
    exists rp, lp. auto.
  - intros rp lp cid H Hin. destruct (Hcases rp lp H) as [Ho|[_ ->]]; [|inversion Hin].
    destruct (Hdown rp lp cid Ho Hin) as (r & l & H1 & H2 & H3).
    exists r, l. auto.
  - intros r l H. destruct (Hcases r l H) as [Ho|[_ ->]]; [eauto|constructor].
Qed.

Lemma linked_adopt (L : list Link) (count p c : nat) (lp lc : Link) :
  linked uuid4 L count ->
  L !! p = Some lp -> L !! c = Some lc -> p <> c ->
  lparent lc = None -> lid lc ∉ lkids lp ->
  linked uuid4
    (<[c := mkLink (lid lc) (Some (lid lp)) (lkids lc)]>
       (<[p := mkLink (lid lp) (lparent lp) (lkids lp ++ [lid lc])]> L))
    count.
Proof.
  intros [Hids Huniq Hup Hdown Hnodup] Hp Hc Hne Horphan Hnew.
  set (newp := mkLink (lid lp) (lparent lp) (lkids lp ++ [lid lc])).
  set (newc := mkLink (lid lc) (Some (lid lp)) (lkids lc)).
  set (L' := <[c := newc]> (<[p := newp]> L)).
  assert (Hlp : (p < length L)%nat) by (eapply lookup_lt_Some; eauto).
  assert (Hlc : (c < length L)%nat) by (eapply lookup_lt_Some; eauto).
  assert (Hatc : L' !! c = Some newc).
  { apply list_lookup_insert_eq. rewrite length_insert. exact Hlc. }
  assert (Hatp : L' !! p = Some newp).
  { unfold L'. rewrite list_lookup_insert_ne by congruence.
    apply list_lookup_insert_eq. exact Hlp. }
  assert (Hother : forall r, r <> c -> r <> p -> L' !! r = L !! r).
  { intros r H1 H2. unfold L'. rewrite !list_lookup_insert_ne by congruence.
    reflexivity. }
  assert (F1 : forall r l', L' !! r = Some l' ->
            exists l, L !! r = Some l /\ lid l' = lid l /\
                      (r <> c -> lparent l' = lparent l) /\
                      (r <> p -> lkids l' = lkids l) /\
                      (r = p -> l = lp /\ lkids l' = lkids lp ++ [lid lc]) /\
                      (r = c -> lparent l' = Some (lid lp))).
  { intros r l' H. destruct (decide (r = c)) as [->|Hrc].
    - rewrite Hatc in H. injection H as <-. exists lc.
      repeat split; try reflexivity; try congruence.
    - destruct (decide (r = p)) as [->|Hrp].
      + rewrite Hatp in H. injection H as <-. exists lp.
        repeat split; try reflexivity; try congruence.
      + rewrite Hother in H by assumption. exists l'.
        repeat split; try reflexivity; try congruence. }
  assert (F2 : forall r l, L !! r = Some l ->
            exists l', L' !! r = Some l' /\ lid l' = lid l /\
                       (forall x, x ∈ lkids l -> x ∈ lkids l') /\
                       (r <> c -> lparent l' = lparent l)).
  { intros r l H. destruct (decide (r = c)) as [->|Hrc].
    - exists newc. rewrite Hc in H. injection H as <-.
      repeat split; auto. congruence.
    - destruct (decide (r = p)) as [->|Hrp].
      + exists newp. rewrite Hp in H. injection H as <-.
        repeat split; auto. intros x Hx. cbn. apply elem_of_app. left. exact Hx.
      + exists l. rewrite Hother by assumption. repeat split; auto. }
  split.
  - intros r l' H. destruct (F1 r l' H) as (l & Hl & -> & _). eauto.
  - intros r1 r2 l1 l2 H1 H2 Hid.
    destruct (F1 r1 l1 H1) as (l1' & Hl1 & E1 & _).
    destruct (F1 r2 l2 H2) as (l2' & Hl2 & E2 & _).
    eapply Huniq; eauto. congruence.
  - intros r l' pid H Hpar. destruct (F1 r l' H) as (l & Hl & Eid & Epar & _ & _ & Ec).
    destruct (decide (r = c)) as [->|Hrc].
    + rewrite (Ec eq_refl) in Hpar. injection Hpar as <-.
      exists p, newp. split; [exact Hatp|]. split; [reflexivity|].
      rewrite Eid. rewrite Hc in Hl. injection Hl as <-.
      cbn. apply elem_of_app. right. left.
    + rewrite (Epar Hrc) in Hpar.
      destruct (Hup r l pid Hl Hpar) as (rp & lp0 & Hrp & Hpid & Hin).
      destruct (F2 rp lp0 Hrp) as (lp0' & Hrp' & Eid' & Hsub & _).
      exists rp, lp0'. split; [exact Hrp'|]. split; [congruence|].
      rewrite Eid. apply Hsub. exact Hin.
  - intros rp lp' cid H Hin.
    destruct (F1 rp lp' H) as (lp0 & Hl & Eid & _ & Ekids & Ep & _).
    assert (Hold : cid ∈ lkids lp0 ->
                   exists r l, L' !! r = Some l /\ lid l = cid /\
                               lparent l = Some (lid lp')).
    { intros Hin0. destruct (Hdown rp lp0 cid Hl Hin0) as (r & l & Hr & Hcid & Hpar).
      assert (Hrc : r <> c).
      { intros ->. rewrite Hc in Hr. injection Hr as <-. congruence. }
      destruct (F2 r l Hr) as (l' & Hr' & Eid' & _ & Epar').
      exists r, l'. split; [exact Hr'|]. split; [congruence|].
      rewrite (Epar' Hrc), Eid. exact Hpar. }
    destruct (decide (rp = p)) as [->|Hrp].
    + destruct (Ep eq_refl) as [-> Ek]. rewrite Ek in Hin.
      apply elem_of_app in Hin as [Hin|Hin]; [apply Hold; exact Hin|].
      apply list_elem_of_singleton in Hin. subst cid.
      exists c, newc. split; [exact Hatc|]. split; [reflexivity|].
      cbn. rewrite Eid. reflexivity.
    + rewrite (Ekids Hrp) in Hin. apply Hold. exact Hin.
  - intros r l' H. destruct (F1 r l' H) as (l & Hl & _ & _ & Ekids & Ep & _).
    destruct (decide (r = p)) as [->|Hrp].
    + destruct (Ep eq_refl) as [-> Ek]. rewrite Ek.
      apply NoDup_app. split; [eapply Hnodup; eauto|]. split.
      * intros x Hx Hx'. apply list_elem_of_singleton in Hx'. subst x. contradiction.
      * apply NoDup_singleton.
    + rewrite (Ekids Hrp). eapply Hnodup; eauto.
Qed.

End Links.

Lemma keeps_refl (L : list Link) : keeps [] L L.
Proof. intros r l H. exists l. auto. Qed.

Lemma keeps_trans (A B C : list nat) (L0 L1 L2 : list Link) :
  keeps A L0 L1 -> keeps B L1 L2 -> A ⊆ C -> B ⊆ C -> keeps C L0 L2.
Proof.
  intros H01 H12 HA HB r l H.
  destruct (H01 r l H) as (l1 & H1 & E1 & P1).
  destruct (H12 r l1 H1) as (l2 & H2 & E2 & P2).
  exists l2. split; [exact H2|]. split; [congruence|].
  intros Hr. rewrite P2, P1; auto.
Qed.

Lemma keeps_same (A : list nat) (L : list Link) : keeps A L L.
Proof. intros r l H. exists l. auto. Qed.

Lemma keeps_app (L : list Link) (x : Link) : keeps [] L (L ++ [x]).
Proof. intros r l H. exists l. split; [apply lookup_app_l_Some; exact H|auto]. Qed.

Lemma keeps_orphan (A : list nat) (L L' : list Link) (r : nat) :
  keeps A L L' -> r ∉ A -> orphan L r -> orphan L' r.
Proof.
  intros Hk Hr (l & Hl & Hp). destruct (Hk r l Hl) as (l' & Hl' & _ & Hp').
  exists l'. split; [exact Hl'|]. rewrite Hp' by exact Hr. exact Hp.
Qed.

Lemma links_lookup (w : world) (r : nat) (l : Link) :
  links w !! r = Some l -> exists n, heap w !! r = Some n /\ link_view n = l.
Proof.
  unfold links. rewrite list_lookup_fmap.
  destruct (heap w !! r) as [n|]; [|discriminate].
  intros [= <-]. eauto.
Qed.

Lemma links_lookup_node (w : world) (r : nat) (n : DocumentNode) :
  heap w !! r = Some n -> links w !! r = Some (link_view n).
Proof. intros H. unfold links. rewrite list_lookup_fmap, H. reflexivity. Qed.

Lemma link_view_with_child (cid : string) (n : DocumentNode) :
  link_view (with_child cid n)
  = mkLink (id n) (parent_id n) (children_ids n ++ [cid]).
Proof. unfold with_child. destruct (NodeType_eqb (node_type n) LEAF); reflexivity. Qed.

(** *** Reading a run backwards *)

Lemma mbind_inv {A B} (m : M A) (k : A -> M B) (w w' : world) (b : B) :
  mbind m k w = Ret (b, w') ->
  exists a w1, m w = Ret (a, w1) /\ k a w1 = Ret (b, w').
Proof.
  unfold mbind. destruct (m w) as [[a w1]| |]; try discriminate. eauto.
Qed.

Lemma read_all_inv {A} (f : DocumentNode -> A) (group : list ref) (w w' : world)
    (ys : list A) :
  mmap (get_attr f) group w = Ret (ys, w') -> w' = w.
Proof.
  intros H. exact (hoare_read_all f group (fun x => x = w) w ys w' eq_refl H).
Qed.

Lemma lift_inv {A} (o : outcome A) (w w' : world) (a : A) :
  lift o w = Ret (a, w') -> w' = w /\ o = Ret a.
Proof.
  unfold lift. destruct o; try discriminate. intros [= <- <-]. auto.
Qed.

Lemma set_attr_inv (upd : DocumentNode -> DocumentNode) (r : ref) (w w' : world)
    (a : unit) :
  set_attr upd r w = Ret (a, w') ->
  exists n, heap w !! r = Some n /\
            w' = mkWorld (<[r := upd n]> (heap w)) (uuid_count w).
Proof.
  unfold set_attr. destruct (heap w !! r) as [n|]; [|discriminate].
  intros [= _ <-]. eauto.
Qed.

Lemma get_attr_inv {A} (f : DocumentNode -> A) (r : ref) (w w' : world) (a : A) :
  get_attr f r w = Ret (a, w') ->
  w' = w /\ exists n, heap w !! r = Some n /\ a = f n.
Proof.
  unfold get_attr. destruct (heap w !! r) as [n|]; [|discriminate].
  intros [= <- <-]. eauto.
Qed.

Lemma py_slice_lookup {A} (l : list A) (lo hi : Z) (x : A) :
  0 <= lo <= hi -> x ∈ py_slice l lo hi ->
  exists j : nat, lo <= Z.of_nat j < hi /\ l !! j = Some x.
Proof.
  intros Hb Hx. unfold py_slice, py_slice_bound in Hx.
  destruct (Z.ltb_spec lo 0); [lia|]. destruct (Z.ltb_spec hi 0); [lia|].
  apply list_elem_of_lookup in Hx as [i Hi].
  change (take (Z.to_nat (Z.min hi (len l) - Z.min lo (len l)))
               (drop (Z.to_nat (Z.min lo (len l))) l) !! i = Some x) in Hi.
  apply lookup_take_Some in Hi as [Hi Hlt]. rewrite lookup_drop in Hi.
  pose proof (lookup_lt_Some _ _ _ Hi) as Hn. unfold len in *.
  exists (Z.to_nat (Z.min lo (Z.of_nat (length l))) + i)%nat.
  split; [lia|exact Hi].
Qed.

Lemma py_slice_NoDup {A} (l : list A) (lo hi : Z) :
  NoDup l -> NoDup (py_slice l lo hi).
Proof.
  intros H. unfold py_slice.
  assert (Hsub : take (Z.to_nat (py_slice_bound (len l) hi - py_slice_bound (len l) lo))
                      (drop (Z.to_nat (py_slice_bound (len l) lo)) l) `sublist_of` l)
    by (etransitivity; [apply sublist_take|apply sublist_drop]).
  eapply sublist_NoDup; [exact H|exact Hsub].
Qed.

Lemma groups_disjoint {A} (l : list A) (g : Z) (k k' : nat) (c : A) :
  NoDup l -> 0 < g -> k <> k' ->
  c ∈ py_slice l (0 + Z.of_nat k * g) (0 + Z.of_nat k * g + g) ->
  c ∈ py_slice l (0 + Z.of_nat k' * g) (0 + Z.of_nat k' * g + g) ->
  False.
Proof.
  intros Hnd Hg Hne H1 H2.
  apply py_slice_lookup in H1 as (j & Hj & Hl); [|nia].
  apply py_slice_lookup in H2 as (j' & Hj' & Hl'); [|nia].
  pose proof (NoDup_lookup _ _ _ _ Hnd Hl Hl') as ->.
  assert (Hcases : (k < k' \/ k' < k)%nat) by lia.
  destruct Hcases; nia.
Qed.

Section BuilderLinks.
Variable uuid4 : nat -> string.
Hypothesis uuid4_inj : forall a b, uuid4 a = uuid4 b -> a = b.

Lemma add_child_spec (p c : ref) (L0 : list Link) (cnt : nat) :
  p <> c -> linked uuid4 L0 cnt -> orphan L0 c ->
  hoare (fun w => links w = L0 /\ uuid_count w = cnt) (add_child p c)
        (fun _ w' => uuid_count w' = cnt /\ linked uuid4 (links w') cnt /\
                     length (links w') = length L0 /\ keeps [c] L0 (links w')).
Proof.
  intros Hne Hlinked (lc & Hlc & Horphan) w a w' [HL Hcnt] Hrun. subst L0.
  destruct (links_lookup w c lc Hlc) as (cn & Hc & Ecn).
  destruct (heap w !! p) as [pn|] eqn:Hp.
  2:{ unfold add_child, mbind, get_attr in Hrun. rewrite Hc, Hp in Hrun.
      discriminate. }
  destruct (decide (id cn ∈ children_ids pn)) as [Hin|Hnot].
  - rewrite (add_child_present p c w pn cn Hp Hc Hin) in Hrun.
    injection Hrun as _ <-.
    split; [exact Hcnt|]. split; [exact Hlinked|]. split; [reflexivity|].
    intros r l H. exists l. auto.
  - rewrite (add_child_absent p c w pn cn Hp Hc Hne Hnot) in Hrun.
    injection Hrun as _ <-. cbn [uuid_count]. split; [exact Hcnt|].
    assert (El : links (mkWorld (<[c:=adopted_by pn cn]>
                                   (<[p:=with_child (id cn) pn]> (heap w)))
                                (uuid_count w))
                 = <[c := mkLink (lid lc) (Some (lid (link_view pn))) (lkids lc)]>
                     (<[p := mkLink (lid (link_view pn)) (lparent (link_view pn))
                                    (lkids (link_view pn) ++ [lid lc])]> (links w))).
    { unfold links. cbn [heap]. rewrite !list_fmap_insert.
      rewrite link_view_with_child. subst lc. reflexivity. }
    rewrite El. split; [|split].
    + apply linked_adopt; auto.
      * apply links_lookup_node. exact Hp.
      * subst lc. exact Hnot.
    + rewrite !length_insert. reflexivity.
    + intros r l H. destruct (decide (r = c)) as [->|Hrc].
      * eexists. split; [apply list_lookup_insert_eq; rewrite length_insert;
                         eapply lookup_lt_Some; eauto|].
        rewrite Hlc in H. injection H as <-. split; [reflexivity|].
        intros Hn. exfalso. apply Hn. left.
      * rewrite list_lookup_insert_ne by congruence.
        destruct (decide (r = p)) as [->|Hrp].
        -- eexists. split; [apply list_lookup_insert_eq; eapply lookup_lt_Some; eauto|].
           rewrite (links_lookup_node w p pn Hp) in H. injection H as <-.
           split; reflexivity.
        -- rewrite list_lookup_insert_ne by congruence. exists l. auto.
Qed.

Lemma adopt_all_spec (p : ref) (group : list ref) (L0 : list Link) (cnt : nat) :
  linked uuid4 L0 cnt -> NoDup group -> p ∉ group ->
  (forall c, c ∈ group -> orphan L0 c) ->
  hoare (fun w => links w = L0 /\ uuid_count w = cnt) (mmap (add_child p) group)
        (fun _ w' => uuid_count w' = cnt /\ linked uuid4 (links w') cnt /\
                     length (links w') = length L0 /\ keeps group L0 (links w')).
Proof.
  intros Hlinked Hnd Hp Horph.
  pose (I := fun (rest : list ref) (ys : list unit) (w : world) =>
               exists done, done ++ rest = group /\
                 uuid_count w = cnt /\ linked uuid4 (links w) cnt /\
                 length (links w) = length L0 /\ keeps done L0 (links w)).
  eapply hoare_conseq; [apply (hoare_mmap (add_child p) I) with (acc := [])| |].
  - intros x rest ys w a w' (done & Hsplit & Hcnt & Hl & Hlen & Hk) Hrun.
    assert (Hx : x ∈ group) by (rewrite <- Hsplit; apply elem_of_app; right; left).
    assert (Hxd : x ∉ done).
    { rewrite <- Hsplit in Hnd. apply NoDup_app in Hnd as (_ & Hdis & _).
      intros Hd. apply (Hdis x Hd). left. }
    destruct (add_child_spec p x (links w) cnt) with (w := w) (a := a) (w' := w')
      as (Hcnt' & Hl' & Hlen' & Hk'); auto.
    + intros ->. contradiction.
    + eapply keeps_orphan; eauto.
    + exists (done ++ [x]). rewrite <- app_assoc. split; [exact Hsplit|].
      split; [exact Hcnt'|]. split; [exact Hl'|]. split; [congruence|].
      eapply keeps_trans; eauto.
      * intros y Hy. apply elem_of_app. left. exact Hy.
      * intros y Hy. apply elem_of_app. right. exact Hy.
  - intros w [HL Hcnt]. exists []. subst L0.
    split; [reflexivity|]. split; [exact Hcnt|]. split; [exact Hlinked|].
    split; [reflexivity|apply keeps_refl].
  - intros a w (done & Hsplit & Hcnt & Hl & Hlen & Hk). rewrite app_nil_r in Hsplit.
    subst done. auto.
Qed.


Lemma create_parent_node_spec (group : list ref) (doc : string) (lvl : Z)
    (L0 : list Link) (cnt : nat) :
  linked uuid4 L0 cnt -> NoDup group -> (forall c, c ∈ group -> orphan L0 c) ->
  hoare (fun w => links w = L0 /\ uuid_count w = cnt)
        (create_parent_node uuid4 group doc lvl)
        (fun r w' => r = length L0 /\ uuid_count w' = S cnt /\
                     linked uuid4 (links w') (S cnt) /\
                     length (links w') = S (length L0) /\
                     orphan (links w') r /\ keeps group L0 (links w')).
Proof.
  intros Hlinked Hnd Horph w r w' [HL Hcnt] Hrun. unfold create_parent_node in Hrun.
  apply mbind_inv in Hrun as (nid & w1 & H1 & Hrun).
  unfold fresh_uuid in H1. injection H1 as <- <-.
  apply mbind_inv in Hrun as (starts & w2 & H2 & Hrun).
  apply read_all_inv in H2. subst w2.
  apply mbind_inv in Hrun as (pstart & w2 & H2 & Hrun).
  apply lift_inv in H2 as [-> _].
  apply mbind_inv in Hrun as (ends & w2 & H2 & Hrun).
  apply read_all_inv in H2. subst w2.
  apply mbind_inv in Hrun as (pend & w2 & H2 & Hrun).
  apply lift_inv in H2 as [-> _].
  apply mbind_inv in Hrun as (metas & w2 & H2 & Hrun).
  apply read_all_inv in H2. subst w2.
  apply mbind_inv in Hrun as (parent & w2 & H2 & Hrun).
  unfold new_node in H2. cbn [heap uuid_count] in H2. injection H2 as <- <-.
  apply mbind_inv in Hrun as (u & w3 & H3 & Hrun).
  injection Hrun as <- <-.
  set (L1 := L0 ++ [mkLink (uuid4 cnt) None []]).
  assert (HL1 : linked uuid4 L1 (S cnt)) by (apply linked_append; assumption).
  assert (Hlt : forall c, c ∈ group -> (c < length L0)%nat).
  { intros c Hc. destruct (Horph c Hc) as (l & Hl & _).
    eapply lookup_lt_Some; eauto. }
  assert (Hlen0 : length (heap w) = length L0).
  { rewrite <- HL. unfold links. rewrite length_map. reflexivity. }
  assert (Hnotin : length (heap w) ∉ group).
  { intros Hin. apply Hlt in Hin. lia. }
  assert (Horph1 : forall c, c ∈ group -> orphan L1 c).
  { intros c Hc. destruct (Horph c Hc) as (l & Hl & Hp).
    exists l. split; [apply lookup_app_l_Some; exact Hl|exact Hp]. }
  match type of H3 with
  | mmap _ _ ?w2 = _ =>
      assert (Hpre : links w2 = L1 /\ uuid_count w2 = S cnt)
  end.
  { split; [|cbn [uuid_count]; rewrite Hcnt; reflexivity].
    unfold links, L1. cbn [heap].
    rewrite map_app. cbn [map]. fold (links w). rewrite HL, Hcnt. reflexivity. }
  destruct (adopt_all_spec (length (heap w)) group L1 (S cnt) HL1 Hnd Hnotin Horph1
              _ _ _ Hpre H3) as (Hc' & Hl' & Hlen' & Hk').
  split; [exact Hlen0|]. split; [exact Hc'|]. split; [exact Hl'|].
  split; [rewrite Hlen'; unfold L1; rewrite length_app; cbn; lia|].
  split.
  - eapply keeps_orphan; [exact Hk'|exact Hnotin|].
    exists (mkLink (uuid4 cnt) None []). split; [|reflexivity].
    unfold L1. rewrite Hlen0. apply list_lookup_middle. reflexivity.
  - eapply keeps_trans; [apply keeps_app|exact Hk'| |].
    + intros x Hx. inversion Hx.
    + intros x Hx. exact Hx.
Qed.


(** An additional invariant [J] of the heap, kept by the steps the builder
    takes: creating a parent over a group, and setting a node's type or
    level. *)
Variable J : world -> Prop.
Hypothesis J_parent : forall group doc lvl w r w',
  J w -> linked uuid4 (links w) (uuid_count w) -> group <> [] -> NoDup group ->
  (forall c, c ∈ group -> orphan (links w) c) ->
  create_parent_node uuid4 group doc lvl w = Ret (r, w') -> J w'.
Hypothesis J_retype : forall w r n t,
  J w -> heap w !! r = Some n ->
  J (mkWorld (<[r := with_node_type t n]> (heap w)) (uuid_count w)).
Hypothesis J_relevel : forall w r n l,
  J w -> heap w !! r = Some n ->
  J (mkWorld (<[r := with_level l n]> (heap w)) (uuid_count w)).

Lemma create_parent_nodes_spec (kids : list ref) (doc : string) (lvl : Z)
    (L0 : list Link) (cnt : nat) :
  linked uuid4 L0 cnt -> (2 <= length kids)%nat -> NoDup kids ->
  (forall c, c ∈ kids -> orphan L0 c) ->
  hoare (fun w => links w = L0 /\ uuid_count w = cnt /\ J w)
        (create_parent_nodes uuid4 kids doc lvl)
        (fun ps w' => J w' /\ (1 <= length ps)%nat /\
                      ps = seq (length L0) (length ps) /\
                      length (links w') = (length L0 + length ps)%nat /\
                      linked uuid4 (links w') (uuid_count w') /\
                      (forall r, r ∈ ps -> orphan (links w') r) /\
                      keeps kids L0 (links w')).
Proof.
  intros Hlinked Hn Hnd Horph w ps w' (HL & Hcnt & HJ) Hrun.
  unfold create_parent_nodes in Hrun.
  destruct (Z.leb_spec (len kids) 1) as [Hle|_]; [unfold len in Hle; lia|].
  set (g := group_size_of (len kids)) in *.
  pose proof (group_size_bounds (len kids)) as Hg. fold g in Hg.
  assert (Hlen : 2 <= len kids) by (unfold len; lia).
  pose proof (group_count_bounds (len kids) g Hlen (proj1 Hg)) as Hgroups.
  apply mbind_inv in Hrun as (starts & w1 & H1 & Hrun).
  apply lift_inv in H1 as [-> Hstarts].
  rewrite py_range_groups in Hstarts by lia. injection Hstarts as Hstarts.
  assert (Hlt : forall c, c ∈ kids -> (c < length L0)%nat).
  { intros c Hc. destruct (Horph c Hc) as (l & Hl & _).
    eapply lookup_lt_Some; eauto. }
  pose (I := fun (rest : list Z) (ys : list ref) (w : world) =>
    J w /\
    uuid_count w = (cnt + length ys)%nat /\
    linked uuid4 (links w) (uuid_count w) /\
    ys = seq (length L0) (length ys) /\
    length (links w) = (length L0 + length ys)%nat /\
    (forall r, r ∈ ys -> orphan (links w) r) /\
    keeps kids L0 (links w) /\
    NoDup rest /\
    (forall i, i ∈ rest ->
       (exists k : nat, i = 0 + Z.of_nat k * g) /\ 0 <= i < len kids /\
       forall c, c ∈ py_slice kids i (i + g) -> orphan (links w) c)).
  assert (Hstep : forall x rest ys,
            hoare (I (x :: rest) ys)
                  (create_parent_node uuid4 (py_slice kids x (x + g)) doc lvl)
                  (fun y w2 => I rest (ys ++ [y]) w2)).
  { intros x rest ys wa y wb (HJa & Hc & Hl & Hys & Hlen' & Hor & Hk & Hndr & Hrest) Hrunx.
    destruct (Hrest x (list_elem_of_here _ _)) as ([k Hxk] & Hxr & Hgroup).
    assert (HJb : J wb).
    { apply (J_parent (py_slice kids x (x + g)) doc lvl wa y wb); auto.
      - apply py_slice_group_nonempty; lia.
      - apply py_slice_NoDup. exact Hnd. }
    assert (Hgk : forall c, c ∈ py_slice kids x (x + g) -> c ∈ kids)
      by (intros c; apply py_slice_elem).
    rewrite Hc in Hl.
    destruct (create_parent_node_spec (py_slice kids x (x + g)) doc lvl (links wa)
                (cnt + length ys) Hl (py_slice_NoDup kids x (x + g) Hnd) Hgroup
                wa y wb (conj eq_refl Hc) Hrunx)
      as (Hy & Hc' & Hl' & Hlen'' & Hory & Hk').
    assert (Hout : forall r, (length L0 <= r)%nat -> r ∉ py_slice kids x (x + g)).
    { intros r Hr Hin. apply Hgk, Hlt in Hin. lia. }
    unfold I. rewrite length_app. cbn [length].
    split; [exact HJb|].
    split; [lia|]. split; [rewrite Hc'; exact Hl'|].
    split; [|split; [lia|split; [|split; [|split]]]].
    - rewrite Nat.add_1_r, seq_S, <- Hys. f_equal. f_equal. lia.
    - intros r [Hr|Hr]%elem_of_app.
      + eapply keeps_orphan; [exact Hk'| |apply Hor; exact Hr].
        apply Hout. rewrite Hys in Hr.
        apply list_elem_of_In, in_seq in Hr. lia.
      + apply list_elem_of_singleton in Hr. subst r. exact Hory.
    - eapply keeps_trans; [exact Hk|exact Hk'|intros c Hc0; exact Hc0|exact Hgk].
    - apply NoDup_cons in Hndr as [_ Hndr]. exact Hndr.
    - intros i Hi.
      destruct (Hrest i (list_elem_of_further _ _ _ Hi)) as ([k' Hik] & Hir & Hgi).
      split; [eauto|]. split; [exact Hir|]. intros c Hc0.
      eapply keeps_orphan; [exact Hk'| |apply Hgi; exact Hc0].
      intros Hcx. subst x i.
      apply (groups_disjoint kids g k k' c Hnd); [lia| |exact Hcx|exact Hc0].
      intros ->. apply NoDup_cons in Hndr as [Hnotin _]. contradiction. }
  assert (HI0 : I starts [] w).
  { unfold I. cbn [length]. rewrite !Nat.add_0_r.
    split; [exact HJ|].
    split; [exact Hcnt|]. split; [rewrite HL, Hcnt; exact Hlinked|].
    split; [reflexivity|]. split; [rewrite HL; reflexivity|].
    split; [intros r Hr; inversion Hr|]. split; [rewrite HL; apply keeps_same|].
    subst starts. split.
    - apply NoDup_fmap_2; [|apply NoDup_seq]. intros a b Hab. nia.
    - intros i Hi. apply list_elem_of_In, in_map_iff in Hi as (k & <- & Hk).
      apply in_seq in Hk. split; [eauto|].
      split; [apply group_start_in_range; lia|].
      intros c Hc0. rewrite HL. apply Horph.
      eapply py_slice_elem. exact Hc0. }
  pose proof (hoare_mmap _ I Hstep starts [] w ps w' HI0 Hrun) as HI.
  cbn [app] in HI. destruct HI as (HJ' & Hc & Hl & Hps & Hlen' & Hor & Hk & _ & _).
  assert (Hcount : length ps = length starts).
  { exact (mmap_length _ _ _ _ _ Hrun). }
  split; [exact HJ'|]. split; [|auto].
  rewrite Hcount. subst starts. rewrite length_map, length_seq. lia.
Qed.


Lemma links_insert_same (h : list DocumentNode) (c c' : nat) (r : ref)
    (n n' : DocumentNode) :
  h !! r = Some n -> link_view n' = link_view n ->
  links (mkWorld (<[r := n']> h) c) = links (mkWorld h c').
Proof.
  intros Hr Hv. unfold links. cbn [heap]. rewrite list_fmap_insert, Hv.
  apply list_insert_id. rewrite list_lookup_fmap, Hr. reflexivity.
Qed.

Lemma add_node_spec (tree : DocumentTree) (r : ref) (L0 : list Link) (cnt : nat) :
  hoare (fun w => links w = L0 /\ uuid_count w = cnt) (add_node tree r)
        (fun tree' w' => links w' = L0 /\ uuid_count w' = cnt /\
                         exists l, L0 !! r = Some l /\
                                   nodes tree' = dict_set (lid l) r (nodes tree)).
Proof.
  intros w tree' w' [HL Hcnt] Hrun.
  destruct (heap w !! r) as [n|] eqn:Hr.
  2:{ unfold add_node, mbind, get_attr in Hrun. rewrite Hr in Hrun. discriminate. }
  rewrite (add_node_run tree r w n Hr) in Hrun. injection Hrun as <- <-.
  cbn [nodes]. split; [|split].
  - destruct (becomes_root tree n); [|exact HL].
    rewrite (links_insert_same (heap w) _ (uuid_count w) r n (with_node_type ROOT n) Hr eq_refl).
    exact HL.
  - destruct (becomes_root tree n); exact Hcnt.
  - exists (link_view n). split; [|reflexivity].
    rewrite <- HL. apply links_lookup_node. exact Hr.
Qed.

Lemma filed_keeps (tree : DocumentTree) (A : list nat) (L L' : list Link) :
  filed tree L -> keeps A L L' -> filed tree L'.
Proof.
  intros Hf Hk k r Hget. destruct (Hf k r Hget) as (l & Hl & Hid).
  destruct (Hk r l Hl) as (l' & Hl' & Hid' & _). exists l'. split; [exact Hl'|congruence].
Qed.

Lemma covered_keeps (tree : DocumentTree) (A : list nat) (L L' : list Link) :
  covered tree L (length L) -> keeps A L L' -> covered tree L' (length L).
Proof.
  intros Hc Hk r l' Hl' Hlt.
  destruct (lookup_lt_is_Some_2 L r Hlt) as [l Hl].
  destruct (Hk r l Hl) as (l2 & Hl2 & Hid & _).
  rewrite Hl' in Hl2. injection Hl2 as <-. rewrite Hid. apply Hc; assumption.
Qed.

Lemma J_add_node (tree : DocumentTree) (r : ref) (w : world) (tree' : DocumentTree)
    (w' : world) :
  J w -> add_node tree r w = Ret (tree', w') -> J w'.
Proof.
  intros HJ Hrun.
  destruct (heap w !! r) as [n|] eqn:Hr.
  2:{ unfold add_node, mbind, get_attr in Hrun. rewrite Hr in Hrun. discriminate. }
  rewrite (add_node_run tree r w n Hr) in Hrun. injection Hrun as _ <-.
  destruct (becomes_root tree n); [apply J_retype; assumption|exact HJ].
Qed.

Lemma dict_get_key {V} (k : string) (d : list (string * V)) :
  k ∈ map fst d -> exists v, dict_get k d = Some v.
Proof.
  induction d as [|[k' v'] d IH]; cbn [map fst dict_get]; [intros H; inversion H|].
  intros H. destruct (String.eqb_spec k k'); [eauto|].
  apply elem_of_cons in H as [H|H]; [contradiction|exact (IH H)].
Qed.

Lemma add_nodes_spec (rs : list ref) (tree : DocumentTree) (L0 : list Link)
    (cnt b : nat) :
  linked uuid4 L0 cnt -> filed tree L0 -> covered tree L0 b -> in_order tree b ->
  rs = seq b (length L0 - b) -> (b <= length L0)%nat ->
  hoare (fun w => links w = L0 /\ uuid_count w = cnt /\ J w) (mfold add_node tree rs)
        (fun tree' w' => links w' = L0 /\ uuid_count w' = cnt /\ J w' /\
                         filed tree' L0 /\ covered tree' L0 (length L0) /\
                         in_order tree' (length L0)).
Proof.
  intros Hlinked Hfiled Hcov Hord Hrs Hb.
  pose (I := fun (t : DocumentTree) (rest : list ref) (w : world) =>
    links w = L0 /\ uuid_count w = cnt /\ J w /\ filed t L0 /\
    exists b', (b' <= length L0)%nat /\ rest = seq b' (length L0 - b') /\
               covered t L0 b' /\ in_order t b').
  eapply hoare_conseq; [apply (hoare_mfold add_node I)| |].
  - intros t x rest w t' w' (HL & Hcnt & HJ & Hf & b' & Hb' & Hrest & Hc & Ho) Hrun.
    destruct (add_node_spec t x L0 cnt w t' w' (conj HL Hcnt) Hrun)
      as (HL' & Hcnt' & l & Hl & Hnodes).
    destruct (length L0 - b')%nat as [|m] eqn:Em; [discriminate|].
    cbn [seq] in Hrest. injection Hrest as -> ->.
    split; [exact HL'|]. split; [exact Hcnt'|].
    split; [exact (J_add_node t b' w t' w' HJ Hrun)|]. split.
    + intros k r Hget. rewrite Hnodes in Hget.
      destruct (decide (k = lid l)) as [->|Hk].
      * rewrite dict_get_set_eq in Hget. injection Hget as <-. eauto.
      * rewrite dict_get_set_ne in Hget by exact Hk. apply Hf. exact Hget.
    + exists (S b'). split; [lia|]. split; [f_equal; lia|]. split.
      * intros r lr Hlr Hlt. rewrite Hnodes.
        destruct (decide (r = b')) as [->|Hr].
        -- rewrite Hl in Hlr. injection Hlr as <-. apply dict_get_set_eq.
        -- rewrite dict_get_set_ne.
           ++ apply Hc; [exact Hlr|lia].
           ++ intros Hid. apply Hr.
              exact (linked_uniq _ _ _ Hlinked r b' lr l Hlr Hl Hid).
      * unfold in_order in *. rewrite Hnodes, dict_set_fresh.
        -- rewrite map_app, Ho, seq_S. reflexivity.
        -- intros Hin. apply dict_get_key in Hin as [r Hr].
           destruct (Hf _ _ Hr) as (l' & Hl' & Hid).
           assert (r = b')
             by exact (linked_uniq _ _ _ Hlinked r b' l' l Hl' Hl Hid).
           subst r. apply dict_get_In_nodes in Hr.
           apply (in_map snd) in Hr. rewrite Ho in Hr. apply in_seq in Hr.
           cbn in Hr. lia.
  - intros w (HL & Hcnt & HJ). unfold I. eauto 12.
  - intros t w (HL & Hcnt & HJ & Hf & b' & Hb' & Hrest & Hc & Ho).
    split; [exact HL|]. split; [exact Hcnt|]. split; [exact HJ|]. split; [exact Hf|].
    destruct (length L0 - b')%nat as [|m] eqn:Em; [|discriminate].
    replace (length L0) with b' by lia. auto.
Qed.

Lemma build_loop_spec (fuel : nat) :
  forall (doc : string) (tree : DocumentTree) (cur : list ref) (lvl : Z),
    hoare (fun w => J w /\ linked uuid4 (links w) (uuid_count w) /\
                    filed tree (links w) /\
                    covered tree (links w) (length (links w)) /\
                    in_order tree (length (links w)) /\
                    NoDup cur /\ (forall c, c ∈ cur -> orphan (links w) c) /\
                    (1 <= length cur)%nat)
          (build_loop uuid4 fuel doc tree cur lvl)
          (fun res w' => J w' /\ linked uuid4 (links w') (uuid_count w') /\
                         filed res.1 (links w') /\
                         covered res.1 (links w') (length (links w')) /\
                         in_order res.1 (length (links w')) /\
                         length res.2 = 1%nat).
Proof.
  induction fuel as [|fuel IH];
    intros doc tree cur lvl w res w' (HJ & Hl & Hf & Hc & Ho & Hnd & Horph & Hlen) Hrun;
    cbn [build_loop] in Hrun;
    destruct (Z.ltb_spec 1 (len cur)) as [Hgt|Hle].
  - discriminate.
  - injection Hrun as <- <-. cbn [fst snd]. repeat (split; [assumption|]).
    unfold len in Hle. lia.
  - apply mbind_inv in Hrun as (ps & w1 & H1 & Hrun).
    destruct (create_parent_nodes_spec cur doc lvl (links w) (uuid_count w) Hl
                ltac:(unfold len in Hgt; lia) Hnd Horph w ps w1
                (conj eq_refl (conj eq_refl HJ)) H1)
      as (HJ1 & Hps1 & Hps & Hlen1 & Hl1 & Horph1 & Hk1).
    apply mbind_inv in Hrun as (tree' & w2 & H2 & Hrun).
    destruct (add_nodes_spec ps tree (links w1) (uuid_count w1) (length (links w)))
      with (w := w1) (a := tree') (w' := w2)
      as (HL2 & Hc2 & HJ2 & Hf2 & Hcov2 & Ho2); auto.
    + eapply filed_keeps; eauto.
    + eapply covered_keeps; eauto.
    + rewrite Hlen1. rewrite Hps at 1. f_equal. lia.
    + lia.
    + apply (IH doc tree' ps (lvl + 1) w2 res w'); [|exact Hrun].
      rewrite HL2, Hc2. split; [exact HJ2|]. split; [exact Hl1|]. split; [exact Hf2|].
      split; [exact Hcov2|]. split; [exact Ho2|].
      split; [rewrite Hps; apply NoDup_seq|].
      split; [exact Horph1|exact Hps1].
  - injection Hrun as <- <-. cbn [fst snd]. repeat (split; [assumption|]).
    unfold len in Hle. lia.
Qed.

Lemma create_leaf_nodes_spec (chunks : list Chunk) (doc : string) :
  hoare (fun w => heap w = []) (create_leaf_nodes uuid4 chunks doc)
        (fun ls w' => ls = seq 0 (length chunks) /\
                      length (links w') = length chunks /\
                      linked uuid4 (links w') (uuid_count w') /\
                      forall r, r ∈ ls -> orphan (links w') r).
Proof.
  pose (I := fun (rest : list Chunk) (ys : list ref) (w : world) =>
    linked uuid4 (links w) (uuid_count w) /\ ys = seq 0 (length ys) /\
    length (links w) = length ys /\
    forall r l, links w !! r = Some l -> lparent l = None).
  intros w ls w' Hw Hrun. unfold create_leaf_nodes in Hrun.
  assert (Hstep : forall (x : Chunk) rest ys,
    hoare (I (x :: rest) ys)
      (nid <- fresh_uuid uuid4;;
       new_node {| id := nid; content := chunk_text x; summary := EmptyString;
                   embedding := None; node_type := LEAF; parent_id := None;
                   children_ids := []; document_id := doc; level := 1;
                   page_start := Some (chunk_page_start x);
                   page_end := Some (chunk_page_end x);
                   metadata := [("char_count", MInt (chunk_char_count x));
                                ("page_count", MInt (chunk_page_count x))] |})
      (fun y w2 => I rest (ys ++ [y]) w2)).
  { intros x rest ys wa y wb (Hl & Hys & Hlen & Hnone) Hrunx.
    apply mbind_inv in Hrunx as (nid & w1 & H1 & Hrunx).
    unfold fresh_uuid in H1. injection H1 as <- <-.
    unfold new_node in Hrunx. cbn [heap uuid_count] in Hrunx.
    injection Hrunx as <- <-.
    assert (El : links (mkWorld (heap wa ++ [mkNode (uuid4 (uuid_count wa)) (chunk_text x)
                          EmptyString None LEAF None [] doc 1
                          (Some (chunk_page_start x)) (Some (chunk_page_end x))
                          [("char_count", MInt (chunk_char_count x));
                           ("page_count", MInt (chunk_page_count x))]])
                         (S (uuid_count wa)))
                 = links wa ++ [mkLink (uuid4 (uuid_count wa)) None []]).
    { unfold links. cbn [heap]. rewrite map_app. reflexivity. }
    unfold I. rewrite El, length_app. cbn [length uuid_count].
    split; [apply linked_append; assumption|].
    assert (Hh : length (heap wa) = length ys).
    { rewrite <- Hlen. unfold links. rewrite length_map. reflexivity. }
    split; [rewrite Nat.add_1_r, seq_S, <- Hys, Hh; reflexivity|].
    split; [rewrite length_app; cbn; lia|].
    intros r l Hr. apply lookup_app_Some in Hr as [Hr|[_ Hr]]; [eauto|].
    destruct (r - length (links wa))%nat; [|discriminate].
    injection Hr as <-. reflexivity. }
  assert (HI0 : I chunks [] w).
  { unfold I, links. rewrite Hw. cbn. split; [apply linked_nil|].
    repeat split. intros r l Hr. discriminate. }
  pose proof (hoare_mmap _ I Hstep chunks [] w ls w' HI0 Hrun) as HI.
  cbn [app] in HI. destruct HI as (Hl & Hls & Hlen & Hnone).
  pose proof (mmap_length _ _ _ _ _ Hrun) as Hcount.
  split; [rewrite Hls, Hcount; reflexivity|]. split; [lia|]. split; [exact Hl|].
  intros r Hr. rewrite Hls in Hr. apply list_elem_of_In, in_seq in Hr.
  destruct (lookup_lt_is_Some_2 (links w') r ltac:(lia)) as [l Hlr].
  exists l. split; [exact Hlr|]. eapply Hnone. exact Hlr.
Qed.

Lemma build_tree_structure_spec (leaves : list ref) (doc : string) :
  hoare (fun w => J w /\ linked uuid4 (links w) (uuid_count w) /\
                  leaves = seq 0 (length (links w)) /\ leaves <> [] /\
                  forall r, r ∈ leaves -> orphan (links w) r)
        (build_tree_structure uuid4 leaves doc)
        (fun tree w' => J w' /\ linked uuid4 (links w') (uuid_count w') /\
                        filed tree (links w') /\
                        covered tree (links w') (length (links w')) /\
                        in_order tree (length (links w'))).
Proof.
  intros w tree w' (HJ & Hl & Hleaves & Hne & Horph) Hrun.
  unfold build_tree_structure in Hrun.
  destruct leaves as [|l0 leaves'] eqn:El; [congruence|]. rewrite <- El in *.
  apply mbind_inv in Hrun as (tree1 & w1 & H1 & Hrun).
  destruct (add_nodes_spec leaves (new_tree doc EmptyString) (links w) (uuid_count w) 0)
    with (w := w) (a := tree1) (w' := w1)
    as (HL1 & Hc1 & HJ1 & Hf1 & Hcov1 & Ho1); auto.
  { intros k r Hget. discriminate. }
  { intros r l Hr Hlt. lia. }
  { reflexivity. }
  { rewrite Nat.sub_0_r. exact Hleaves. }
  { lia. }
  apply mbind_inv in Hrun as ([tree2 cur] & w2 & H2 & Hrun).
  destruct (build_loop_spec (length leaves) doc tree1 leaves 1 w1 (tree2, cur) w2)
    as (HJ2 & Hl2 & Hf2 & Hcov2 & Ho2 & Hcur); auto.
  { rewrite HL1, Hc1. split; [exact HJ1|]. split; [exact Hl|]. split; [exact Hf1|].
    split; [exact Hcov1|]. split; [exact Ho1|].
    split; [rewrite Hleaves; apply NoDup_seq|]. split; [exact Horph|].
    rewrite El. cbn. lia. }
  cbn [fst snd] in *.
  destruct cur as [|r [|r' cur]]; try discriminate.
  cbn [len length Z.of_nat Pos.of_succ_nat Z.eqb Pos.eqb] in Hrun.
  apply mbind_inv in Hrun as (root & w3 & H3 & Hrun).
  apply lift_inv in H3 as [-> H3]. injection H3 as <-.
  apply mbind_inv in Hrun as (u1 & w3 & H3 & Hrun).
  apply set_attr_inv in H3 as (n3 & Hn3 & ->).
  apply mbind_inv in Hrun as (u2 & w4 & H4 & Hrun).
  apply set_attr_inv in H4 as (n4 & Hn4 & ->).
  apply mbind_inv in Hrun as (rid & w5 & H5 & Hrun).
  apply get_attr_inv in H5 as [-> _].
  injection Hrun as <- <-.
  pose proof (J_relevel _ r n4 0 (J_retype w2 r n3 ROOT HJ2 Hn3) Hn4) as HJ4.
  split; [exact HJ4|].
  cbn [heap uuid_count] in *.
  rewrite (links_insert_same _ _ (uuid_count w2) r n4 (with_level 0 n4) Hn4 eq_refl).
  rewrite (links_insert_same _ _ (uuid_count w2) r n3 (with_node_type ROOT n3) Hn3 eq_refl).
  change (links (mkWorld (heap w2) (uuid_count w2))) with (links w2).
  split; [exact Hl2|]. split; [exact Hf2|]. split; [exact Hcov2|exact Ho2].
Qed.

End BuilderLinks.

(** *** What the links give to the lookups of the tree *)

Lemma get_node_lookup (h : list DocumentNode) (tree : DocumentTree) (k : string)
    (n : DocumentNode) :
  get_node h tree k = Some n <->
  exists r, dict_get k (nodes tree) = Some r /\ h !! r = Some n.
Proof.
  unfold get_node. destruct (dict_get k (nodes tree)) as [r|]; cbn.
  - split; [eauto|]. intros (r' & [= <-] & H). exact H.
  - split; [discriminate|]. intros (r' & H & _). discriminate.
Qed.

Lemma linked_store (uuid4 : nat -> string) (w : world) (tree : DocumentTree)
    (cnt : nat) :
  linked uuid4 (links w) cnt -> filed tree (links w) ->
  covered tree (links w) (length (links w)) ->
  consistent_store (get_node (heap w) tree) /\
  closed_store (get_node (heap w) tree) /\
  forall n, n ∈ heap w -> get_node (heap w) tree (id n) = Some n.
Proof.
  intros [Hids Huniq Hup Hdown Hnodup] Hfiled Hcov.
  assert (Hserved : forall r n, heap w !! r = Some n ->
                                get_node (heap w) tree (id n) = Some n).
  { intros r n Hr. apply get_node_lookup. exists r. split; [|exact Hr].
    apply (Hcov r (link_view n)); [apply links_lookup_node; exact Hr|].
    unfold links. rewrite length_map. eapply lookup_lt_Some; eauto. }
  assert (Hkey : forall k n, get_node (heap w) tree k = Some n ->
                             exists r, heap w !! r = Some n /\ id n = k).
  { intros k n Hget. apply get_node_lookup in Hget as (r & Hk & Hr).
    destruct (Hfiled k r Hk) as (l & Hl & Hid).
    rewrite (links_lookup_node w r n Hr) in Hl. injection Hl as <-. eauto. }
  split; [split|split].
  - intros k n Hget. destruct (Hkey k n Hget) as (r & _ & Hid). exact Hid.
  - intros k n Hget. destruct (Hkey k n Hget) as (r & Hr & Hid).
    pose proof (links_lookup_node w r n Hr) as Hl. split.
    + exact (Hnodup r _ Hl).
    + intros cid c Hin Hc. destruct (Hkey cid c Hc) as (rc & Hrc & Hidc).
      destruct (Hdown r _ cid Hl Hin) as (r' & l' & Hl' & Hid' & Hpar).
      pose proof (links_lookup_node w rc c Hrc) as Hlc.
      assert (rc = r') by (eapply Huniq; eauto; cbn; congruence). subst r'.
      rewrite Hlc in Hl'. injection Hl' as <-. cbn in Hpar. congruence.
  - intros k n Hget. destruct (Hkey k n Hget) as (r & Hr & Hid).
    pose proof (links_lookup_node w r n Hr) as Hl. split.
    + intros pid Hpar. destruct (Hup r _ pid Hl Hpar) as (rp & lp & Hlp & Hidp & Hin).
      destruct (links_lookup w rp lp Hlp) as (pn & Hpn & <-).
      exists pn. split; [|cbn in Hin; congruence].
      cbn in Hidp. rewrite <- Hidp. eapply Hserved; eauto.
    + intros cid Hin. destruct (Hdown r _ cid Hl Hin) as (r' & l' & Hl' & Hid' & _).
      destruct (links_lookup w r' l' Hl') as (c & Hc & <-).
      exists c. cbn in Hid'. rewrite <- Hid'. eapply Hserved; eauto.
  - intros n Hn. apply list_elem_of_lookup in Hn as [r Hr]. eapply Hserved; eauto.
Qed.

Lemma build_from_chunks_linked (uuid4 : nat -> string) (J : world -> Prop)
    (chunks : list Chunk) (doc : string) (w : world) :
  (forall a b, uuid4 a = uuid4 b -> a = b) ->
  (forall group doc lvl w r w',
     J w -> linked uuid4 (links w) (uuid_count w) -> group <> [] -> NoDup group ->
     (forall c, c ∈ group -> orphan (links w) c) ->
     create_parent_node uuid4 group doc lvl w = Ret (r, w') -> J w') ->
  (forall w r n t, J w -> heap w !! r = Some n ->
     J (mkWorld (<[r := with_node_type t n]> (heap w)) (uuid_count w))) ->
  (forall w r n l, J w -> heap w !! r = Some n ->
     J (mkWorld (<[r := with_level l n]> (heap w)) (uuid_count w))) ->
  (forall ls w1, create_leaf_nodes uuid4 chunks doc w = Ret (ls, w1) -> J w1) ->
  heap w = [] -> chunks <> [] ->
  Forall (fun c => chunk_page_start c <> 0 /\ chunk_page_end c <> 0) chunks ->
  exists tree w',
    build_from_chunks uuid4 chunks doc w = Ret (tree, w') /\
    J w' /\
    linked uuid4 (links w') (uuid_count w') /\ filed tree (links w') /\
    covered tree (links w') (length (links w')) /\
    in_order tree (length (links w')).
Proof.
  intros Hinj HJp HJt HJl HJ0 Hw Hne Hchunks.
  assert (Hplain : plain_heap w) by (unfold plain_heap; rewrite Hw; constructor).
  assert (Hrun : run_ok (build_from_chunks uuid4 chunks doc) w (fun _ _ => True)).
  { unfold build_from_chunks.
    eapply run_ok_seq; [apply create_leaf_nodes_ok; [exact Hplain|exact Hchunks]|].
    intros ls w1 Hp1 _ [Hlen Hlive].
    eapply run_ok_weaken; [apply build_tree_structure_ok; [assumption| |assumption]|auto].
    destruct ls; [destruct chunks; [congruence|discriminate]|discriminate]. }
  destruct Hrun as (tree & w' & Hrun & _).
  exists tree, w'. split; [exact Hrun|].
  unfold build_from_chunks in Hrun.
  apply mbind_inv in Hrun as (ls & w1 & H1 & Hrun).
  destruct (create_leaf_nodes_spec uuid4 Hinj chunks doc w ls w1 Hw H1)
    as (Hls & Hlen & Hl & Horph).
  apply (build_tree_structure_spec uuid4 Hinj J HJp HJt HJl ls doc w1 tree w');
    [|exact Hrun].
  split; [exact (HJ0 ls w1 H1)|].
  split; [exact Hl|]. split; [rewrite Hlen; exact Hls|]. split; [|exact Horph].
  rewrite Hls. destruct chunks; [congruence|discriminate].
Qed.

Lemma chunks_of_numbered_pages (self : DocumentSplitter) (pages : list Page) :
  pages <> [] -> 0 < max_chunk_size self ->
  Forall (fun p => page_number p <> 0) pages ->
  exists chunks,
    split_pages_into_chunks self pages = Ret chunks /\ chunks <> [] /\
    Forall (fun c => chunk_page_start c <> 0 /\ chunk_page_end c <> 0) chunks.
Proof.
  intros Hne Hmax Hpages.
  destruct (split_loop_scan self pages Hmax (length pages) 0 [])
    as (cs & Hcs & Hall); [lia|unfold len; lia|].
  exists cs. cbn [app] in Hcs.
  assert (Hrun : split_pages_into_chunks self pages = Ret cs).
  { unfold split_pages_into_chunks. destruct pages; [congruence|exact Hcs]. }
  split; [exact Hrun|]. split.
  - intros ->. inversion Hall as [Hscan|]. symmetry in Hscan.
    destruct pages as [|p pages]; [congruence|].
    cbn [length scan_ranges] in Hscan.
    destruct (Z.ltb_spec 0 (len (p :: pages))) as [_|Hge]; [discriminate|].
    unfold len in Hge. cbn [length] in Hge. lia.
  - rewrite Forall_forall in Hpages.
    clear Hcs Hrun. induction Hall as [|c r cs rs (Hs & He & _) _ IH]; constructor; auto.
    split.
    + destruct (pages !! Z.to_nat r.1) as [p|] eqn:Hp; [|discriminate].
      injection Hs as <-. apply Hpages. eapply list_elem_of_lookup_2; eauto.
    + destruct (pages !! Z.to_nat (r.2 - 1)) as [p|] eqn:Hp; [|discriminate].
      injection He as <-. apply Hpages. eapply list_elem_of_lookup_2; eauto.
Qed.

Lemma demo_uuid4_inj (a b : nat) : demo_uuid4 a = demo_uuid4 b -> a = b.
Proof.
  unfold demo_uuid4. intros H.
  change (String "n" (NilZero.string_of_uint (Nat.to_uint a))
          = String "n" (NilZero.string_of_uint (Nat.to_uint b))) in H.
  injection H as H.
  apply (f_equal NilZero.uint_of_string) in H.
  assert (Hn : forall n, Nat.to_uint n <> Decimal.Nil).
  { intros n. rewrite <- (DecimalNat.Unsigned.of_to n) at 1.
    rewrite DecimalNat.Unsigned.to_of. apply DecimalFacts.unorm_nonnil. }
  rewrite !NilZero.usu in H by apply Hn. injection H as H.
  apply (f_equal Nat.of_uint) in H. rewrite !DecimalNat.Unsigned.of_to in H. exact H.
Qed.

(** X23. The tree [process_document] builds can be navigated: for
    [max_chunk_size > 0], pages with non-zero page numbers and
    identifiers that [uuid4] never repeats, the call returns a tree in
    which every node is filed under its own identifier, no node lists a
    child twice, every listed child is in the tree and names the listing
    node as its parent, and every node with a parent is listed by that
    parent, which is in the tree. *)
Theorem built_tree_is_consistent (uuid4 : nat -> string) (self : DocumentSplitter)
    (pages : list Page) (document_title : string) (w : world) :
  (forall a b, uuid4 a = uuid4 b -> a = b) ->
  heap w = [] -> pages <> [] -> 0 < max_chunk_size self ->
  Forall (fun p => page_number p <> 0) pages ->
  exists tree w',
    process_document uuid4 self pages document_title w = Ret (tree, w') /\
    consistent_store (get_node (heap w') tree) /\
    closed_store (get_node (heap w') tree) /\
    forall n, n ∈ heap w' -> get_node (heap w') tree (id n) = Some n.
Proof.
  intros Hinj Hw Hne Hmax Hpages.
  destruct (chunks_of_numbered_pages self pages Hne Hmax Hpages)
    as (chunks & Hsplit & Hcne & Hchunks).
  destruct (build_from_chunks_linked uuid4 (fun _ => True) chunks (uuid4 (uuid_count w))
              (mkWorld (heap w) (S (uuid_count w))) Hinj
              (fun _ _ _ _ _ _ _ _ _ _ _ _ => I) (fun _ _ _ _ _ _ => I)
              (fun _ _ _ _ _ _ => I) (fun _ _ _ => I) Hw Hcne Hchunks)
    as (tree & w' & Hrun & _ & Hl & Hf & Hc & _).
  exists (mkTree (tree_document_id tree) document_title (nodes tree) (root_node_id tree)),
         w'.
  split.
  - unfold process_document, mbind at 1, fresh_uuid.
    destruct pages as [|p pages]; [congruence|].
    rewrite Hsplit. unfold build_from_chunks in Hrun.
    apply mbind_inv in Hrun as (ls & w1 & H1 & Hrun).
    unfold mbind, lift. rewrite H1, Hrun. reflexivity.
  - apply (linked_store uuid4 w' _ (uuid_count w')); assumption.
Qed.

Lemma built_tree_is_consistent_witness :
  exists tree w',
    process_document demo_uuid4 (mkSplitter 10 1 0) (numbered_pages 23) "doc"
      empty_world = Ret (tree, w') /\
    consistent_store (get_node (heap w') tree) /\
    closed_store (get_node (heap w') tree) /\
    forall n, n ∈ heap w' -> get_node (heap w') tree (id n) = Some n.
Proof.
  apply (built_tree_is_consistent demo_uuid4 (mkSplitter 10 1 0) (numbered_pages 23)
           "doc" empty_world).
  - exact demo_uuid4_inj.
  - reflexivity.
  - discriminate.
  - cbn. lia.
  - unfold numbered_pages. apply Forall_forall. intros p Hp.
    apply list_elem_of_In, in_map_iff in Hp as (k & <- & Hk).
    apply in_seq in Hk. cbn. lia.
Defined.

(** ** Storing and loading *)

Lemma node_type_round_trip (t : NodeType) :
  node_type_of_value (VStr (node_type_value t)) = Loaded t.
Proof. destruct t; reflexivity. Qed.

Lemma node_round_trip (n : DocumentNode) : node_from_dict (node_to_dict n) = Loaded n.
Proof.
  destruct n as [i c s e t p k d l ps pe m].
  unfold node_from_dict, node_to_dict, py_item, py_get.
  cbn [dict_get id content summary embedding node_type parent_id children_ids
       document_id level page_start page_end metadata String.eqb Ascii.eqb
       Bool.eqb andb lbind as_str].
  rewrite node_type_round_trip.
  destruct e, p, ps, pe; reflexivity.
Qed.

(** X24. Loading what [to_dict] stored gives the node back:
    [DocumentNode.from_dict (node.to_dict ())] returns a node equal to
    [node] in every field, for every node. *)
Theorem node_dict_round_trip (n : DocumentNode) :
  node_from_dict (node_to_dict n) = Loaded n /\
  forall n', node_to_dict n' = node_to_dict n -> n' = n.
Proof.
  split; [apply node_round_trip|].
  intros n' H. apply (f_equal node_from_dict) in H.
  rewrite !node_round_trip in H. injection H as H. exact H.
Qed.

Lemma lbind_loaded_inv {A B} (m : loaded A) (k : A -> loaded B) (b : B) :
  lbind m k = Loaded b -> exists a, m = Loaded a /\ k a = Loaded b.
Proof. destruct m; [eauto|discriminate]. Qed.

Lemma lbind_error_inv {A B} (m : loaded A) (k : A -> loaded B) (e : load_exn) :
  lbind m k = LoadError e ->
  m = LoadError e \/ exists a, m = Loaded a /\ k a = LoadError e.
Proof. destruct m; [eauto|intros [= <-]; auto]. Qed.

Lemma py_item_loaded (data : list (string * py_value)) (key : string) (v : py_value) :
  py_item data key = Loaded v -> dict_get key data = Some v.
Proof. unfold py_item. destruct (dict_get key data); [congruence|discriminate]. Qed.

Lemma py_item_error (data : list (string * py_value)) (key : string) (e : load_exn) :
  py_item data key = LoadError e -> e = KeyError key /\ dict_get key data = None.
Proof.
  unfold py_item. destruct (dict_get key data); [discriminate|]. intros [= <-]. auto.
Qed.

(** Reading at a type never raises [KeyError]. *)
Ltac no_key_error H :=
  match type of H with
  | ?f ?v = LoadError _ =>
      unfold f in H; destruct v; first [discriminate H | repeat
        match type of H with
        | (if ?c then _ else _) = _ => destruct c
        end; discriminate H]
  end.

Lemma required_item_error {A} (data : list (string * py_value)) (key k : string)
    (f : py_value -> loaded A) :
  (forall v, f v <> LoadError (KeyError k)) ->
  lbind (py_item data key) f = LoadError (KeyError k) ->
  k = key /\ dict_get key data = None.
Proof.
  intros Hf H. apply lbind_error_inv in H as [H|(v & _ & H)].
  - apply py_item_error in H as [[= ->] H]. auto.
  - exfalso. exact (Hf v H).
Qed.

Lemma as_str_no_key_error (k : string) (v : py_value) : as_str v <> LoadError (KeyError k).
Proof. destruct v; discriminate. Qed.

(** X25. [DocumentNode.from_dict] needs five keys and no more: if [id],
    [content], [summary], [node_type] and [document_id] hold strings (the
    node type one of ["root"], ["branch"], ["leaf"]) and none of the other
    seven keys is present, it returns the node with no embedding, no
    parent, no children, level 0, no page range and empty metadata. *)
Theorem from_dict_defaults (data : list (string * py_value))
    (i c s d : string) (t : NodeType) :
  dict_get "id" data = Some (VStr i) ->
  dict_get "content" data = Some (VStr c) ->
  dict_get "summary" data = Some (VStr s) ->
  dict_get "node_type" data = Some (VStr (node_type_value t)) ->
  dict_get "document_id" data = Some (VStr d) ->
  Forall (fun key => dict_get key data = None) optional_keys ->
  node_from_dict data = Loaded (mkNode i c s None t None [] d 0 None None []).
Proof.
  intros Hi Hc Hs Ht Hd Hopt.
  unfold optional_keys in Hopt.
  apply Forall_cons in Hopt as [K1 Hopt]. apply Forall_cons in Hopt as [K2 Hopt].
  apply Forall_cons in Hopt as [K3 Hopt]. apply Forall_cons in Hopt as [K4 Hopt].
  apply Forall_cons in Hopt as [K5 Hopt]. apply Forall_cons in Hopt as [K6 Hopt].
  apply Forall_cons in Hopt as [K7 _].
  unfold node_from_dict, py_item, py_get.
  rewrite Hi, Hc, Hs, Ht, Hd, K1, K2, K3, K4, K5, K6, K7.
  cbn [lbind as_str as_opt_floats as_opt_str as_strs as_int as_opt_int as_meta].
  rewrite node_type_round_trip. reflexivity.
Qed.

Lemma from_dict_defaults_witness :
  node_from_dict [("document_id", VStr "doc"); ("node_type", VStr "leaf");
                  ("id", VStr "n1"); ("summary", VStr EmptyString);
                  ("content", VStr "text"); ("note", VInt 7)]
  = Loaded (mkNode "n1" "text" EmptyString None LEAF None [] "doc" 0 None None []).
Proof.
  apply (from_dict_defaults _ "n1" "text" EmptyString "doc" LEAF);
    try reflexivity.
  repeat constructor.
Defined.

(** X26. [KeyError] is raised by [DocumentNode.from_dict] only for one
    of the five required keys, and only when that key is missing;
    conversely a dictionary that lacks a required key is never loaded. *)
Theorem from_dict_key_errors (data : list (string * py_value)) (k : string) :
  (node_from_dict data = LoadError (KeyError k) ->
   k ∈ required_keys /\ dict_get k data = None) /\
  (k ∈ required_keys -> dict_get k data = None ->
   is_loaded (node_from_dict data) = false).
Proof.
  split.
  - unfold node_from_dict, required_keys. intros H.
    repeat (apply lbind_error_inv in H as [H|(? & _ & H)];
            [first [ apply required_item_error in H as [-> H];
                     [split; [repeat first [left|right]|exact H]
                     |first [apply as_str_no_key_error
                            |intros v Hv; no_key_error Hv]]
                   | exfalso; no_key_error H ]|]).
    discriminate H.
  - intros Hk Hnone. destruct (node_from_dict data) as [n|] eqn:E; [|reflexivity].
    exfalso. unfold node_from_dict in E.
    apply lbind_loaded_inv in E as (? & E1 & E).
    apply lbind_loaded_inv in E1 as (? & E1%py_item_loaded & _).
    apply lbind_loaded_inv in E as (? & E2 & E).
    apply lbind_loaded_inv in E2 as (? & E2%py_item_loaded & _).
    apply lbind_loaded_inv in E as (? & E3 & E).
    apply lbind_loaded_inv in E3 as (? & E3%py_item_loaded & _).
    apply lbind_loaded_inv in E as (? & _ & E).
    apply lbind_loaded_inv in E as (? & E4 & E).
    apply lbind_loaded_inv in E4 as (? & E4%py_item_loaded & _).
    apply lbind_loaded_inv in E as (? & _ & E).
    apply lbind_loaded_inv in E as (? & _ & E).
    apply lbind_loaded_inv in E as (? & E5 & E).
    apply lbind_loaded_inv in E5 as (? & E5%py_item_loaded & _).
    unfold required_keys in Hk.
    repeat (apply elem_of_cons in Hk as [->|Hk]; [congruence|]).
    inversion Hk.
Qed.

Lemma nodes_to_dict_inv (h : list DocumentNode) (items : list (string * nat)) :
  forall ds, nodes_to_dict h items = Ret ds ->
  exists kns : list (string * DocumentNode),
    ds = map (fun kn => (kn.1, VDict (node_to_dict kn.2))) kns /\
    map fst kns = map fst items /\
    map snd kns = omap (fun kv => h !! kv.2) items.
Proof.
  induction items as [|[k r] items IH]; intros ds Hrun; cbn [nodes_to_dict] in Hrun.
  - injection Hrun as <-. exists []. auto.
  - destruct (h !! r) as [n|] eqn:Hr; [|discriminate].
    destruct (nodes_to_dict h items) as [ds'| |]; cbn [obind] in Hrun; try discriminate.
    injection Hrun as <-. destruct (IH ds' eq_refl) as (kns & -> & Hk & Hn).
    exists ((k, n) :: kns). cbn [map fst snd omap list_omap]. rewrite Hr.
    split; [reflexivity|]. split; f_equal; assumption.
Qed.

Lemma load_nodes_stored (kns : list (string * DocumentNode)) :
  forall (tree0 : DocumentTree) (w0 : world),
    NoDup (map fst (nodes tree0) ++ map fst kns) ->
    load_nodes (map (fun kn => (kn.1, VDict (node_to_dict kn.2))) kns) tree0 w0
    = Loaded (mkTree (tree_document_id tree0) (document_title tree0)
                     (nodes tree0 ++
                      imap (fun i kn => (kn.1, (length (heap w0) + i)%nat)) kns)
                     (root_node_id tree0),
              mkWorld (heap w0 ++ map snd kns) (uuid_count w0)).
Proof.
  induction kns as [|[k n] kns IH]; intros tree0 w0 Hnd.
  - cbn. rewrite !app_nil_r. destruct tree0, w0. reflexivity.
  - cbn [map load_nodes fst snd]. rewrite node_round_trip. cbn [lbind].
    cbn [map fst] in Hnd.
    assert (Hk : k ∉ map fst (nodes tree0)).
    { apply NoDup_app in Hnd as (_ & Hdis & _). intros Hin.
      apply (Hdis k Hin). left. }
    rewrite (dict_set_fresh k _ _ Hk). rewrite IH.
    + cbn [tree_document_id document_title nodes root_node_id heap uuid_count].
      assert (E : imap (fun i (kn : string * DocumentNode) =>
                          (kn.1, (length (heap w0 ++ [n]) + i)%nat)) kns
                  = imap ((fun i (kn : string * DocumentNode) =>
                             (kn.1, (length (heap w0) + i)%nat)) ∘ S) kns).
      { apply imap_ext. intros i x _. cbn. rewrite length_app. cbn [length].
        f_equal. lia. }
      rewrite E. cbn [imap fst]. rewrite Nat.add_0_r, <- !app_assoc. reflexivity.
    + cbn [nodes]. rewrite map_app. cbn [map fst]. rewrite <- app_assoc. exact Hnd.
Qed.

Lemma loaded_values (kns : list (string * DocumentNode)) :
  forall pre : list DocumentNode,
    omap (fun kv : string * nat => (pre ++ map snd kns) !! kv.2)
         (imap (fun i kn => (kn.1, (length pre + i)%nat)) kns)
    = map snd kns.
Proof.
  induction kns as [|[k n] kns IH]; intros pre; [reflexivity|].
  cbn [imap map snd omap list_omap fst].
  rewrite Nat.add_0_r, list_lookup_middle by reflexivity. f_equal.
  specialize (IH (pre ++ [n])). rewrite <- app_assoc in IH. cbn [app] in IH.
  etransitivity; [|exact IH]. f_equal. apply imap_ext. intros i x _. cbn.
  rewrite length_app. cbn [length]. f_equal. lia.
Qed.

(** X27. Loading what [DocumentTree.to_dict] stored gives an equal tree
    made of new node objects: same document identifier, title and root
    identifier, the same keys in the same order, and under each key a
    node equal to the stored one; the objects that existed before are
    untouched. *)
Theorem tree_dict_round_trip (h : list DocumentNode) (tree : DocumentTree)
    (data : list (string * py_value)) (w : world) :
  NoDup (map fst (nodes tree)) ->
  tree_to_dict h tree = Ret data ->
  exists tree' w',
    tree_from_dict data w = Loaded (tree', w') /\
    tree_document_id tree' = tree_document_id tree /\
    document_title tree' = document_title tree /\
    root_node_id tree' = root_node_id tree /\
    map fst (nodes tree') = map fst (nodes tree) /\
    tree_values (heap w') tree' = tree_values h tree /\
    heap w `prefix_of` heap w'.
Proof.
  intros Hnd Hrun. unfold tree_to_dict in Hrun.
  destruct (nodes_to_dict h (nodes tree)) as [ds| |] eqn:Hds; cbn [obind] in Hrun;
    try discriminate.
  injection Hrun as <-.
  destruct (nodes_to_dict_inv h (nodes tree) ds Hds) as (kns & -> & Hkeys & Hvals).
  unfold tree_from_dict, py_item, py_get.
  cbn [dict_get String.eqb Ascii.eqb Bool.eqb andb lbind as_str].
  assert (Hroot : as_opt_str (of_opt_str (root_node_id tree)) = Loaded (root_node_id tree))
    by (destruct (root_node_id tree); reflexivity).
  rewrite Hroot. cbn [lbind].
  rewrite load_nodes_stored by (cbn [nodes app]; rewrite Hkeys; exact Hnd).
  eexists _, _. split; [reflexivity|].
  cbn [tree_document_id document_title root_node_id nodes heap app].
  repeat (split; [reflexivity|]). split; [|split].
  - rewrite <- Hkeys. clear. generalize (length (heap w)).
    induction kns as [|[k n] kns IH]; intros b; [reflexivity|].
    cbn [imap map fst]. f_equal. rewrite <- (IH (S b)). f_equal.
    apply imap_ext. intros i x _. cbn. f_equal. lia.
  - unfold tree_values. cbn [nodes]. rewrite loaded_values. exact Hvals.
  - apply prefix_app_r. reflexivity.
Qed.

Lemma tree_dict_round_trip_witness :
  exists data tree' w',
    tree_to_dict demo_heap demo_tree = Ret data /\
    tree_from_dict data empty_world = Loaded (tree', w') /\
    map fst (nodes tree') = ["e1"; "e2"; "e3"; "e4"] /\
    tree_values (heap w') tree' = demo_heap.
Proof.
  assert (Hrun : exists data, tree_to_dict demo_heap demo_tree = Ret data)
    by (eexists; vm_compute; reflexivity).
  destruct Hrun as [data Hrun].
  destruct (tree_dict_round_trip demo_heap demo_tree data empty_world)
    as (tree' & w' & Hload & _ & _ & _ & Hkeys & Hvals & _).
  - apply (bool_decide_eq_true_1 (NoDup (map fst (nodes demo_tree)))).
    vm_compute. reflexivity.
  - exact Hrun.
  - exists data, tree', w'. repeat split; assumption.
Defined.

(** ** The leaves of a built tree *)

Lemma carried_refl (p : nat) (h : list DocumentNode) : carried p h h.
Proof. split; [reflexivity|]. intros r n H. exists n. auto. Qed.

Lemma carried_trans (p : nat) (h0 h1 h2 : list DocumentNode) :
  carried p h0 h1 -> carried p h1 h2 -> carried p h0 h2.
Proof.
  intros [L1 H1] [L2 H2]. split; [congruence|]. intros r n Hr.
  destruct (H1 r n Hr) as (n1 & Hr1 & V1 & K1 & E1).
  destruct (H2 r n1 Hr1) as (n2 & Hr2 & V2 & K2 & E2).
  exists n2. split; [exact Hr2|]. split; [congruence|]. split.
  - intros Hne. rewrite K2, K1; auto.
  - auto.
Qed.

Lemma add_child_carried (p c : ref) (w w' : world) (u : unit) :
  p <> c -> add_child p c w = Ret (u, w') ->
  carried p (heap w) (heap w') /\
  exists pn, heap w' !! p = Some pn /\ children_ids pn <> [].
Proof.
  intros Hne Hrun.
  destruct (heap w !! c) as [cn|] eqn:Hc.
  2:{ unfold add_child, mbind, get_attr in Hrun. rewrite Hc in Hrun. discriminate. }
  destruct (heap w !! p) as [pn|] eqn:Hp.
  2:{ unfold add_child, mbind, get_attr in Hrun. rewrite Hc, Hp in Hrun. discriminate. }
  destruct (decide (id cn ∈ children_ids pn)) as [Hin|Hnot].
  - rewrite (add_child_present p c w pn cn Hp Hc Hin) in Hrun.
    injection Hrun as _ <-. split; [apply carried_refl|].
    exists pn. split; [exact Hp|]. intros E. rewrite E in Hin. inversion Hin.
  - rewrite (add_child_absent p c w pn cn Hp Hc Hne Hnot) in Hrun.
    injection Hrun as _ <-. cbn [heap].
    assert (Hlp : (p < length (heap w))%nat) by (eapply lookup_lt_Some; eauto).
    assert (Hlc : (c < length (heap w))%nat) by (eapply lookup_lt_Some; eauto).
    assert (Hkids : children_ids (with_child (id cn) pn) = children_ids pn ++ [id cn]).
    { unfold with_child. destruct (NodeType_eqb (node_type pn) LEAF); reflexivity. }
    assert (Hview : chunk_view (with_child (id cn) pn) = chunk_view pn).
    { unfold with_child. destruct (NodeType_eqb (node_type pn) LEAF); reflexivity. }
    split; [split|].
    + rewrite !length_insert. reflexivity.
    + intros r n Hr. destruct (decide (r = c)) as [->|Hrc].
      * exists (adopted_by pn cn).
        split; [apply list_lookup_insert_eq; rewrite length_insert; exact Hlc|].
        rewrite Hc in Hr. injection Hr as <-. repeat split; auto.
      * rewrite list_lookup_insert_ne by congruence.
        destruct (decide (r = p)) as [->|Hrp].
        -- exists (with_child (id cn) pn).
           split; [apply list_lookup_insert_eq; exact Hlp|].
           rewrite Hp in Hr. injection Hr as <-.
           split; [exact Hview|]. split; [congruence|].
           intros _. rewrite Hkids. intros E. apply app_eq_nil in E as [_ E].
           discriminate.
        -- rewrite list_lookup_insert_ne by congruence. exists n. auto.
    + exists (with_child (id cn) pn). split.
      * rewrite list_lookup_insert_ne by congruence.
        apply list_lookup_insert_eq. exact Hlp.
      * rewrite Hkids. intros E. apply app_eq_nil in E as [_ E]. discriminate.
Qed.

Lemma adopt_all_carried (p : ref) (group : list ref) :
  forall (w w' : world) (us : list unit),
    p ∉ group -> mmap (add_child p) group w = Ret (us, w') ->
    carried p (heap w) (heap w') /\
    (group <> [] -> exists pn, heap w' !! p = Some pn /\ children_ids pn <> []).
Proof.
  induction group as [|c group IH]; intros w w' us Hp Hrun; cbn [mmap] in Hrun.
  - injection Hrun as _ <-. split; [apply carried_refl|congruence].
  - apply mbind_inv in Hrun as (u & w1 & H1 & Hrun).
    apply mbind_inv in Hrun as (us' & w2 & H2 & Hrun).
    injection Hrun as _ <-.
    assert (Hpc : p <> c) by (intros ->; apply Hp; left).
    assert (Hpg : p ∉ group) by (intros Hin; apply Hp; right; exact Hin).
    destruct (add_child_carried p c w w1 u Hpc H1) as [Hc1 (pn & Hpn & Hne)].
    destruct (IH w1 w2 us' Hpg H2) as [Hc2 _].
    split; [eapply carried_trans; eauto|]. intros _.
    destruct Hc2 as [_ Hc2]. destruct (Hc2 p pn Hpn) as (pn' & Hpn' & _ & _ & E).
    exists pn'. auto.
Qed.

Lemma create_parent_node_carried (uuid4 : nat -> string) (group : list ref)
    (doc : string) (lvl : Z) (w w' : world) (r : ref) :
  group <> [] ->
  create_parent_node uuid4 group doc lvl w = Ret (r, w') ->
  length (heap w') = S (length (heap w)) /\
  (forall i n, heap w !! i = Some n ->
     exists n', heap w' !! i = Some n' /\ chunk_view n' = chunk_view n /\
                children_ids n' = children_ids n) /\
  exists pn, heap w' !! length (heap w) = Some pn /\ children_ids pn <> [].
Proof.
  intros Hne Hrun. unfold create_parent_node in Hrun.
  apply mbind_inv in Hrun as (nid & w1 & H1 & Hrun).
  unfold fresh_uuid in H1. injection H1 as <- <-.
  apply mbind_inv in Hrun as (starts & w2 & H2 & Hrun).
  pose proof (mmap_length _ _ _ _ _ H2) as Hstarts.
  assert (Hlive : forall c, c ∈ group -> (c < length (heap w))%nat).
  { clear -H2. revert starts w2 H2.
    induction group as [|c group IH]; intros starts w2 H2 x Hx; [inversion Hx|].
    cbn [mmap] in H2. apply mbind_inv in H2 as (a & w3 & Ha & H2).
    apply get_attr_inv in Ha as [-> (n & Hn & _)].
    apply mbind_inv in H2 as (ys & w4 & Hys & H2).
    apply elem_of_cons in Hx as [->|Hx].
    - cbn [heap] in Hn. eapply lookup_lt_Some; eauto.
    - eapply IH; eauto. }
  apply read_all_inv in H2. subst w2.
  apply mbind_inv in Hrun as (pstart & w2 & H2 & Hrun).
  apply lift_inv in H2 as [-> _].
  apply mbind_inv in Hrun as (ends & w2 & H2 & Hrun).
  apply read_all_inv in H2. subst w2.
  apply mbind_inv in Hrun as (pend & w2 & H2 & Hrun).
  apply lift_inv in H2 as [-> _].
  apply mbind_inv in Hrun as (metas & w2 & H2 & Hrun).
  apply read_all_inv in H2. subst w2.
  apply mbind_inv in Hrun as (parent & w2 & H2 & Hrun).
  unfold new_node in H2. cbn [heap uuid_count] in H2. injection H2 as <- <-.
  apply mbind_inv in Hrun as (u & w3 & H3 & Hrun).
  injection Hrun as <- <-.
  assert (Hp : length (heap w) ∉ group).
  { intros Hin. apply Hlive in Hin. lia. }
  destruct (adopt_all_carried _ group _ _ _ Hp H3) as [[Hlen Hc] Hkids].
  cbn [heap] in Hlen, Hc, Hkids. split; [|split].
  - rewrite Hlen, length_app. cbn. lia.
  - intros i n Hi.
    destruct (Hc i n (lookup_app_l_Some _ _ _ _ Hi)) as (n' & Hn' & Hv & Hk & _).
    exists n'. split; [exact Hn'|]. split; [exact Hv|]. apply Hk.
    apply lookup_lt_Some in Hi. lia.
  - exact (Hkids Hne).
Qed.

Lemma map_take_same {A B} (f : A -> B) (k : nat) (h h' : list A) :
  (forall r n, h !! r = Some n -> exists n', h' !! r = Some n' /\ f n' = f n) ->
  map f (take k h') = map f (take k h) \/ (length h < k)%nat.
Proof.
  intros Hsame. destruct (Nat.lt_ge_cases (length h) k) as [Hlt|Hge]; [right; exact Hlt|].
  left. apply list_eq. intros i. rewrite !list_lookup_fmap.
  destruct (Nat.lt_ge_cases i k) as [Hi|Hi].
  - rewrite !lookup_take_lt by exact Hi.
    destruct (lookup_lt_is_Some_2 h i ltac:(lia)) as [n Hn].
    destruct (Hsame i n Hn) as (n' & Hn' & E). rewrite Hn, Hn'. cbn. f_equal. exact E.
  - rewrite !lookup_take_ge by exact Hi. reflexivity.
Qed.

Lemma leaves_first_parent (uuid4 : nat -> string)
    (V : list (string * option Z * option Z)) (group : list ref) (doc : string)
    (lvl : Z) (w w' : world) (r : ref) :
  leaves_first V w -> group <> [] ->
  create_parent_node uuid4 group doc lvl w = Ret (r, w') -> leaves_first V w'.
Proof.
  intros (HV & Hlen & Hkids) Hne Hrun.
  destruct (create_parent_node_carried uuid4 group doc lvl w w' r Hne Hrun)
    as (Hlen' & Hold & pn & Hpn & Hpk).
  split; [|split].
  - destruct (map_take_same chunk_view (length V) (heap w) (heap w')) as [E|E];
      [|rewrite E; exact HV|lia].
    intros i n Hi. destruct (Hold i n Hi) as (n' & Hn' & Hv & _). eauto.
  - lia.
  - intros i n' Hi. destruct (Nat.lt_ge_cases i (length (heap w))) as [Hlt|Hge].
    + destruct (lookup_lt_is_Some_2 _ _ Hlt) as [n Hn].
      destruct (Hold i n Hn) as (n2 & Hn2 & _ & Hk).
      rewrite Hi in Hn2. injection Hn2 as <-. rewrite Hk. apply Hkids. exact Hn.
    + assert (i = length (heap w)).
      { apply lookup_lt_Some in Hi. lia. }
      subst i. rewrite Hpn in Hi. injection Hi as <-.
      split; [lia|]. intros _. exact Hpk.
Qed.

Lemma leaves_first_insert (V : list (string * option Z * option Z)) (w : world)
    (r : ref) (n n' : DocumentNode) :
  leaves_first V w -> heap w !! r = Some n ->
  chunk_view n' = chunk_view n -> children_ids n' = children_ids n ->
  leaves_first V (mkWorld (<[r := n']> (heap w)) (uuid_count w)).
Proof.
  intros (HV & Hlen & Hkids) Hr Hv Hk. unfold leaves_first. cbn [heap].
  assert (Hsame : forall i m, heap w !! i = Some m ->
            exists m', <[r := n']> (heap w) !! i = Some m' /\
                       chunk_view m' = chunk_view m /\
                       children_ids m' = children_ids m).
  { intros i m Hi. destruct (decide (i = r)) as [->|Hir].
    - exists n'. split; [apply list_lookup_insert_eq; eapply lookup_lt_Some; eauto|].
      rewrite Hr in Hi. injection Hi as <-. auto.
    - exists m. rewrite list_lookup_insert_ne by congruence. auto. }
  split; [|split].
  - destruct (map_take_same chunk_view (length V) (heap w) (<[r := n']> (heap w)))
      as [E|E]; [|rewrite E; exact HV|lia].
    intros i m Hi. destruct (Hsame i m Hi) as (m' & Hm' & E & _). eauto.
  - rewrite length_insert. exact Hlen.
  - intros i m' Hi.
    assert (Hlt : (i < length (heap w))%nat).
    { apply lookup_lt_Some in Hi. rewrite length_insert in Hi. exact Hi. }
    destruct (lookup_lt_is_Some_2 _ _ Hlt) as [m Hm].
    destruct (Hsame i m Hm) as (m2 & Hm2 & _ & E).
    rewrite Hi in Hm2. injection Hm2 as <-. rewrite E. apply Hkids. exact Hm.
Qed.

Lemma create_leaf_nodes_leaves (uuid4 : nat -> string) (chunks : list Chunk)
    (doc : string) (w w' : world) (ls : list ref) :
  heap w = [] -> create_leaf_nodes uuid4 chunks doc w = Ret (ls, w') ->
  leaves_first (map chunk_payload chunks) w'.
Proof.
  intros Hw Hrun. unfold create_leaf_nodes in Hrun.
  pose (I := fun (rest : list Chunk) (ys : list ref) (w : world) =>
    exists done, done ++ rest = chunks /\
      map chunk_view (heap w) = map chunk_payload done /\
      Forall (fun n => children_ids n = []) (heap w)).
  assert (HI : I [] ([] ++ ls) w').
  { eapply (hoare_mmap _ I); [|exists []; rewrite Hw; repeat split; constructor|exact Hrun].
    intros x rest ys wa y wb (done & Hsplit & Hviews & Hkids) Hrunx.
    apply mbind_inv in Hrunx as (nid & w1 & H1 & Hrunx).
    unfold fresh_uuid in H1. injection H1 as <- <-.
    unfold new_node in Hrunx. cbn [heap uuid_count] in Hrunx.
    injection Hrunx as <- <-. exists (done ++ [x]). cbn [heap].
    rewrite <- app_assoc. split; [exact Hsplit|]. rewrite !map_app, Hviews.
    split; [reflexivity|]. apply Forall_app. split; [exact Hkids|].
    constructor; [reflexivity|constructor]. }
  destruct HI as (done & Hsplit & Hviews & Hkids). rewrite app_nil_r in Hsplit.
  subst done.
  assert (Hlen : length (heap w') = length (map chunk_payload chunks)).
  { rewrite <- Hviews, length_map. reflexivity. }
  split; [|split].
  - rewrite <- Hlen, firstn_all. exact Hviews.
  - lia.
  - intros r n Hr. split.
    + intros _. rewrite Forall_forall in Hkids. apply Hkids.
      eapply list_elem_of_lookup_2; eauto.
    + intros Hge. apply lookup_lt_Some in Hr. lia.
Qed.

Lemma tree_values_in_order (h : list DocumentNode) (tree : DocumentTree) :
  in_order tree (length h) -> tree_values h tree = h.
Proof.
  unfold in_order, tree_values. intros Hord.
  assert (E : forall l : list (string * nat),
             omap (fun kv : string * nat => h !! kv.2) l
             = omap (fun r => h !! r) (map snd l)).
  { induction l as [|kv l IH]; [reflexivity|].
    cbn [map omap list_omap]. rewrite IH. reflexivity. }
  rewrite E, Hord. clear.
  induction h as [|x h IH] using rev_ind; [reflexivity|].
  rewrite length_app. cbn [length]. rewrite Nat.add_1_r, seq_S. cbn [Nat.add].
  assert (Happ : forall (l1 l2 : list nat),
             omap (fun r => (h ++ [x]) !! r) (l1 ++ l2)
             = omap (fun r => (h ++ [x]) !! r) l1 ++ omap (fun r => (h ++ [x]) !! r) l2).
  { intros l1 l2. induction l1 as [|a l1 IH1]; [reflexivity|].
    cbn [app omap list_omap]. rewrite IH1.
    destruct ((h ++ [x]) !! a); reflexivity. }
  rewrite Happ. cbn [omap list_omap].
  rewrite list_lookup_middle by reflexivity. cbn [app]. f_equal.
  rewrite <- IH at 2. clear.
  assert (Hgen : forall l : list nat, Forall (fun r => (r < length h)%nat) l ->
            omap (fun r => (h ++ [x]) !! r) l = omap (fun r => h !! r) l).
  { induction 1 as [|r l Hr _ IHl]; [reflexivity|].
    cbn [omap list_omap]. rewrite lookup_app_l by exact Hr. rewrite IHl. reflexivity. }
  apply Hgen. apply Forall_forall. intros r Hr.
  apply list_elem_of_In, in_seq in Hr. lia.
Qed.

Lemma filter_leaf_prefix (k : nat) (h : list DocumentNode) :
  (k <= length h)%nat ->
  (forall r n, h !! r = Some n ->
     ((r < k)%nat -> children_ids n = []) /\
     ((k <= r)%nat -> children_ids n <> [])) ->
  List.filter is_leaf h = take k h.
Proof.
  revert k. induction h as [|x h IH]; intros k Hk Hkids.
  - destruct k; reflexivity.
  - cbn [List.filter]. destruct k as [|k].
    + destruct (Hkids 0%nat x eq_refl) as [_ Hx].
      assert (Hleaf : is_leaf x = false).
      { unfold is_leaf, len. destruct (children_ids x) eqn:E;
          [exfalso; apply Hx; [lia|reflexivity]|].
        cbn [length]. apply Z.eqb_neq. lia. }
      rewrite Hleaf, (IH 0%nat); [reflexivity|lia|].
      intros r n Hr. destruct (Hkids (S r) n Hr) as [_ H2].
      split; [lia|]. intros _. apply H2. lia.
    + destruct (Hkids 0%nat x eq_refl) as [Hx _].
      assert (Hleaf : is_leaf x = true).
      { unfold is_leaf, len. rewrite Hx by lia. reflexivity. }
      rewrite Hleaf. cbn [take]. f_equal. apply IH; [cbn in Hk; lia|].
      intros r n Hr. destruct (Hkids (S r) n Hr) as [H1 H2].
      split; intros; [apply H1|apply H2]; lia.
Qed.

(** X28. The leaves of the tree [process_document] builds are the
    chunks, one to one and in order: for [max_chunk_size > 0], pages with
    non-zero page numbers and identifiers that never repeat, the nodes
    without children, in the order of [tree.nodes], carry the text and
    the first and last page number of the chunks that
    [split_pages_into_chunks] returns, in the same order. *)
Theorem leaves_match_chunks (uuid4 : nat -> string) (self : DocumentSplitter)
    (pages : list Page) (document_title : string) (w : world) :
  (forall a b, uuid4 a = uuid4 b -> a = b) ->
  heap w = [] -> pages <> [] -> 0 < max_chunk_size self ->
  Forall (fun p => page_number p <> 0) pages ->
  exists chunks tree w',
    split_pages_into_chunks self pages = Ret chunks /\
    process_document uuid4 self pages document_title w = Ret (tree, w') /\
    map chunk_view (get_leaf_nodes (heap w') tree) = map chunk_payload chunks.
Proof.
  intros Hinj Hw Hne Hmax Hpages.
  destruct (chunks_of_numbered_pages self pages Hne Hmax Hpages)
    as (chunks & Hsplit & Hcne & Hchunks).
  destruct (build_from_chunks_linked uuid4 (leaves_first (map chunk_payload chunks))
              chunks (uuid4 (uuid_count w)) (mkWorld (heap w) (S (uuid_count w))) Hinj)
    as (tree & w' & Hrun & HJ & _ & _ & _ & Hord); auto.
  - intros group doc lvl wa r wb HJ _ Hg _ _ Hrun.
    exact (leaves_first_parent uuid4 _ group doc lvl wa wb r HJ Hg Hrun).
  - intros wa r n t HJ Hr. apply (leaves_first_insert _ wa r n); auto.
  - intros wa r n l HJ Hr. apply (leaves_first_insert _ wa r n); auto.
  - intros ls w1 Hrun. eapply create_leaf_nodes_leaves; [|exact Hrun]. exact Hw.
  - exists chunks,
      (mkTree (tree_document_id tree) document_title (nodes tree) (root_node_id tree)),
      w'.
    split; [exact Hsplit|]. split.
    + unfold process_document, mbind at 1, fresh_uuid.
      destruct pages as [|p pages]; [congruence|].
      rewrite Hsplit. unfold build_from_chunks in Hrun.
      apply mbind_inv in Hrun as (ls & w1 & H1 & Hrun).
      unfold mbind, lift. rewrite H1, Hrun. reflexivity.
    + destruct HJ as (HV & Hlen & Hkids).
      unfold get_leaf_nodes.
      assert (Hvals : tree_values (heap w')
                (mkTree (tree_document_id tree) document_title (nodes tree)
                        (root_node_id tree)) = heap w').
      { apply tree_values_in_order. unfold in_order in *. cbn [nodes].
        rewrite Hord. unfold links. rewrite length_map. reflexivity. }
      rewrite Hvals, (filter_leaf_prefix _ _ Hlen Hkids). exact HV.
Qed.

Lemma leaves_match_chunks_witness :
  exists chunks tree w',
    split_pages_into_chunks (mkSplitter 10 1 0) (numbered_pages 23) = Ret chunks /\
    process_document demo_uuid4 (mkSplitter 10 1 0) (numbered_pages 23) "doc"
      empty_world = Ret (tree, w') /\
    map chunk_view (get_leaf_nodes (heap w') tree) = map chunk_payload chunks.
Proof.
  apply (leaves_match_chunks demo_uuid4 (mkSplitter 10 1 0) (numbered_pages 23)
           "doc" empty_world).
  - exact demo_uuid4_inj.
  - reflexivity.
  - discriminate.
  - cbn. lia.
  - unfold numbered_pages. apply Forall_forall. intros p Hp.
    apply list_elem_of_In, in_map_iff in Hp as (k & <- & Hk).
    apply in_seq in Hk. cbn. lia.
Defined.

(** ** Page ranges in a built tree *)

Lemma adopted_from_refl (p : nat) (group : list nat) (h : list DocumentNode) :
  adopted_from p group h h.
Proof. split; [reflexivity|]. intros r n H. exists n. auto. Qed.

Lemma adopted_from_trans (p : nat) (g1 g2 : list nat) (h0 h1 h2 : list DocumentNode) :
  adopted_from p g1 h0 h1 -> adopted_from p g2 h1 h2 ->
  adopted_from p (g1 ++ g2) h0 h2.
Proof.
  intros [L1 H1] [L2 H2]. split; [congruence|]. intros r n Hr.
  destruct (H1 r n Hr) as (n1 & Hr1 & I1 & O1).
  destruct (H2 r n1 Hr1) as (n2 & Hr2 & I2 & O2).
  exists n2. split; [exact Hr2|]. split; [congruence|].
  intros Hp cid Hcid. destruct (O2 Hp cid Hcid) as [Hin|(rc & c & Hrc & Hc & Hid)].
  - destruct (O1 Hp cid Hin) as [Hin0|(rc & c & Hrc & Hc & Hid)]; [left; exact Hin0|].
    right. exists rc, c. split; [apply elem_of_app; left; exact Hrc|auto].
  - right. assert (Hlt : (rc < length h0)%nat).
    { apply lookup_lt_Some in Hc. lia. }
    destruct (lookup_lt_is_Some_2 _ _ Hlt) as [c0 Hc0].
    destruct (H1 rc c0 Hc0) as (c1 & Hc1 & Hid1 & _).
    rewrite Hc in Hc1. injection Hc1 as <-.
    exists rc, c0. split; [apply elem_of_app; right; exact Hrc|].
    split; [exact Hc0|congruence].
Qed.

Lemma add_child_adopted (p c : ref) (w w' : world) (u : unit) :
  p <> c -> add_child p c w = Ret (u, w') ->
  adopted_from p [c] (heap w) (heap w').
Proof.
  intros Hne Hrun.
  destruct (heap w !! c) as [cn|] eqn:Hc.
  2:{ unfold add_child, mbind, get_attr in Hrun. rewrite Hc in Hrun. discriminate. }
  destruct (heap w !! p) as [pn|] eqn:Hp.
  2:{ unfold add_child, mbind, get_attr in Hrun. rewrite Hc, Hp in Hrun. discriminate. }
  destruct (decide (id cn ∈ children_ids pn)) as [Hin|Hnot].
  - rewrite (add_child_present p c w pn cn Hp Hc Hin) in Hrun.
    injection Hrun as _ <-. apply adopted_from_refl.
  - rewrite (add_child_absent p c w pn cn Hp Hc Hne Hnot) in Hrun.
    injection Hrun as _ <-. cbn [heap].
    assert (Hlp : (p < length (heap w))%nat) by (eapply lookup_lt_Some; eauto).
    assert (Hlc : (c < length (heap w))%nat) by (eapply lookup_lt_Some; eauto).
    assert (Hkids : children_ids (with_child (id cn) pn) = children_ids pn ++ [id cn]).
    { unfold with_child. destruct (NodeType_eqb (node_type pn) LEAF); reflexivity. }
    assert (Hid : id (with_child (id cn) pn) = id pn).
    { unfold with_child. destruct (NodeType_eqb (node_type pn) LEAF); reflexivity. }
    split; [rewrite !length_insert; reflexivity|].
    intros r n Hr. destruct (decide (r = c)) as [->|Hrc].
    + exists (adopted_by pn cn).
      split; [apply list_lookup_insert_eq; rewrite length_insert; exact Hlc|].
      rewrite Hc in Hr. injection Hr as <-. split; [reflexivity|]. congruence.
    + rewrite list_lookup_insert_ne by congruence.
      destruct (decide (r = p)) as [->|Hrp].
      * exists (with_child (id cn) pn).
        split; [apply list_lookup_insert_eq; exact Hlp|].
        rewrite Hp in Hr. injection Hr as <-. split; [exact Hid|].
        intros _ cid Hcid. rewrite Hkids in Hcid.
        apply elem_of_app in Hcid as [Hcid|Hcid]; [left; exact Hcid|].
        apply list_elem_of_singleton in Hcid. subst cid.
        right. exists c, cn. split; [left|auto].
      * rewrite list_lookup_insert_ne by congruence. exists n.
        split; [exact Hr|]. split; [reflexivity|]. congruence.
Qed.

Lemma adopt_all_adopted (p : ref) (group : list ref) :
  forall (w w' : world) (us : list unit),
    p ∉ group -> mmap (add_child p) group w = Ret (us, w') ->
    adopted_from p group (heap w) (heap w').
Proof.
  induction group as [|c group IH]; intros w w' us Hp Hrun; cbn [mmap] in Hrun.
  - injection Hrun as _ <-. apply adopted_from_refl.
  - apply mbind_inv in Hrun as (u & w1 & H1 & Hrun).
    apply mbind_inv in Hrun as (us' & w2 & H2 & Hrun).
    injection Hrun as _ <-.
    assert (Hpc : p <> c) by (intros ->; apply Hp; left).
    assert (Hpg : p ∉ group) by (intros Hin; apply Hp; right; exact Hin).
    exact (adopted_from_trans p [c] group _ _ _
             (add_child_adopted p c w w1 u Hpc H1) (IH w1 w2 us' Hpg H2)).
Qed.

Lemma read_all_values {A} (f : DocumentNode -> A) (group : list ref) :
  forall (w w' : world) (ys : list A),
    mmap (get_attr f) group w = Ret (ys, w') ->
    Forall2 (fun r y => exists n, heap w !! r = Some n /\ y = f n) group ys.
Proof.
  induction group as [|r group IH]; intros w w' ys Hrun; cbn [mmap] in Hrun.
  - injection Hrun as <- _. constructor.
  - apply mbind_inv in Hrun as (y & w1 & H1 & Hrun).
    apply get_attr_inv in H1 as [-> Hy].
    apply mbind_inv in Hrun as (ys' & w2 & H2 & Hrun).
    injection Hrun as <- _. constructor; [exact Hy|]. eapply IH; eauto.
Qed.

Lemma fold_min_le (l : list Z) :
  forall x, fold_left Z.min l x <= x /\ Forall (fun y => fold_left Z.min l x <= y) l.
Proof.
  induction l as [|y l IH]; intros x; cbn [fold_left]; [split; [lia|constructor]|].
  destruct (IH (Z.min x y)) as [H1 H2]. split; [lia|].
  constructor; [lia|exact H2].
Qed.

Lemma py_min_le (l : list Z) (m : Z) :
  py_min l = Ret m -> Forall (fun y => m <= y) l.
Proof.
  destruct l as [|x l]; [discriminate|]. intros [= <-].
  destruct (fold_min_le l x) as [H1 H2]. constructor; assumption.
Qed.

Lemma py_max_ge (l : list Z) (m : Z) :
  py_max l = Ret m -> Forall (fun y => y <= m) l.
Proof.
  destruct l as [|x l]; [discriminate|]. intros [= <-].
  destruct (fold_left_max_ge l x) as [H1 H2]. constructor; assumption.
Qed.

Lemma truthy_ints_elem (l : list (option Z)) (z : Z) :
  Some z ∈ l -> z <> 0 -> z ∈ truthy_ints l.
Proof.
  intros Hin Hz. unfold truthy_ints.
  induction l as [|o l IH]; [inversion Hin|].
  cbn [omap list_omap]. apply elem_of_cons in Hin as [<-|Hin].
  - cbn. destruct (Z.eqb_spec z 0); [contradiction|]. left.
  - destruct (if truthy_int o then o else None); [right|]; apply IH; exact Hin.
Qed.

Lemma truthy_ints_nonzero (l : list (option Z)) :
  Forall (fun z => z <> 0) (truthy_ints l).
Proof.
  unfold truthy_ints. induction l as [|o l IH]; [constructor|].
  cbn [omap list_omap]. destruct o as [z|]; cbn; [|exact IH].
  destruct (Z.eqb_spec z 0); cbn; [exact IH|]. constructor; assumption.
Qed.

Lemma truthy_int_some (o : option Z) :
  truthy_int o = true -> exists z, o = Some z /\ z <> 0.
Proof.
  destruct o as [z|]; [|discriminate]. cbn.
  destruct (Z.eqb_spec z 0); [discriminate|]. eauto.
Qed.

Lemma py_min_elem (l : list Z) (m : Z) : py_min l = Ret m -> m ∈ l.
Proof. destruct l as [|x l]; [discriminate|]. intros [= <-]. apply fold_min_elem. Qed.

Lemma py_max_elem (l : list Z) (m : Z) : py_max l = Ret m -> m ∈ l.
Proof. destruct l as [|x l]; [discriminate|]. intros [= <-]. apply fold_max_elem. Qed.

Lemma read_all_elem {A} (f : DocumentNode -> A) (group : list ref) :
  forall (w w' : world) (ys : list A) (r : ref) (n : DocumentNode),
    mmap (get_attr f) group w = Ret (ys, w') ->
    r ∈ group -> heap w !! r = Some n -> f n ∈ ys.
Proof.
  induction group as [|c group IH]; intros w w' ys r n Hrun Hr Hn; [inversion Hr|].
  cbn [mmap] in Hrun.
  apply mbind_inv in Hrun as (y & w1 & H1 & Hrun).
  apply get_attr_inv in H1 as [-> (m & Hm & ->)].
  apply mbind_inv in Hrun as (ys' & w2 & H2 & Hrun).
  injection Hrun as <- _.
  apply elem_of_cons in Hr as [->|Hr].
  - rewrite Hn in Hm. injection Hm as <-. left.
  - right. eapply IH; eauto.
Qed.

(** What [create_parent_node] leaves in the heap: the objects it found
    keep their identifier, what they carry and their children; the new
    object is the last one, has the identifier just drawn and a non-zero
    first and last page, and each child it lists is an object of the
    group whose non-zero first page is not before its own and whose
    non-zero last page is not after its own. *)
Lemma create_parent_node_pages (uuid4 : nat -> string) (group : list ref)
    (doc : string) (lvl : Z) (w w' : world) (r : ref) :
  create_parent_node uuid4 group doc lvl w = Ret (r, w') ->
  length (heap w') = S (length (heap w)) /\
  (forall i n, heap w !! i = Some n ->
     exists n', heap w' !! i = Some n' /\ id n' = id n /\
                chunk_view n' = chunk_view n /\
                children_ids n' = children_ids n) /\
  exists pn ps pe,
    heap w' !! length (heap w) = Some pn /\ id pn = uuid4 (uuid_count w) /\
    page_start pn = Some ps /\ page_end pn = Some pe /\ ps <> 0 /\ pe <> 0 /\
    forall cid, cid ∈ children_ids pn ->
      exists rc c, heap w !! rc = Some c /\ id c = cid /\
        (forall cs, page_start c = Some cs -> cs <> 0 -> ps <= cs) /\
        (forall ce, page_end c = Some ce -> ce <> 0 -> ce <= pe).
Proof.
  intros Hrun. unfold create_parent_node in Hrun.
  apply mbind_inv in Hrun as (nid & w1 & H1 & Hrun).
  unfold fresh_uuid in H1. injection H1 as <- <-.
  apply mbind_inv in Hrun as (starts & w2 & Hstarts & Hrun).
  assert (Hlive : forall c, c ∈ group -> (c < length (heap w))%nat).
  { pose proof (read_all_values _ _ _ _ _ Hstarts) as Hall.
    intros c Hc.
    revert Hc. clear -Hall. induction Hall as [|x y l k (n & Hn & _) _ IH];
      intros Hc; [inversion Hc|].
    apply elem_of_cons in Hc as [->|Hc]; [|exact (IH Hc)].
    cbn [heap] in Hn. eapply lookup_lt_Some; eauto. }
  pose proof (read_all_inv _ _ _ _ _ Hstarts). subst w2.
  apply mbind_inv in Hrun as (pstart & w2 & H2 & Hrun).
  apply lift_inv in H2 as [-> Hmin].
  apply mbind_inv in Hrun as (ends & w2 & Hends & Hrun).
  pose proof (read_all_inv _ _ _ _ _ Hends). subst w2.
  apply mbind_inv in Hrun as (pend & w2 & H2 & Hrun).
  apply lift_inv in H2 as [-> Hmax].
  apply mbind_inv in Hrun as (metas & w2 & H2 & Hrun).
  apply read_all_inv in H2. subst w2.
  apply mbind_inv in Hrun as (parent & w2 & H2 & Hrun).
  unfold new_node in H2. cbn [heap uuid_count] in H2. injection H2 as <- <-.
  apply mbind_inv in Hrun as (u & w3 & H3 & Hrun).
  injection Hrun as <- <-.
  assert (Hp : length (heap w) ∉ group).
  { intros Hin. apply Hlive in Hin. lia. }
  destruct (adopt_all_carried _ group _ _ _ Hp H3) as [[Hlen Hc] _].
  destruct (adopt_all_adopted _ group _ _ _ Hp H3) as [_ Ha].
  cbn [heap] in Hlen, Hc, Ha. split; [|split].
  - rewrite Hlen, length_app. cbn. lia.
  - intros i n Hi.
    destruct (Hc i n (lookup_app_l_Some _ _ _ _ Hi)) as (n' & Hn' & Hv & Hk & _).
    destruct (Ha i n (lookup_app_l_Some _ _ _ _ Hi)) as (n2 & Hn2 & Hid & _).
    rewrite Hn' in Hn2. injection Hn2 as <-.
    exists n'. split; [exact Hn'|]. split; [exact Hid|]. split; [exact Hv|].
    apply Hk. apply lookup_lt_Some in Hi. lia.
  - match type of Hc with
    | forall r n, (_ ++ [?P]) !! r = Some n -> _ => set (pn0 := P) in *
    end.
    assert (Hpn0 : (heap w ++ [pn0]) !! length (heap w) = Some pn0).
    { rewrite lookup_app_r by lia. rewrite Nat.sub_diag. reflexivity. }
    destruct (Hc _ _ Hpn0) as (pn & Hpn & Hv & _ & _).
    destruct (Ha _ _ Hpn0) as (pn2 & Hpn2 & Hid & Hkids).
    rewrite Hpn in Hpn2. injection Hpn2 as <-.
    unfold chunk_view in Hv. injection Hv as _ Hs He.
    exists pn, pstart, pend.
    split; [exact Hpn|]. split; [exact Hid|].
    split; [exact Hs|]. split; [exact He|].
    pose proof (truthy_ints_nonzero starts) as Hnzs.
    pose proof (truthy_ints_nonzero ends) as Hnze.
    rewrite Forall_forall in Hnzs, Hnze.
    split; [apply Hnzs, py_min_elem, Hmin|].
    split; [apply Hnze, py_max_elem, Hmax|].
    intros cid Hcid.
    destruct (Hkids eq_refl cid Hcid) as [Hin|(rc & c & Hrc & Hcn & Hidc)];
      [inversion Hin|].
    assert (Hcw : heap w !! rc = Some c).
    { rewrite lookup_app_l in Hcn by (apply Hlive; exact Hrc). exact Hcn. }
    exists rc, c. split; [exact Hcw|]. split; [exact Hidc|].
    pose proof (py_min_le _ _ Hmin) as Hle. pose proof (py_max_ge _ _ Hmax) as Hge.
    rewrite Forall_forall in Hle, Hge. split.
    + intros cs Hcs Hnz. apply Hle, truthy_ints_elem; [|exact Hnz].
      rewrite <- Hcs. exact (read_all_elem page_start group _ _ _ rc c Hstarts Hrc Hcw).
    + intros ce Hce Hnz. apply Hge, truthy_ints_elem; [|exact Hnz].
      rewrite <- Hce. exact (read_all_elem page_end group _ _ _ rc c Hends Hrc Hcw).
Qed.

Lemma encloses_same (p c p' c' : DocumentNode) :
  chunk_view p' = chunk_view p -> chunk_view c' = chunk_view c ->
  encloses p c -> encloses p' c'.
Proof.
  unfold chunk_view. intros [= _ Hps Hpe] [= _ Hcs Hce].
  unfold encloses. rewrite Hps, Hpe, Hcs, Hce. auto.
Qed.

Lemma page_ranges_nest_parent (uuid4 : nat -> string) (group : list ref)
    (doc : string) (lvl : Z) (w w' : world) (r : ref) :
  (forall a b, uuid4 a = uuid4 b -> a = b) ->
  page_ranges_nest w -> linked uuid4 (links w) (uuid_count w) ->
  create_parent_node uuid4 group doc lvl w = Ret (r, w') -> page_ranges_nest w'.
Proof.
  intros Hinj [Hpages Hnest] [Hids Huniq _ Hdown _] Hrun.
  destruct (create_parent_node_pages uuid4 group doc lvl w w' r Hrun)
    as (Hlen & Hold & pn & ps & pe & Hpn & Hpid & Hps & Hpe & Hps0 & Hpe0 & Hkids).
  assert (Hcases : forall i n', heap w' !! i = Some n' ->
            (exists n, heap w !! i = Some n /\ id n' = id n /\
                       chunk_view n' = chunk_view n /\
                       children_ids n' = children_ids n) \/
            (i = length (heap w) /\ n' = pn)).
  { intros i n' Hi. destruct (Nat.lt_ge_cases i (length (heap w))) as [Hlt|Hge].
    - left. destruct (lookup_lt_is_Some_2 _ _ Hlt) as [n Hn].
      destruct (Hold i n Hn) as (n2 & Hn2 & E).
      rewrite Hi in Hn2. injection Hn2 as <-. eauto.
    - right. assert (i = length (heap w)).
      { apply lookup_lt_Some in Hi. lia. }
      subst i. rewrite Hpn in Hi. injection Hi as <-. auto. }
  assert (Hdrawn : forall i n, heap w !! i = Some n -> id n <> uuid4 (uuid_count w)).
  { intros i n Hn E.
    destruct (Hids i _ (links_lookup_node w i n Hn)) as (k & Hk & Hidk).
    cbn [link_view lid] in Hidk. rewrite E in Hidk. apply Hinj in Hidk. lia. }
  assert (Hsame : forall i j n m, heap w !! i = Some n -> heap w !! j = Some m ->
            id n = id m -> n = m).
  { intros i j n m Hn Hm E.
    assert (i = j).
    { apply (Huniq i j _ _ (links_lookup_node w i n Hn) (links_lookup_node w j m Hm)).
      exact E. }
    subst j. congruence. }
  split.
  - apply Forall_lookup_2. intros i n' Hi.
    destruct (Hcases i n' Hi) as [(n & Hn & _ & Hv & _)|[_ ->]].
    + unfold chunk_view in Hv. injection Hv as _ -> ->.
      exact (Forall_lookup_1 _ _ _ _ Hpages Hn).
    + rewrite Hps, Hpe. cbn.
      destruct (Z.eqb_spec ps 0); [contradiction|].
      destruct (Z.eqb_spec pe 0); [contradiction|]. auto.
  - intros rp p rc c Hp Hc Hin.
    destruct (Hcases rp p Hp) as [(p0 & Hp0 & _ & Hpv & Hpk)|[_ ->]].
    + rewrite Hpk in Hin.
      destruct (Hdown rp _ (id c) (links_lookup_node w rp p0 Hp0) Hin)
        as (r0 & l0 & Hl0 & Hid0 & _).
      apply links_lookup in Hl0 as (c0 & Hc0 & <-). cbn [link_view lid] in Hid0.
      destruct (Hcases rc c Hc) as [(c1 & Hc1 & Hcid & Hcv & _)|[_ ->]].
      * assert (c0 = c1) by (apply (Hsame r0 rc); congruence). subst c1.
        apply (encloses_same p0 c0); [exact Hpv|exact Hcv|].
        apply (Hnest rp p0 rc c0 Hp0 Hc1). rewrite <- Hcid. exact Hin.
      * exfalso. apply (Hdrawn r0 c0 Hc0). congruence.
    + destruct (Hkids (id c) Hin) as (r0 & c0 & Hc0 & Hid0 & Hlo & Hhi).
      destruct (Hcases rc c Hc) as [(c1 & Hc1 & Hcid & Hcv & _)|[_ ->]].
      * assert (c0 = c1) by (apply (Hsame r0 rc); congruence). subst c1.
        destruct (Forall_lookup_1 _ _ _ _ Hpages Hc0) as [Ts Te].
        apply truthy_int_some in Ts as (cs & Hcs & Hcs0).
        apply truthy_int_some in Te as (ce & Hce & Hce0).
        unfold chunk_view in Hcv. injection Hcv as _ Hs He.
        exists ps, pe, cs, ce.
        split; [exact Hps|]. split; [exact Hpe|].
        split; [congruence|]. split; [congruence|]. split; [apply Hlo|apply Hhi]; auto.
      * exfalso. apply (Hdrawn r0 c0 Hc0). congruence.
Qed.

Lemma page_ranges_nest_insert (w : world) (r : ref) (n n' : DocumentNode) :
  page_ranges_nest w -> heap w !! r = Some n ->
  id n' = id n -> chunk_view n' = chunk_view n -> children_ids n' = children_ids n ->
  page_ranges_nest (mkWorld (<[r := n']> (heap w)) (uuid_count w)).
Proof.
  intros [Hpages Hnest] Hr Hid Hv Hk. unfold page_ranges_nest. cbn [heap].
  assert (Hsame : forall i m', <[r := n']> (heap w) !! i = Some m' ->
            exists m, heap w !! i = Some m /\ id m' = id m /\
                      chunk_view m' = chunk_view m /\
                      children_ids m' = children_ids m).
  { intros i m' Hi. destruct (decide (i = r)) as [->|Hir].
    - rewrite list_lookup_insert_eq in Hi by (eapply lookup_lt_Some; eauto).
      injection Hi as <-. eauto.
    - rewrite list_lookup_insert_ne in Hi by congruence. eauto. }
  split.
  - apply Forall_lookup_2. intros i m' Hi.
    destruct (Hsame i m' Hi) as (m & Hm & _ & E & _).
    unfold chunk_view in E. injection E as _ -> ->.
    exact (Forall_lookup_1 _ _ _ _ Hpages Hm).
  - intros rp p rc c Hp Hc Hin.
    destruct (Hsame rp p Hp) as (p0 & Hp0 & _ & Hpv & Hpk).
    destruct (Hsame rc c Hc) as (c0 & Hc0 & Hcid & Hcv & _).
    apply (encloses_same p0 c0); [exact Hpv|exact Hcv|].
    apply (Hnest rp p0 rc c0 Hp0 Hc0). rewrite <- Hcid, <- Hpk. exact Hin.
Qed.

Lemma page_ranges_nest_leaves (uuid4 : nat -> string) (chunks : list Chunk)
    (doc : string) (w w' : world) (ls : list ref) :
  (forall a b, uuid4 a = uuid4 b -> a = b) ->
  heap w = [] ->
  Forall (fun c => chunk_page_start c <> 0 /\ chunk_page_end c <> 0) chunks ->
  create_leaf_nodes uuid4 chunks doc w = Ret (ls, w') -> page_ranges_nest w'.
Proof.
  intros Hinj Hw Hchunks Hrun.
  destruct (create_leaf_nodes_spec uuid4 Hinj chunks doc w ls w' Hw Hrun)
    as (_ & Hlen & _ & _).
  destruct (create_leaf_nodes_leaves uuid4 chunks doc w w' ls Hw Hrun)
    as (HV & _ & Hkids).
  unfold links in Hlen. rewrite length_map in Hlen.
  rewrite length_map in HV, Hkids. rewrite <- Hlen, firstn_all in HV.
  split.
  - apply Forall_lookup_2. intros i n Hi.
    assert (Hv : map chunk_view (heap w') !! i = Some (chunk_view n)).
    { rewrite list_lookup_fmap, Hi. reflexivity. }
    rewrite HV, list_lookup_fmap in Hv.
    destruct (chunks !! i) as [c|] eqn:Hc; [|discriminate].
    cbn in Hv. unfold chunk_payload, chunk_view in Hv.
    injection Hv as _ Hs He. rewrite <- Hs, <- He.
    destruct (Forall_lookup_1 _ _ _ _ Hchunks Hc) as [H1 H2]. cbn.
    destruct (Z.eqb_spec (chunk_page_start c) 0); [contradiction|].
    destruct (Z.eqb_spec (chunk_page_end c) 0); [contradiction|]. auto.
  - intros rp p rc c Hp Hc Hin.
    destruct (Hkids rp p Hp) as [Hnone _].
    rewrite Hnone in Hin; [inversion Hin|].
    apply lookup_lt_Some in Hp. lia.
Qed.

(** X29. In the tree [process_document] builds, the page range of a node
    contains the page range of each of its children: for
    [max_chunk_size > 0], pages with non-zero page numbers and
    identifiers that [uuid4] never repeats, every node [c] that
    [get_children] returns for a node [n] of the tree has
    [n.page_start <= c.page_start] and [c.page_end <= n.page_end], all
    four being set. *)
Theorem children_pages_within_parent (uuid4 : nat -> string) (self : DocumentSplitter)
    (pages : list Page) (document_title : string) (w : world) :
  (forall a b, uuid4 a = uuid4 b -> a = b) ->
  heap w = [] -> pages <> [] -> 0 < max_chunk_size self ->
  Forall (fun p => page_number p <> 0) pages ->
  exists tree w',
    process_document uuid4 self pages document_title w = Ret (tree, w') /\
    forall k n c, get_node (heap w') tree k = Some n ->
                  c ∈ get_children (heap w') tree k -> encloses n c.
Proof.
  intros Hinj Hw Hne Hmax Hpages.
  destruct (chunks_of_numbered_pages self pages Hne Hmax Hpages)
    as (chunks & Hsplit & Hcne & Hchunks).
  destruct (build_from_chunks_linked uuid4 page_ranges_nest
              chunks (uuid4 (uuid_count w)) (mkWorld (heap w) (S (uuid_count w))) Hinj)
    as (tree & w' & Hrun & [_ Hnest] & _ & Hfiled & _ & _); auto.
  - intros group doc lvl wa r wb HJ Hl _ _ _ Hrun.
    exact (page_ranges_nest_parent uuid4 group doc lvl wa wb r Hinj HJ Hl Hrun).
  - intros wa r n t HJ Hr. apply (page_ranges_nest_insert wa r n); auto.
  - intros wa r n l HJ Hr. apply (page_ranges_nest_insert wa r n); auto.
  - intros ls w1 Hrun.
    exact (page_ranges_nest_leaves uuid4 chunks _ _ w1 ls Hinj (Hw : heap (mkWorld (heap w) (S (uuid_count w))) = []) Hchunks Hrun).
  - exists (mkTree (tree_document_id tree) document_title (nodes tree) (root_node_id tree)),
           w'.
    split.
    + unfold process_document, mbind at 1, fresh_uuid.
      destruct pages as [|p pages]; [congruence|].
      rewrite Hsplit. unfold build_from_chunks in Hrun.
      apply mbind_inv in Hrun as (ls & w1 & H1 & Hrun).
      unfold mbind, lift. rewrite H1, Hrun. reflexivity.
    + intros k n c Hn Hc. unfold get_children in Hc. rewrite Hn in Hc.
      apply list_elem_of_omap in Hc as (cid & Hcid & Hget).
      apply get_node_lookup in Hn as (rp & _ & Hp).
      apply get_node_lookup in Hget as (rc & Hk & Hrc). cbn [nodes] in Hk.
      destruct (Hfiled cid rc Hk) as (l & Hl & Hlid).
      apply links_lookup in Hl as (c' & Hc' & <-). cbn [link_view lid] in Hlid.
      rewrite Hrc in Hc'. injection Hc' as <-.
      apply (Hnest rp n rc c Hp Hrc). rewrite Hlid. exact Hcid.
Qed.

Lemma children_pages_within_parent_witness :
  exists tree w',
    process_document demo_uuid4 (mkSplitter 2 1 0) (numbered_pages 23) "doc"
      empty_world = Ret (tree, w') /\
    forall k n c, get_node (heap w') tree k = Some n ->
                  c ∈ get_children (heap w') tree k -> encloses n c.
Proof.
  apply (children_pages_within_parent demo_uuid4 (mkSplitter 2 1 0) (numbered_pages 23)
           "doc" empty_world).
  - exact demo_uuid4_inj.
  - reflexivity.
  - discriminate.
  - cbn. lia.
  - unfold numbered_pages. apply Forall_forall. intros p Hp.
    apply list_elem_of_In, in_map_iff in Hp as (k & <- & Hk).
    apply in_seq in Hk. cbn. lia.
Defined.
